(** * Operator manipulation commands (src/backend/commands/operatorcmds.c)

    A shallow embedding of [DefineOperator], [ValidateRestrictionEstimator],
    [ValidateJoinEstimator], [RemoveOperatorById] and [AlterOperator], and the
    properties of the operator life cycle that follow from it.

    The C functions run against the backend: they raise errors with
    [ereport(ERROR, ...)], print warnings, read and write the [pg_operator]
    catalog and call into the parser and the catalog code.  Here every
    function is a computation in a small state-and-error monad [M]; the
    state holds the [pg_operator] heap and the log of what the function did
    (warnings and calls into collaborators), and the routines that live in
    other files of the backend are the fields of a record [Env]. *)

From Stdlib Require Import ZArith String Ascii DecimalString List Bool Lia.
From stdpp Require Import base list.
Import ListNotations.

Local Open Scope string_scope.

(** ** Object identifiers and the constants of the catalog headers *)

Definition Oid := Z.
Bind Scope Z_scope with Oid.
Definition InvalidOid : Oid := 0%Z.
Definition OidIsValid (objectId : Oid) : bool := negb (objectId =? InvalidOid)%Z.

(** Type OIDs of catalog/pg_type_d.h. *)
Definition BOOLOID : Oid := 16%Z.
Definition INT2OID : Oid := 21%Z.
Definition INT4OID : Oid := 23%Z.
Definition OIDOID : Oid := 26%Z.
Definition FLOAT8OID : Oid := 701%Z.
Definition INTERNALOID : Oid := 2281%Z.

(** Catalog OID of pg_operator (catalog/pg_operator_d.h). *)
Definition OperatorRelationId : Oid := 2617%Z.

(** ** Parse nodes (nodes/parsenodes.h), the fields this file reads *)

Record TypeName := mkTypeName { names : list string; setof : bool }.

Inductive Node :=
| T_TypeName (t : TypeName)
| T_List (l : list string)
| T_String (s : string)
| T_Integer (i : Z).

(** [arg = None] is the C [defel->arg == NULL]. *)
Record DefElem := mkDefElem { defname : string; arg : option Node }.

Record ObjectWithArgs := mkObjectWithArgs { objname : list string; objargs : list (option TypeName) }.

Record AlterOperatorStmt := mkAlterOperatorStmt { opername : ObjectWithArgs; options : list DefElem }.

Record ObjectAddress := mkObjectAddress { classId : Oid; objectId : Oid; objectSubId : Z }.

(** ** Errors *)

Inductive ErrCode :=
| ERRCODE_INVALID_FUNCTION_DEFINITION
| ERRCODE_INVALID_OBJECT_DEFINITION
| ERRCODE_AMBIGUOUS_FUNCTION
| ERRCODE_UNDEFINED_FUNCTION
| ERRCODE_UNDEFINED_OBJECT
| ERRCODE_SYNTAX_ERROR
| ERRCODE_INSUFFICIENT_PRIVILEGE
| ERRCODE_INTERNAL_ERROR
| ERRCODE_OTHER (sqlstate : string).

Inductive AclResult := ACLCHECK_OK | ACLCHECK_NO_PRIV | ACLCHECK_NOT_OWNER.
Inductive AclMode := ACL_CREATE | ACL_USAGE | ACL_EXECUTE.
Inductive ObjectType := OBJECT_SCHEMA | OBJECT_FUNCTION | OBJECT_OPERATOR.

Definition TID := nat.

(** One constructor for each place of the file that raises, then the errors
    that the collaborators raise on behalf of the file. *)
Inductive Error :=
| SetofNotAllowed
| FunctionMustBeSpecified
| ArgumentTypesMustBeSpecified
| RightArgumentTypeMustBeSpecified
| RestrictionEstimatorMustReturn (fn : list string)
| JoinEstimatorMultipleMatches (fn : list string)
| JoinEstimatorMustReturn (fn : list string)
| AttributeCannotBeChanged (name : string)
| AttributeNotRecognized (name : string)
| OnlyBinaryJoinSelectivity
| OnlyBooleanRestrictionSelectivity
| OnlyBooleanJoinSelectivity
| CacheLookupFailed (operOid : Oid)
| AclcheckError (aclerr : AclResult) (objtype : ObjectType) (objectname : string)
| AclcheckErrorType (aclerr : AclResult) (typeOid : Oid)
| FunctionDoesNotExist (funcname : list string) (nargs : nat) (argtypes : list Oid)
| TupleAlreadyUpdated (otid : TID)
| CollaboratorError (code : ErrCode) (msg : string).

Definition sqlerrcode (e : Error) : ErrCode :=
  match e with
  | SetofNotAllowed => ERRCODE_INVALID_FUNCTION_DEFINITION
  | FunctionMustBeSpecified => ERRCODE_INVALID_FUNCTION_DEFINITION
  | ArgumentTypesMustBeSpecified => ERRCODE_INVALID_FUNCTION_DEFINITION
  | RightArgumentTypeMustBeSpecified => ERRCODE_INVALID_FUNCTION_DEFINITION
  | RestrictionEstimatorMustReturn _ => ERRCODE_INVALID_OBJECT_DEFINITION
  | JoinEstimatorMultipleMatches _ => ERRCODE_AMBIGUOUS_FUNCTION
  | JoinEstimatorMustReturn _ => ERRCODE_INVALID_OBJECT_DEFINITION
  | AttributeCannotBeChanged _ => ERRCODE_SYNTAX_ERROR
  | AttributeNotRecognized _ => ERRCODE_SYNTAX_ERROR
  | OnlyBinaryJoinSelectivity => ERRCODE_INVALID_FUNCTION_DEFINITION
  | OnlyBooleanRestrictionSelectivity => ERRCODE_INVALID_FUNCTION_DEFINITION
  | OnlyBooleanJoinSelectivity => ERRCODE_INVALID_FUNCTION_DEFINITION
  | CacheLookupFailed _ => ERRCODE_INTERNAL_ERROR
  | AclcheckError _ _ _ => ERRCODE_INSUFFICIENT_PRIVILEGE
  | AclcheckErrorType _ _ => ERRCODE_INSUFFICIENT_PRIVILEGE
  | FunctionDoesNotExist _ _ _ => ERRCODE_UNDEFINED_FUNCTION
  | TupleAlreadyUpdated _ => ERRCODE_INTERNAL_ERROR
  | CollaboratorError code _ => code
  end.

(** [NameListToString]: the parts of a qualified name joined by dots. *)
Fixpoint NameListToString (l : list string) : string :=
  match l with
  | [] => EmptyString
  | [s] => s
  | s :: rest => s ++ "." ++ NameListToString rest
  end.

Definition dquote : string := String (ascii_of_nat 34) EmptyString.
Definition quoted (s : string) : string := dquote ++ s ++ dquote.

(** An OID as [%u] prints it. *)
Definition oid_to_string (o : Oid) : string := NilZero.string_of_uint (N.to_uint (Z.to_N o)).

(** The text given to [errmsg] (for [CacheLookupFailed], to [elog]). *)
Definition errmsg (e : Error) : string :=
  match e with
  | SetofNotAllowed => "SETOF type not allowed for operator argument"
  | FunctionMustBeSpecified => "operator function must be specified"
  | ArgumentTypesMustBeSpecified => "operator argument types must be specified"
  | RightArgumentTypeMustBeSpecified => "operator right argument type must be specified"
  | RestrictionEstimatorMustReturn fn =>
      "restriction estimator function " ++ NameListToString fn ++ " must return type float8"
  | JoinEstimatorMultipleMatches fn =>
      "join estimator function " ++ NameListToString fn ++ " has multiple matches"
  | JoinEstimatorMustReturn fn =>
      "join estimator function " ++ NameListToString fn ++ " must return type float8"
  | AttributeCannotBeChanged name => "operator attribute " ++ quoted name ++ " cannot be changed"
  | AttributeNotRecognized name => "operator attribute " ++ quoted name ++ " not recognized"
  | OnlyBinaryJoinSelectivity => "only binary operators can have join selectivity"
  | OnlyBooleanRestrictionSelectivity => "only boolean operators can have restriction selectivity"
  | OnlyBooleanJoinSelectivity => "only boolean operators can have join selectivity"
  | CacheLookupFailed oid => "cache lookup failed for operator " ++ oid_to_string oid
  | AclcheckError _ _ _ => "permission denied"
  | AclcheckErrorType _ _ => "permission denied for type"
  | FunctionDoesNotExist _ _ _ => "function does not exist"
  | TupleAlreadyUpdated _ => "tuple already updated by self"
  | CollaboratorError _ msg => msg
  end.

Definition errdetail (e : Error) : option string :=
  match e with
  | RightArgumentTypeMustBeSpecified => Some "Postfix operators are not supported."
  | _ => None
  end.

Local Close Scope string_scope.

(** ** The pg_operator heap *)

(** A [Datum] is a machine word or a pointer to a name. *)
Inductive Datum :=
| DatumWord (z : Z)
| DatumName (s : string).

Definition ObjectIdGetDatum (o : Oid) : Datum := DatumWord o.
Definition DatumGetObjectId (d : Datum) : Oid :=
  match d with DatumWord z => z | DatumName _ => InvalidOid end.
Definition DatumGetName (d : Datum) : string :=
  match d with DatumWord _ => EmptyString | DatumName s => s end.

(** Attribute numbers of catalog/pg_operator_d.h. *)
Definition Anum_pg_operator_oid : nat := 1.
Definition Anum_pg_operator_oprname : nat := 2.
Definition Anum_pg_operator_oprnamespace : nat := 3.
Definition Anum_pg_operator_oprowner : nat := 4.
Definition Anum_pg_operator_oprkind : nat := 5.
Definition Anum_pg_operator_oprcanmerge : nat := 6.
Definition Anum_pg_operator_oprcanhash : nat := 7.
Definition Anum_pg_operator_oprleft : nat := 8.
Definition Anum_pg_operator_oprright : nat := 9.
Definition Anum_pg_operator_oprresult : nat := 10.
Definition Anum_pg_operator_oprcom : nat := 11.
Definition Anum_pg_operator_oprnegate : nat := 12.
Definition Anum_pg_operator_oprcode : nat := 13.
Definition Anum_pg_operator_oprrest : nat := 14.
Definition Anum_pg_operator_oprjoin : nat := 15.
Definition Natts_pg_operator : nat := 15.

(** A row version: where it lives ([t_self]) and its column values. *)
Record HeapTuple := mkHeapTuple { t_self : TID; t_data : list Datum }.

(** [GETSTRUCT(tup)->field]. *)
Definition heap_getattr (tup : HeapTuple) (attnum : nat) : Datum :=
  default (DatumWord 0) (t_data tup !! (attnum - 1)).

Definition oprid (tup : HeapTuple) : Oid := DatumGetObjectId (heap_getattr tup Anum_pg_operator_oid).
Definition oprname (tup : HeapTuple) : string := DatumGetName (heap_getattr tup Anum_pg_operator_oprname).
Definition oprleft (tup : HeapTuple) : Oid := DatumGetObjectId (heap_getattr tup Anum_pg_operator_oprleft).
Definition oprright (tup : HeapTuple) : Oid := DatumGetObjectId (heap_getattr tup Anum_pg_operator_oprright).
Definition oprresult (tup : HeapTuple) : Oid := DatumGetObjectId (heap_getattr tup Anum_pg_operator_oprresult).
Definition oprcom (tup : HeapTuple) : Oid := DatumGetObjectId (heap_getattr tup Anum_pg_operator_oprcom).
Definition oprnegate (tup : HeapTuple) : Oid := DatumGetObjectId (heap_getattr tup Anum_pg_operator_oprnegate).
Definition oprrest (tup : HeapTuple) : Oid := DatumGetObjectId (heap_getattr tup Anum_pg_operator_oprrest).
Definition oprjoin (tup : HeapTuple) : Oid := DatumGetObjectId (heap_getattr tup Anum_pg_operator_oprjoin).

(** The live row versions of pg_operator and the next free slot. *)
Record Catalog := mkCatalog { pg_operator : list HeapTuple; next_tid : TID }.

(** What [OperatorCreate] is handed by [DefineOperator]. *)
Record OperatorCreateArgs := mkOperatorCreateArgs {
  oc_operatorName : string;
  oc_operatorNamespace : Oid;
  oc_leftTypeId : Oid;
  oc_rightTypeId : Oid;
  oc_procedureId : Oid;
  oc_commutatorName : list string;
  oc_negatorName : list string;
  oc_restrictionId : Oid;
  oc_joinId : Oid;
  oc_canMerge : bool;
  oc_canHash : bool
}.

(** ** The log of a run *)

Inductive Event :=
| EvWarning (e : Error)
| EvLookupFuncName (funcname : list string) (nargs : nat) (argtypes : list Oid) (missing_ok : bool)
| EvOperatorCreate (a : OperatorCreateArgs)
| EvSearchSysCache (operOid : Oid)
| EvOperatorUpd (baseId commId negId : Oid) (isDelete : bool)
| EvCatalogTupleDelete (otid : TID)
| EvCatalogTupleUpdate (otid : TID) (data : list Datum)
| EvMakeOperatorDependencies (data : list Datum) (isUpdate : bool)
| EvInvokeObjectPostAlterHook (classId objectId : Oid).

(** ** The monad: catalog state, errors, and the log of the run *)

Inductive Res (A : Type) :=
| OK (a : A)
| ERROR (e : Error).
Arguments OK {A} a.
Arguments ERROR {A} e.

(** A computation takes the catalog and gives its outcome, the catalog it
    leaves and the events it logged, in order.  After an error the catalog
    is the one at the time of the error: undoing it is the business of the
    transaction around the command. *)
Definition M (A : Type) : Type := Catalog -> Res A * Catalog * list Event.

Definition outcome {A} (x : Res A * Catalog * list Event) : Res A := fst (fst x).
Definition final_catalog {A} (x : Res A * Catalog * list Event) : Catalog := snd (fst x).
Definition events {A} (x : Res A * Catalog * list Event) : list Event := snd x.

Definition ret {A} (a : A) : M A := fun c => (OK a, c, []).

Definition bind {A B} (m : M A) (k : A -> M B) : M B :=
  fun c => match m c with
           | (OK a, c', evs) =>
               match k a c' with
               | (r, c'', evs') => (r, c'', evs ++ evs')
               end
           | (ERROR e, c', evs) => (ERROR e, c', evs)
           end.

(** [ereport(ERROR, ...)] and [elog(ERROR, ...)]: control does not come back. *)
Definition ereport_ERROR {A} (e : Error) : M A := fun c => (ERROR e, c, []).

Definition emit (ev : Event) : M unit := fun c => (OK tt, c, [ev]).

(** [ereport(WARNING, ...)]: the message is printed and control comes back. *)
Definition ereport_WARNING (e : Error) : M unit := emit (EvWarning e).

(** The outcome of a collaborator that may raise. *)
Definition lift {A} (r : Res A) : M A := fun c => (r, c, []).

(** A collaborator that reads and writes the catalog and may raise. *)
Definition call {A} (f : Catalog -> Res A * Catalog) : M A := fun c => (fst (f c), snd (f c), []).

Definition get_catalog : M Catalog := fun c => (OK c, c, []).
Definition put_catalog (c' : Catalog) : M unit := fun _ => (OK tt, c', []).

Declare Scope monad_scope.
Delimit Scope monad_scope with monad.
Notation "x <- m ;; k" := (bind m (fun x => k))
  (at level 100, m at next level, right associativity) : monad_scope.
Notation "m ;;; k" := (bind m (fun _ => k))
  (at level 100, right associativity) : monad_scope.
Local Open Scope monad_scope.

(** [foreach(pl, l) { st = body(lfirst(pl), st) }] *)
Fixpoint foreach {A S} (body : A -> S -> M S) (l : list A) (st : S) : M S :=
  match l with
  | [] => ret st
  | x :: rest => st' <- body x st ;; foreach body rest st'
  end.

(** ** The collaborators *)

Record Env := mkEnv {
  (* catalog/namespace.c *)
  QualifiedNameGetCreationNamespace : list string -> Res (Oid * string);
  get_namespace_name : Oid -> string;
  (* catalog/aclchk.c, with GetUserId() for the role *)
  pg_namespace_aclcheck : Oid -> AclMode -> AclResult;
  pg_type_aclcheck : Oid -> AclMode -> AclResult;
  pg_proc_aclcheck : Oid -> AclMode -> AclResult;
  pg_oper_ownercheck : Oid -> bool;
  (* commands/define.c *)
  defGetTypeName : DefElem -> Res TypeName;
  defGetQualifiedName : DefElem -> Res (list string);
  defGetBoolean : DefElem -> Res bool;
  (* parser/parse_type.c *)
  typenameTypeId : TypeName -> Res Oid;
  (* pg_proc by name and exact argument types, InvalidOid when there is none *)
  func_by_signature : list string -> list Oid -> Oid;
  (* utils/cache/lsyscache.c *)
  get_func_rettype : Oid -> Oid;
  (* parser/parse_oper.c, called with missing_ok = false *)
  LookupOperWithArgs : ObjectWithArgs -> Res Oid;
  (* catalog/pg_operator.c: both read and write the pg_operator heap *)
  OperatorCreate : OperatorCreateArgs -> Catalog -> Res ObjectAddress * Catalog;
  OperatorUpd : Oid -> Oid -> Oid -> bool -> Catalog -> Catalog;
  makeOperatorDependencies : list Datum -> bool -> ObjectAddress
}.

(** [l == NIL] *)
Definition is_NIL {A} (l : list A) : bool :=
  match l with [] => true | _ :: _ => false end.

Section OperatorCommands.

Context (env : Env).

(** [aclcheck_error] is reached only with a result that is not
    [ACLCHECK_OK]; the test around the call is folded in. *)
Definition aclcheck_error (aclresult : AclResult) (objtype : ObjectType) (objectname : string) : M unit :=
  match aclresult with
  | ACLCHECK_OK => ret tt
  | _ => ereport_ERROR (AclcheckError aclresult objtype objectname)
  end.

Definition aclcheck_error_type (aclresult : AclResult) (typeOid : Oid) : M unit :=
  match aclresult with
  | ACLCHECK_OK => ret tt
  | _ => ereport_ERROR (AclcheckErrorType aclresult typeOid)
  end.

(** Modelled from the spec: [resolve_function(qualified_name, arg_types,
    arity, must_exist) -> function_id | absent] (parser/parse_func.c is not
    part of the sources).  Only the first [nargs] entries of the array
    count; without a match the call gives [InvalidOid] when [missing_ok],
    and raises otherwise, naming the signature it was asked for. *)
Definition LookupFuncName (funcname : list string) (nargs : nat) (argtypes : list Oid)
    (missing_ok : bool) : M Oid :=
  emit (EvLookupFuncName funcname nargs argtypes missing_ok) ;;;
  let oid := func_by_signature env funcname (firstn nargs argtypes) in
  if OidIsValid oid then ret oid
  else if missing_ok then ret InvalidOid
  else ereport_ERROR (FunctionDoesNotExist funcname nargs (firstn nargs argtypes)).

(** ** ValidateRestrictionEstimator (lines 272-300) *)

Definition ValidateRestrictionEstimator (restrictionName : list string) : M Oid :=
  let typeId := [INTERNALOID; OIDOID; INTERNALOID; INT4OID] in
  restrictionOid <- LookupFuncName restrictionName 4 typeId false ;;
  (if negb (get_func_rettype env restrictionOid =? FLOAT8OID)%Z
   then ereport_ERROR (RestrictionEstimatorMustReturn restrictionName)
   else ret tt) ;;;
  aclcheck_error (pg_proc_aclcheck env restrictionOid ACL_EXECUTE) OBJECT_FUNCTION
                 (NameListToString restrictionName) ;;;
  ret restrictionOid.

(** ** ValidateJoinEstimator (lines 307-358) *)

Definition ValidateJoinEstimator (joinName : list string) : M Oid :=
  let typeId := [INTERNALOID; OIDOID; INTERNALOID; INT2OID; INTERNALOID] in
  joinOid <- LookupFuncName joinName 5 typeId true ;;
  joinOid2 <- LookupFuncName joinName 4 typeId true ;;
  joinOid <- (if OidIsValid joinOid
              then (if OidIsValid joinOid2
                    then ereport_ERROR (JoinEstimatorMultipleMatches joinName)
                    else ret joinOid)
              else (let joinOid := joinOid2 in
                    if negb (OidIsValid joinOid)
                    then LookupFuncName joinName 5 typeId false
                    else ret joinOid)) ;;
  (if negb (get_func_rettype env joinOid =? FLOAT8OID)%Z
   then ereport_ERROR (JoinEstimatorMustReturn joinName)
   else ret tt) ;;;
  aclcheck_error (pg_proc_aclcheck env joinOid ACL_EXECUTE) OBJECT_FUNCTION
                 (NameListToString joinName) ;;;
  ret joinOid.

(** "Look up restriction and join estimators if specified" (lines 241-248
    of [DefineOperator], lines 491-498 of [AlterOperator]). *)
Definition lookup_restriction_estimator (restrictionName : list string) : M Oid :=
  if negb (is_NIL restrictionName)
  then ValidateRestrictionEstimator restrictionName
  else ret InvalidOid.

Definition lookup_join_estimator (joinName : list string) : M Oid :=
  if negb (is_NIL joinName)
  then ValidateJoinEstimator joinName
  else ret InvalidOid.

(** ** DefineOperator (lines 64-265) *)

(** The local variables that the loop over the definition list assigns. *)
Record DefineOperator_locals := mkDefineLocals {
  canMerge : bool;
  canHash : bool;
  functionName : list string;
  typeName1 : option TypeName;
  typeName2 : option TypeName;
  commutatorName : list string;
  negatorName : list string;
  restrictionName : list string;
  joinName : list string
}.

(** Their initial values (lines 70-81). *)
Definition DefineOperator_init : DefineOperator_locals :=
  mkDefineLocals false false [] None None [] [] [] [].

Definition set_canMerge (v : bool) (st : DefineOperator_locals) :=
  mkDefineLocals v (canHash st) (functionName st) (typeName1 st) (typeName2 st)
    (commutatorName st) (negatorName st) (restrictionName st) (joinName st).
Definition set_canHash (v : bool) (st : DefineOperator_locals) :=
  mkDefineLocals (canMerge st) v (functionName st) (typeName1 st) (typeName2 st)
    (commutatorName st) (negatorName st) (restrictionName st) (joinName st).
Definition set_functionName (v : list string) (st : DefineOperator_locals) :=
  mkDefineLocals (canMerge st) (canHash st) v (typeName1 st) (typeName2 st)
    (commutatorName st) (negatorName st) (restrictionName st) (joinName st).
Definition set_typeName1 (v : option TypeName) (st : DefineOperator_locals) :=
  mkDefineLocals (canMerge st) (canHash st) (functionName st) v (typeName2 st)
    (commutatorName st) (negatorName st) (restrictionName st) (joinName st).
Definition set_typeName2 (v : option TypeName) (st : DefineOperator_locals) :=
  mkDefineLocals (canMerge st) (canHash st) (functionName st) (typeName1 st) v
    (commutatorName st) (negatorName st) (restrictionName st) (joinName st).
Definition set_commutatorName (v : list string) (st : DefineOperator_locals) :=
  mkDefineLocals (canMerge st) (canHash st) (functionName st) (typeName1 st) (typeName2 st)
    v (negatorName st) (restrictionName st) (joinName st).
Definition set_negatorName (v : list string) (st : DefineOperator_locals) :=
  mkDefineLocals (canMerge st) (canHash st) (functionName st) (typeName1 st) (typeName2 st)
    (commutatorName st) v (restrictionName st) (joinName st).
Definition set_restrictionName (v : list string) (st : DefineOperator_locals) :=
  mkDefineLocals (canMerge st) (canHash st) (functionName st) (typeName1 st) (typeName2 st)
    (commutatorName st) (negatorName st) v (joinName st).
Definition set_joinName (v : list string) (st : DefineOperator_locals) :=
  mkDefineLocals (canMerge st) (canHash st) (functionName st) (typeName1 st) (typeName2 st)
    (commutatorName st) (negatorName st) (restrictionName st) v.

(** The body of the loop over the definition list (lines 103-154): one
    [DefElem] against the locals. *)
Definition DefineOperator_defel (defel : DefElem) (st : DefineOperator_locals)
    : M DefineOperator_locals :=
  if (defname defel =? "leftarg")%string then
    tn <- lift (defGetTypeName env defel) ;;
    if setof tn then ereport_ERROR SetofNotAllowed
    else ret (set_typeName1 (Some tn) st)
  else if (defname defel =? "rightarg")%string then
    tn <- lift (defGetTypeName env defel) ;;
    if setof tn then ereport_ERROR SetofNotAllowed
    else ret (set_typeName2 (Some tn) st)
  else if (defname defel =? "function")%string then
    v <- lift (defGetQualifiedName env defel) ;; ret (set_functionName v st)
  else if (defname defel =? "procedure")%string then
    v <- lift (defGetQualifiedName env defel) ;; ret (set_functionName v st)
  else if (defname defel =? "commutator")%string then
    v <- lift (defGetQualifiedName env defel) ;; ret (set_commutatorName v st)
  else if (defname defel =? "negator")%string then
    v <- lift (defGetQualifiedName env defel) ;; ret (set_negatorName v st)
  else if (defname defel =? "restrict")%string then
    v <- lift (defGetQualifiedName env defel) ;; ret (set_restrictionName v st)
  else if (defname defel =? "join")%string then
    v <- lift (defGetQualifiedName env defel) ;; ret (set_joinName v st)
  else if (defname defel =? "hashes")%string then
    v <- lift (defGetBoolean env defel) ;; ret (set_canHash v st)
  else if (defname defel =? "merges")%string then
    v <- lift (defGetBoolean env defel) ;; ret (set_canMerge v st)
  else if (defname defel =? "sort1")%string then ret (set_canMerge true st)
  else if (defname defel =? "sort2")%string then ret (set_canMerge true st)
  else if (defname defel =? "ltcmp")%string then ret (set_canMerge true st)
  else if (defname defel =? "gtcmp")%string then ret (set_canMerge true st)
  else
    ereport_WARNING (AttributeNotRecognized (defname defel)) ;;; ret st.

(** What the first part of [DefineOperator] hands to the second. *)
Record DefineOperator_resolved := mkResolved {
  oprName : string;
  oprNamespace : Oid;
  locals : DefineOperator_locals;
  typeId1 : Oid;
  typeId2 : Oid
}.

(** Lines 166-169: a type name that was given is resolved, one that was
    not leaves [InvalidOid]. *)
Definition DefineOperator_typeId (typeName : option TypeName) : Res Oid :=
  match typeName with
  | Some tn => typenameTypeId env tn
  | None => OK InvalidOid
  end.

(** The checks on the operand types (lines 178-186). *)
Definition DefineOperator_check_types (typeId1 typeId2 : Oid) : M unit :=
  (if negb (OidIsValid typeId1) && negb (OidIsValid typeId2)
   then ereport_ERROR ArgumentTypesMustBeSpecified
   else ret tt) ;;;
  (if negb (OidIsValid typeId2)
   then ereport_ERROR RightArgumentTypeMustBeSpecified
   else ret tt).

(** Lines 89-200: the namespace and its permission, the loop, the required
    function name, the operand types, their checks and permissions. *)
Definition DefineOperator_resolve (names : list string) (parameters : list DefElem)
    : M DefineOperator_resolved :=
  nsp <- lift (QualifiedNameGetCreationNamespace env names) ;;
  let oprNamespace := fst nsp in
  let oprName := snd nsp in
  aclcheck_error (pg_namespace_aclcheck env oprNamespace ACL_CREATE) OBJECT_SCHEMA
                 (get_namespace_name env oprNamespace) ;;;
  st <- foreach DefineOperator_defel parameters DefineOperator_init ;;
  (if is_NIL (functionName st) then ereport_ERROR FunctionMustBeSpecified else ret tt) ;;;
  typeId1 <- lift (DefineOperator_typeId (typeName1 st)) ;;
  typeId2 <- lift (DefineOperator_typeId (typeName2 st)) ;;
  DefineOperator_check_types typeId1 typeId2 ;;;
  match typeName1 st with
  | Some _ => aclcheck_error_type (pg_type_aclcheck env typeId1 ACL_USAGE) typeId1
  | None => ret tt
  end ;;;
  match typeName2 st with
  | Some _ => aclcheck_error_type (pg_type_aclcheck env typeId2 ACL_USAGE) typeId2
  | None => ret tt
  end ;;;
  ret (mkResolved oprName oprNamespace st typeId1 typeId2).

(** Lines 205-220: the arity and the argument array of the function lookup. *)
Definition DefineOperator_function_args (typeId1 typeId2 : Oid) : nat * list Oid :=
  if negb (OidIsValid typeId1) then (1, [typeId2])
  else if negb (OidIsValid typeId2) then (1, [typeId1])
  else (2, [typeId1; typeId2]).

(** Lines 202-264: the function, the estimators, and [OperatorCreate]. *)
Definition DefineOperator_create (r : DefineOperator_resolved) : M ObjectAddress :=
  let st := locals r in
  let nargs := fst (DefineOperator_function_args (typeId1 r) (typeId2 r)) in
  let typeId := snd (DefineOperator_function_args (typeId1 r) (typeId2 r)) in
  functionOid <- LookupFuncName (functionName st) nargs typeId false ;;
  aclcheck_error (pg_proc_aclcheck env functionOid ACL_EXECUTE) OBJECT_FUNCTION
                 (NameListToString (functionName st)) ;;;
  let rettype := get_func_rettype env functionOid in
  aclcheck_error_type (pg_type_aclcheck env rettype ACL_USAGE) rettype ;;;
  restrictionOid <- lookup_restriction_estimator (restrictionName st) ;;
  joinOid <- lookup_join_estimator (joinName st) ;;
  let a := mkOperatorCreateArgs (oprName r) (oprNamespace r) (typeId1 r) (typeId2 r)
             functionOid (commutatorName st) (negatorName st)
             restrictionOid joinOid (canMerge st) (canHash st) in
  emit (EvOperatorCreate a) ;;;
  call (OperatorCreate env a).

Definition DefineOperator (names : list string) (parameters : list DefElem) : M ObjectAddress :=
  r <- DefineOperator_resolve names parameters ;;
  DefineOperator_create r.

(** ** Catalog access *)

(** Modelled from the spec: [storage.fetch_operator(operator_id) ->
    Operator | absent] (utils/cache/syscache.c is not part of the sources):
    the live row version whose [oid] column is [operOid], if there is one. *)
Definition fetch_operator (c : Catalog) (operOid : Oid) : option HeapTuple :=
  List.find (fun tup => (oprid tup =? operOid)%Z) (pg_operator c).

Definition SearchSysCache1 (operOid : Oid) : M (option HeapTuple) :=
  emit (EvSearchSysCache operOid) ;;;
  c <- get_catalog ;;
  ret (fetch_operator c operOid).

(** The same lookup, handing back a copy that the caller may modify. *)
Definition SearchSysCacheCopy1 (operOid : Oid) : M (option HeapTuple) :=
  SearchSysCache1 operOid.

Definition tid_live (c : Catalog) (otid : TID) : bool :=
  existsb (fun tup => Nat.eqb (t_self tup) otid) (pg_operator c).

(** The catalog after the row version at [otid] is removed. *)
Definition catalog_delete (c : Catalog) (otid : TID) : Catalog :=
  mkCatalog (List.filter (fun tup => negb (Nat.eqb (t_self tup) otid)) (pg_operator c))
            (next_tid c).

(** Modelled from the spec: [storage.delete_operator] (catalog/indexing.c is
    not part of the sources).  The row version at [otid] is removed; a
    version that is no longer live (a stale snapshot of a row that was
    updated since) cannot be deleted. *)
Definition CatalogTupleDelete (otid : TID) : M unit :=
  emit (EvCatalogTupleDelete otid) ;;;
  c <- get_catalog ;;
  if tid_live c otid
  then put_catalog (catalog_delete c otid)
  else ereport_ERROR (TupleAlreadyUpdated otid).

(** The catalog after the row version at [otid] is replaced by a new version
    holding [data]. *)
Definition catalog_update (c : Catalog) (otid : TID) (data : list Datum) : Catalog :=
  mkCatalog (map (fun tup => if Nat.eqb (t_self tup) otid
                             then mkHeapTuple (next_tid c) data else tup) (pg_operator c))
            (S (next_tid c)).

(** Modelled from the spec: [storage.update_operator] (catalog/indexing.c is
    not part of the sources).  The row version at [otid] is replaced by a
    new version, at a new place, holding [data]. *)
Definition CatalogTupleUpdate (otid : TID) (data : list Datum) : M unit :=
  emit (EvCatalogTupleUpdate otid data) ;;;
  c <- get_catalog ;;
  if tid_live c otid
  then put_catalog (catalog_update c otid data)
  else ereport_ERROR (TupleAlreadyUpdated otid).

(** Modelled from the spec: the partial update of [storage.update_operator]
    (access/common/heaptuple.c is not part of the sources).  Column [i] of
    the result is [values[i]] where [replaces[i]] is set and the old value
    elsewhere; pg_operator has no nullable column, and a null written to one
    reads back as the zero word.  The copy keeps [t_self]. *)
Definition heap_modify_tuple (tup : HeapTuple) (values : list Datum) (nulls replaces : list bool)
    : HeapTuple :=
  mkHeapTuple (t_self tup)
    (imap (fun i old =>
             if default false (replaces !! i)
             then (if default false (nulls !! i) then DatumWord 0
                   else default (DatumWord 0) (values !! i))
             else old)
          (t_data tup)).

(** ** RemoveOperatorById (lines 363-400) *)

Definition RemoveOperatorById (operOid : Oid) : M unit :=
  found <- SearchSysCache1 operOid ;;
  match found with
  | None => ereport_ERROR (CacheLookupFailed operOid)
  | Some tup =>
      let op := tup in
      tup <- (if OidIsValid (oprcom op) || OidIsValid (oprnegate op)
              then
                emit (EvOperatorUpd operOid (oprcom op) (oprnegate op) true) ;;;
                c <- get_catalog ;;
                put_catalog (OperatorUpd env operOid (oprcom op) (oprnegate op) true c) ;;;
                if (operOid =? oprcom op)%Z || (operOid =? oprnegate op)%Z
                then
                  found <- SearchSysCache1 operOid ;;
                  match found with
                  | None => ereport_ERROR (CacheLookupFailed operOid)
                  | Some tup => ret tup
                  end
                else ret tup
              else ret tup) ;;
      CatalogTupleDelete (t_self tup)
  end.

(** ** AlterOperator (lines 408-552) *)

Record AlterOperator_locals := mkAlterLocals {
  alt_restrictionName : list string;
  alt_updateRestriction : bool;
  alt_joinName : list string;
  alt_updateJoin : bool
}.

(** Their initial values (lines 421-425). *)
Definition AlterOperator_init : AlterOperator_locals := mkAlterLocals [] false [] false.

(** The alternatives of lines 462-469. *)
Definition is_creation_only_attribute (name : string) : bool :=
  (name =? "leftarg")%string || (name =? "rightarg")%string ||
  (name =? "function")%string || (name =? "procedure")%string ||
  (name =? "commutator")%string || (name =? "negator")%string ||
  (name =? "hashes")%string || (name =? "merges")%string.

(** The body of the loop over the options (lines 439-480). *)
Definition AlterOperator_defel (defel : DefElem) (st : AlterOperator_locals)
    : M AlterOperator_locals :=
  param <- match arg defel with
           | None => ret []
           | Some _ => lift (defGetQualifiedName env defel)
           end ;;
  if (defname defel =? "restrict")%string then
    ret (mkAlterLocals param true (alt_joinName st) (alt_updateJoin st))
  else if (defname defel =? "join")%string then
    ret (mkAlterLocals (alt_restrictionName st) (alt_updateRestriction st) param true)
  else if is_creation_only_attribute (defname defel) then
    ereport_ERROR (AttributeCannotBeChanged (defname defel))
  else
    ereport_ERROR (AttributeNotRecognized (defname defel)).

(** The checks against the stored row (lines 500-520). *)
Definition AlterOperator_checks (oprForm : HeapTuple) (restrictionOid joinOid : Oid) : M unit :=
  (if negb (OidIsValid (oprleft oprForm) && OidIsValid (oprright oprForm))
   then (if OidIsValid joinOid then ereport_ERROR OnlyBinaryJoinSelectivity else ret tt)
   else ret tt) ;;;
  (if negb (oprresult oprForm =? BOOLOID)%Z
   then
     (if OidIsValid restrictionOid
      then ereport_ERROR OnlyBooleanRestrictionSelectivity else ret tt) ;;;
     (if OidIsValid joinOid then ereport_ERROR OnlyBooleanJoinSelectivity else ret tt)
   else ret tt).

(** The three arrays handed to [heap_modify_tuple] (lines 523-538). *)
Definition AlterOperator_arrays (st : AlterOperator_locals) (restrictionOid joinOid : Oid)
    : list Datum * list bool * list bool :=
  let values := replicate Natts_pg_operator (DatumWord 0) in
  let replaces := replicate Natts_pg_operator false in
  let nulls := replicate Natts_pg_operator false in
  let replaces := if alt_updateRestriction st
                  then <[Anum_pg_operator_oprrest - 1 := true]> replaces else replaces in
  let values := if alt_updateRestriction st
                then <[Anum_pg_operator_oprrest - 1 := ObjectIdGetDatum restrictionOid]> values
                else values in
  let replaces := if alt_updateJoin st
                  then <[Anum_pg_operator_oprjoin - 1 := true]> replaces else replaces in
  let values := if alt_updateJoin st
                then <[Anum_pg_operator_oprjoin - 1 := ObjectIdGetDatum joinOid]> values
                else values in
  (values, nulls, replaces).

Definition AlterOperator (stmt : AlterOperatorStmt) : M ObjectAddress :=
  oprId <- lift (LookupOperWithArgs env (opername stmt)) ;;
  found <- SearchSysCacheCopy1 oprId ;;
  match found with
  | None => ereport_ERROR (CacheLookupFailed oprId)
  | Some tup =>
      let oprForm := tup in
      st <- foreach AlterOperator_defel (options stmt) AlterOperator_init ;;
      (if negb (pg_oper_ownercheck env oprId)
       then aclcheck_error ACLCHECK_NOT_OWNER OBJECT_OPERATOR (oprname oprForm)
       else ret tt) ;;;
      restrictionOid <- lookup_restriction_estimator (alt_restrictionName st) ;;
      joinOid <- lookup_join_estimator (alt_joinName st) ;;
      AlterOperator_checks oprForm restrictionOid joinOid ;;;
      let arrays := AlterOperator_arrays st restrictionOid joinOid in
      let tup := heap_modify_tuple tup (fst (fst arrays)) (snd (fst arrays)) (snd arrays) in
      CatalogTupleUpdate (t_self tup) (t_data tup) ;;;
      emit (EvMakeOperatorDependencies (t_data tup) true) ;;;
      let address := makeOperatorDependencies env (t_data tup) true in
      emit (EvInvokeObjectPostAlterHook OperatorRelationId oprId) ;;;
      ret address
  end.

End OperatorCommands.

(** ** The collaborator that keeps commutator and negator links *)

(** Modelled from the spec: [storage.clear_reciprocal_link(operator_id,
    link_kind)] (catalog/pg_operator.c is not part of the sources).  When an
    operator is dropped ([isDelete]) the commutator's link back to [baseId]
    and the negator's link back to [baseId] are cleared, each only where it
    does point back; when an operator is created the free link of each
    partner is set to [baseId].  Every change writes a new row version. *)
Definition OperatorUpd_link (attnum : nat) (baseId partnerId : Oid) (isDelete : bool)
    (c : Catalog) : Catalog :=
  if OidIsValid partnerId then
    match fetch_operator c partnerId with
    | Some tup =>
        let link := DatumGetObjectId (heap_getattr tup attnum) in
        if isDelete && (link =? baseId)%Z
        then catalog_update c (t_self tup)
               (<[attnum - 1 := ObjectIdGetDatum InvalidOid]> (t_data tup))
        else if negb isDelete && negb (OidIsValid link)
        then catalog_update c (t_self tup)
               (<[attnum - 1 := ObjectIdGetDatum baseId]> (t_data tup))
        else c
    | None => c
    end
  else c.

(** Modelled from the spec: [storage.clear_reciprocal_link], first for the
    commutator, then for the negator. *)
Definition OperatorUpd_model (baseId commId negId : Oid) (isDelete : bool) (c : Catalog) : Catalog :=
  OperatorUpd_link Anum_pg_operator_oprnegate baseId negId isDelete
    (OperatorUpd_link Anum_pg_operator_oprcom baseId commId isDelete c).

(** ** A small installation to run the commands on *)

Module Demo.

Local Open Scope string_scope.
Local Open Scope list_scope.
Local Open Scope Z_scope.

Definition TEXTOID : Oid := 25%Z.

Definition types : list (string * Oid) :=
  [("bool", BOOLOID); ("int4", INT4OID); ("text", TEXTOID); ("float8", FLOAT8OID)].

(** pg_proc: name, argument types, oid, result type. *)
Definition procs : list (string * list Oid * Oid * Oid) :=
  [ ("booleq", [BOOLOID; BOOLOID], 60%Z, BOOLOID);
    ("int4pl", [INT4OID; INT4OID], 177%Z, INT4OID);
    ("int4um", [INT4OID], 212%Z, INT4OID);
    ("eqsel", [INTERNALOID; OIDOID; INTERNALOID; INT4OID], 101%Z, FLOAT8OID);
    ("eqjoinsel", [INTERNALOID; OIDOID; INTERNALOID; INT2OID; INTERNALOID], 105%Z, FLOAT8OID);
    ("oldjoinsel", [INTERNALOID; OIDOID; INTERNALOID; INT2OID], 104%Z, FLOAT8OID);
    ("twojoinsel", [INTERNALOID; OIDOID; INTERNALOID; INT2OID], 114%Z, FLOAT8OID);
    ("twojoinsel", [INTERNALOID; OIDOID; INTERNALOID; INT2OID; INTERNALOID], 115%Z, FLOAT8OID);
    ("intjoinsel", [INTERNALOID; OIDOID; INTERNALOID; INT2OID], 124%Z, INT4OID) ].

Definition last_name (l : list string) : string := List.last l EmptyString.

Definition oid_list_eqb (a b : list Oid) : bool :=
  (Nat.eqb (length a) (length b)) && forallb (fun p => (fst p =? snd p)%Z) (combine a b).

Definition demo_func_by_signature (funcname : list string) (argtypes : list Oid) : Oid :=
  match List.find (fun p => (fst (fst (fst p)) =? last_name funcname)%string
                            && oid_list_eqb (snd (fst (fst p))) argtypes) procs with
  | Some p => snd (fst p)
  | None => InvalidOid
  end.

Definition demo_get_func_rettype (funcid : Oid) : Oid :=
  match List.find (fun p => (snd (fst p) =? funcid)%Z) procs with
  | Some p => snd p
  | None => InvalidOid
  end.

Definition demo_typenameTypeId (t : TypeName) : Res Oid :=
  match List.find (fun p => (fst p =? last_name (names t))%string) types with
  | Some p => OK (snd p)
  | None => ERROR (CollaboratorError ERRCODE_UNDEFINED_OBJECT "type does not exist")
  end.

(** commands/define.c *)
Definition demo_defGetTypeName (def : DefElem) : Res TypeName :=
  match arg def with
  | None => ERROR (CollaboratorError ERRCODE_SYNTAX_ERROR "requires a parameter")
  | Some (T_TypeName t) => OK t
  | Some (T_String s) => OK (mkTypeName [s] false)
  | Some _ => ERROR (CollaboratorError ERRCODE_SYNTAX_ERROR "argument must be a type name")
  end.

Definition demo_defGetQualifiedName (def : DefElem) : Res (list string) :=
  match arg def with
  | None => ERROR (CollaboratorError ERRCODE_SYNTAX_ERROR "requires a parameter")
  | Some (T_TypeName t) => OK (names t)
  | Some (T_List l) => OK l
  | Some (T_String s) => OK [s]
  | Some _ => ERROR (CollaboratorError ERRCODE_SYNTAX_ERROR "argument must be a name")
  end.

Definition demo_defGetBoolean (def : DefElem) : Res bool :=
  match arg def with
  | None => OK true
  | Some (T_Integer 0) => OK false
  | Some (T_Integer 1) => OK true
  | Some (T_String s) =>
      if (s =? "true")%string || (s =? "on")%string then OK true
      else if (s =? "false")%string || (s =? "off")%string then OK false
      else ERROR (CollaboratorError ERRCODE_SYNTAX_ERROR "requires a Boolean value")
  | Some _ => ERROR (CollaboratorError ERRCODE_SYNTAX_ERROR "requires a Boolean value")
  end.

(** A pg_operator row. *)
Definition operator_row (oid : Oid) (name : string) (left right result com negate code rest join : Oid)
    : list Datum :=
  [ DatumWord oid; DatumName name; DatumWord 2200; DatumWord 10;
    DatumWord (if OidIsValid left then 98 else 108); DatumWord 0; DatumWord 0;
    DatumWord left; DatumWord right; DatumWord result;
    DatumWord com; DatumWord negate; DatumWord code; DatumWord rest; DatumWord join ].

(** Six operators: [===] on booleans, its own commutator, with negator
    [!==]; the prefix operator [@] on int4; [+] on int4; and [<<] and [>>]
    on booleans, each the commutator of the other. *)
Definition cat0 : Catalog :=
  mkCatalog
    [ mkHeapTuple 1%nat (operator_row 9001 "===" BOOLOID BOOLOID BOOLOID 9001 9002 60 101 105);
      mkHeapTuple 2%nat (operator_row 9002 "!==" BOOLOID BOOLOID BOOLOID 9002 9001 60 0 0);
      mkHeapTuple 3%nat (operator_row 9003 "@" InvalidOid INT4OID INT4OID 0 0 212 0 0);
      mkHeapTuple 4%nat (operator_row 9004 "+" INT4OID INT4OID INT4OID 0 0 177 0 0);
      mkHeapTuple 5%nat (operator_row 9005 "<<" BOOLOID BOOLOID BOOLOID 9006 0 60 0 0);
      mkHeapTuple 6%nat (operator_row 9006 ">>" BOOLOID BOOLOID BOOLOID 9005 0 60 0 0) ]
    7%nat.

Definition demo_LookupOperWithArgs (o : ObjectWithArgs) : Res Oid :=
  match List.find (fun tup => (oprname tup =? last_name (objname o))%string) (pg_operator cat0) with
  | Some tup => OK (oprid tup)
  | None => ERROR (CollaboratorError ERRCODE_UNDEFINED_FUNCTION "operator does not exist")
  end.

(** The operator of that name in the catalog, [InvalidOid] when there is
    none. *)
Definition demo_operator_by_name (c : Catalog) (name : list string) : Oid :=
  match name with
  | [] => InvalidOid
  | _ => match List.find (fun tup => (oprname tup =? last_name name)%string) (pg_operator c) with
         | Some tup => oprid tup
         | None => InvalidOid
         end
  end.

(** An OID that no operator of the catalog has. *)
Definition demo_new_oid (c : Catalog) : Oid :=
  1 + fold_right Z.max 9099 (map oprid (pg_operator c)).

(** Modelled from the spec: [storage.create_operator(spec) -> operator_id]
    (catalog/pg_operator.c is not part of the sources).  A second operator
    of the same name and operand types is refused; otherwise the row is
    stored under a new OID, the commutator and the negator are made to
    point back where their link is free, and the identity is returned.  In
    this installation a commutator or negator that is not there yet is left
    unset: no shell operator is made. *)
Definition demo_OperatorCreate (rettype : Oid -> Oid) (a : OperatorCreateArgs) (c : Catalog)
    : Res ObjectAddress * Catalog :=
  if existsb (fun tup => (oprname tup =? oc_operatorName a)%string
                         && (oprleft tup =? oc_leftTypeId a)
                         && (oprright tup =? oc_rightTypeId a)) (pg_operator c)
  then (ERROR (CollaboratorError (ERRCODE_OTHER "42723") "operator already exists"), c)
  else
    let oid := demo_new_oid c in
    let com := demo_operator_by_name c (oc_commutatorName a) in
    let neg := demo_operator_by_name c (oc_negatorName a) in
    let data :=
      [ DatumWord oid; DatumName (oc_operatorName a); DatumWord (oc_operatorNamespace a);
        DatumWord 10; DatumWord (if OidIsValid (oc_leftTypeId a) then 98 else 108);
        DatumWord (Z.b2z (oc_canMerge a)); DatumWord (Z.b2z (oc_canHash a));
        DatumWord (oc_leftTypeId a); DatumWord (oc_rightTypeId a);
        DatumWord (rettype (oc_procedureId a)); DatumWord com; DatumWord neg;
        DatumWord (oc_procedureId a); DatumWord (oc_restrictionId a); DatumWord (oc_joinId a) ] in
    (OK (mkObjectAddress OperatorRelationId oid 0),
     OperatorUpd_model oid com neg false
       (mkCatalog (pg_operator c ++ [mkHeapTuple (next_tid c) data]) (S (next_tid c)))).

Definition demo_env : Env :=
  mkEnv
    (fun names => match names with
                  | [] => ERROR (CollaboratorError ERRCODE_SYNTAX_ERROR "improper qualified name")
                  | _ => OK (2200%Z, last_name names)
                  end)
    (fun _ => "public")
    (fun _ _ => ACLCHECK_OK)
    (fun _ _ => ACLCHECK_OK)
    (fun _ _ => ACLCHECK_OK)
    (fun _ => true)
    demo_defGetTypeName
    demo_defGetQualifiedName
    demo_defGetBoolean
    demo_typenameTypeId
    demo_func_by_signature
    demo_get_func_rettype
    demo_LookupOperWithArgs
    (demo_OperatorCreate demo_get_func_rettype)
    OperatorUpd_model
    (fun data _ => mkObjectAddress OperatorRelationId
                     (DatumGetObjectId (default (DatumWord 0) (data !! 0%nat))) 0).

Definition def (name : string) (a : Node) : DefElem := mkDefElem name (Some a).
Definition def_none (name : string) : DefElem := mkDefElem name None.
Definition type_arg (name : string) : Node := T_TypeName (mkTypeName [name] false).
Definition operator (name : string) : ObjectWithArgs := mkObjectWithArgs [name] [].

End Demo.

Import Demo.

(** ** The same installation seen by a role with fewer rights *)

Module Guest.

Local Open Scope string_scope.
Local Open Scope list_scope.
Local Open Scope Z_scope.

(** pg_proc with four more functions: a restriction estimator of the wrong
    result type, two that the role may not execute (one of them of the wrong
    result type as well), and a join estimator it may not execute. *)
Definition guest_procs : list (string * list Oid * Oid * Oid) :=
  procs ++
  [ ("intsel", [INTERNALOID; OIDOID; INTERNALOID; INT4OID], 130%Z, INT4OID);
    ("lockedsel", [INTERNALOID; OIDOID; INTERNALOID; INT4OID], 131%Z, FLOAT8OID);
    ("lockedintsel", [INTERNALOID; OIDOID; INTERNALOID; INT4OID], 132%Z, INT4OID);
    ("lockedjoinsel", [INTERNALOID; OIDOID; INTERNALOID; INT2OID; INTERNALOID], 135%Z, FLOAT8OID);
    ("lockedum", [INT4OID], 140%Z, INT4OID) ].

Definition guest_func_by_signature (funcname : list string) (argtypes : list Oid) : Oid :=
  match List.find (fun p => (fst (fst (fst p)) =? last_name funcname)%string
                            && oid_list_eqb (snd (fst (fst p))) argtypes) guest_procs with
  | Some p => snd (fst p)
  | None => InvalidOid
  end.

Definition guest_get_func_rettype (funcid : Oid) : Oid :=
  match List.find (fun p => (snd (fst p) =? funcid)%Z) guest_procs with
  | Some p => snd p
  | None => InvalidOid
  end.

(** The role may create in the schema [public] (2200) but not in [private]
    (2201), may not execute the functions 131, 132, 135 and 140, and owns
    the operator [===] only. *)
Definition guest_env : Env :=
  mkEnv
    (fun names => match names with
                  | [] => ERROR (CollaboratorError ERRCODE_SYNTAX_ERROR "improper qualified name")
                  | [_] => OK (2200%Z, last_name names)
                  | _ => OK (2201%Z, last_name names)
                  end)
    (fun nsp => if (nsp =? 2201)%Z then "private" else "public")
    (fun nsp _ => if (nsp =? 2201)%Z then ACLCHECK_NO_PRIV else ACLCHECK_OK)
    (fun _ _ => ACLCHECK_OK)
    (fun f _ => if (f =? 131)%Z || (f =? 132)%Z || (f =? 135)%Z || (f =? 140)%Z
                then ACLCHECK_NO_PRIV else ACLCHECK_OK)
    (fun o => (o =? 9001)%Z)
    demo_defGetTypeName
    demo_defGetQualifiedName
    demo_defGetBoolean
    demo_typenameTypeId
    guest_func_by_signature
    guest_get_func_rettype
    demo_LookupOperWithArgs
    (demo_OperatorCreate guest_get_func_rettype)
    OperatorUpd_model
    (fun data _ => mkObjectAddress OperatorRelationId
                     (DatumGetObjectId (default (DatumWord 0) (data !! 0%nat))) 0).

End Guest.

Import Guest.

(** * The vocabulary of the properties *)

(** The argument types of the two signatures of a join estimator: the
    array of [ValidateJoinEstimator], and its first four entries. *)
Definition join_signature5 : list Oid := [INTERNALOID; OIDOID; INTERNALOID; INT2OID; INTERNALOID].
Definition join_signature4 : list Oid := [INTERNALOID; OIDOID; INTERNALOID; INT2OID].

(** The names the loop of [DefineOperator] has a branch for. *)
Definition DefineOperator_recognizes (name : string) : bool :=
  (name =? "leftarg")%string || (name =? "rightarg")%string ||
  (name =? "function")%string || (name =? "procedure")%string ||
  (name =? "commutator")%string || (name =? "negator")%string ||
  (name =? "restrict")%string || (name =? "join")%string ||
  (name =? "hashes")%string || (name =? "merges")%string ||
  (name =? "sort1")%string || (name =? "sort2")%string ||
  (name =? "ltcmp")%string || (name =? "gtcmp")%string.

(** The names [AlterOperator] takes a new value for. *)
Definition AlterOperator_alterable (name : string) : bool :=
  (name =? "restrict")%string || (name =? "join")%string.

(** The value of an option of [AlterOperator] is read without an error:
    it is absent ([NONE]) or a name. *)
Definition param_readable (env : Env) (defel : DefElem) : Prop :=
  arg defel = None \/ exists v, defGetQualifiedName env defel = OK v.

(** The warning of [DefineOperator] about an attribute. *)
Definition unrecognized_warning (defel : DefElem) : Event :=
  EvWarning (AttributeNotRecognized (defname defel)).

(** A definition list without the attributes that have no branch, and the
    attributes that were left out. *)
Definition recognized_only (parameters : list DefElem) : list DefElem :=
  List.filter (fun defel => DefineOperator_recognizes (defname defel)) parameters.

Definition unrecognized_only (parameters : list DefElem) : list DefElem :=
  List.filter (fun defel => negb (DefineOperator_recognizes (defname defel))) parameters.

(** The two tests of lines 501 and 510 on the stored row. *)
Definition is_binary (oprForm : HeapTuple) : bool :=
  OidIsValid (oprleft oprForm) && OidIsValid (oprright oprForm).

Definition is_boolean (oprForm : HeapTuple) : bool := (oprresult oprForm =? BOOLOID)%Z.

(** The columns of the row version that [AlterOperator] writes. *)
Definition AlterOperator_new_tuple (tup : HeapTuple) (st : AlterOperator_locals)
    (restrictionOid joinOid : Oid) : HeapTuple :=
  heap_modify_tuple tup (AlterOperator_arrays st restrictionOid joinOid).1.1
    (AlterOperator_arrays st restrictionOid joinOid).1.2
    (AlterOperator_arrays st restrictionOid joinOid).2.

(** I4 and I5 of the data model, read off a pg_operator row. *)
Definition I4 (tup : HeapTuple) : Prop :=
  OidIsValid (oprrest tup) = true -> oprresult tup = BOOLOID.

Definition I5 (tup : HeapTuple) : Prop :=
  OidIsValid (oprjoin tup) = true -> oprresult tup = BOOLOID /\ OidIsValid (oprleft tup) = true.

(** The option has this name. *)
Definition names_option (name : string) (defel : DefElem) : bool := (defname defel =? name)%string.

(** The local variables of [DefineOperator] that the loop assigns. *)
Inductive DefineOperator_variable :=
| v_canMerge | v_canHash | v_functionName | v_typeName1 | v_typeName2
| v_commutatorName | v_negatorName | v_restrictionName | v_joinName.

(** The variable that the branch for an attribute name assigns. *)
Definition assigned_variable (name : string) : option DefineOperator_variable :=
  if (name =? "leftarg")%string then Some v_typeName1
  else if (name =? "rightarg")%string then Some v_typeName2
  else if (name =? "function")%string then Some v_functionName
  else if (name =? "procedure")%string then Some v_functionName
  else if (name =? "commutator")%string then Some v_commutatorName
  else if (name =? "negator")%string then Some v_negatorName
  else if (name =? "restrict")%string then Some v_restrictionName
  else if (name =? "join")%string then Some v_joinName
  else if (name =? "hashes")%string then Some v_canHash
  else if (name =? "merges")%string then Some v_canMerge
  else if (name =? "sort1")%string then Some v_canMerge
  else if (name =? "sort2")%string then Some v_canMerge
  else if (name =? "ltcmp")%string then Some v_canMerge
  else if (name =? "gtcmp")%string then Some v_canMerge
  else None.


(** Two states of the locals agree on a variable. *)
Definition same_value (v : DefineOperator_variable) (s1 s2 : DefineOperator_locals) : Prop :=
  match v with
  | v_canMerge => canMerge s1 = canMerge s2
  | v_canHash => canHash s1 = canHash s2
  | v_functionName => functionName s1 = functionName s2
  | v_typeName1 => typeName1 s1 = typeName1 s2
  | v_typeName2 => typeName2 s1 = typeName2 s2
  | v_commutatorName => commutatorName s1 = commutatorName s2
  | v_negatorName => negatorName s1 = negatorName s2
  | v_restrictionName => restrictionName s1 = restrictionName s2
  | v_joinName => joinName s1 = joinName s2
  end.

(** Every event a computation logs satisfies [P]. *)
Definition emits {A} (P : Event -> Prop) (m : M A) : Prop :=
  forall c, Forall P (events (m c)).

(** What is asked of the arity of the look-ups in a log. *)
Definition lookup_arity (ok : nat -> Prop) (ev : Event) : Prop :=
  match ev with
  | EvLookupFuncName _ nargs _ _ => ok nargs
  | _ => True
  end.

(** The number of operand types that are present. *)
Definition present_operand_types (typeId1 typeId2 : Oid) : nat :=
  length (List.filter OidIsValid [typeId1; typeId2]).

(** The event is a call of [LookupFuncName]. *)
Definition is_lookup (ev : Event) : Prop :=
  match ev with EvLookupFuncName _ _ _ _ => True | _ => False end.

(** The two tests of lines 383 and 386 on the row first fetched. *)
Definition has_links (op : HeapTuple) : bool :=
  OidIsValid (oprcom op) || OidIsValid (oprnegate op).

Definition links_to_self (operOid : Oid) (op : HeapTuple) : bool :=
  (operOid =? oprcom op)%Z || (operOid =? oprnegate op)%Z.

(** The argument types of the signature of a restriction estimator: the
    array of [ValidateRestrictionEstimator]. *)
Definition restriction_signature : list Oid := [INTERNALOID; OIDOID; INTERNALOID; INT4OID].

(** What the two tests at the end of both validators (result type, then
    permission to execute) make of a function that was found. *)
Definition checked_estimator (env : Env) (wrong_type : Error) (name : list string) (f : Oid)
    : Res Oid :=
  if (get_func_rettype env f =? FLOAT8OID)%Z
  then match pg_proc_aclcheck env f ACL_EXECUTE with
       | ACLCHECK_OK => OK f
       | aclresult => ERROR (AclcheckError aclresult OBJECT_FUNCTION (NameListToString name))
       end
  else ERROR wrong_type.

(** The event is the call of [OperatorCreate]. *)
Definition is_create (ev : Event) : Prop :=
  match ev with EvOperatorCreate _ => True | _ => False end.

(** The event is one of the three that [AlterOperator] logs when it writes:
    the update of the row, the dependencies, the post-alter hook. *)
Definition is_alter_effect (ev : Event) : Prop :=
  match ev with
  | EvCatalogTupleUpdate _ _ | EvMakeOperatorDependencies _ _
  | EvInvokeObjectPostAlterHook _ _ => True
  | _ => False
  end.

(** The attributes that the loop of [DefineOperator] gets to: every one up
    to and including the first whose branch raises. *)
Fixpoint DefineOperator_attributes_read (env : Env) (parameters : list DefElem)
    (st : DefineOperator_locals) (c : Catalog) : list DefElem :=
  match parameters with
  | [] => []
  | defel :: rest =>
      defel :: match outcome (DefineOperator_defel env defel st c) with
               | OK st' => DefineOperator_attributes_read env rest st' c
               | ERROR _ => []
               end
  end.

(** The event is a call of [CatalogTupleDelete]. *)
Definition is_delete (ev : Event) : Prop :=
  match ev with EvCatalogTupleDelete _ => True | _ => False end.

(** * Properties *)

(** ** Running the monad *)

Lemma bind_OK {A B} (m : M A) (k : A -> M B) c a c1 evs1 :
  m c = (OK a, c1, evs1) ->
  bind m k c = (outcome (k a c1), final_catalog (k a c1), evs1 ++ events (k a c1)).
Proof.
  intros H. unfold bind. rewrite H. destruct (k a c1) as [[r c2] evs2]. reflexivity.
Qed.

Lemma bind_ERROR {A B} (m : M A) (k : A -> M B) c e c1 evs1 :
  m c = (ERROR e, c1, evs1) -> bind m k c = (ERROR e, c1, evs1).
Proof. intros H. unfold bind. rewrite H. reflexivity. Qed.

Lemma triple_eta {A} (x : Res A * Catalog * list Event) :
  x = (outcome x, final_catalog x, events x).
Proof. destruct x as [[r c] evs]. reflexivity. Qed.

Lemma bind_ret {A B} (a : A) (k : A -> M B) c : bind (ret a) k c = k a c.
Proof. unfold bind, ret. destruct (k a c) as [[r c2] evs2]. reflexivity. Qed.

Lemma bind_raise {A B} (e : Error) (k : A -> M B) c :
  bind (ereport_ERROR e) k c = (ERROR e, c, []).
Proof. reflexivity. Qed.

Lemma bind_lift_OK {A B} (a : A) (k : A -> M B) c : bind (lift (OK a)) k c = k a c.
Proof. unfold bind, lift. destruct (k a c) as [[r c2] evs2]. reflexivity. Qed.

Lemma bind_lift_ERROR {A B} (e : Error) (k : A -> M B) c :
  bind (lift (ERROR e)) k c = (ERROR e, c, []).
Proof. reflexivity. Qed.

Lemma bind_emit {B} (ev : Event) (k : unit -> M B) c :
  bind (emit ev) k c = (outcome (k tt c), final_catalog (k tt c), ev :: events (k tt c)).
Proof. unfold bind, emit. destruct (k tt c) as [[r c2] evs2]. reflexivity. Qed.

Lemma bind_get_catalog {B} (k : Catalog -> M B) c : bind get_catalog k c = k c c.
Proof. unfold bind, get_catalog. destruct (k c c) as [[r c2] evs2]. reflexivity. Qed.

Lemma bind_put_catalog {B} (c' : Catalog) (k : unit -> M B) c :
  bind (put_catalog c') k c = k tt c'.
Proof. unfold bind, put_catalog. destruct (k tt c') as [[r c2] evs2]. reflexivity. Qed.

Lemma bind_assoc {A B C} (m : M A) (k : A -> M B) (h : B -> M C) c :
  bind (bind m k) h c = bind m (fun a => bind (k a) h) c.
Proof.
  unfold bind. destruct (m c) as [[[a | e] c1] evs1]; [| reflexivity].
  destruct (k a c1) as [[[b | e] c2] evs2]; [| reflexivity].
  destruct (h b c2) as [[r c3] evs3]. rewrite app_assoc. reflexivity.
Qed.

Lemma outcome_triple {A} (r : Res A) c evs : outcome (r, c, evs) = r.
Proof. reflexivity. Qed.
Lemma final_catalog_triple {A} (r : Res A) c evs : final_catalog (r, c, evs) = c.
Proof. reflexivity. Qed.
Lemma events_triple {A} (r : Res A) c evs : events (r, c, evs) = evs.
Proof. reflexivity. Qed.
Lemma ret_run {A} (a : A) c : ret a c = (OK a, c, []).
Proof. reflexivity. Qed.
Lemma raise_run {A} (e : Error) c : @ereport_ERROR A e c = (ERROR e, c, []).
Proof. reflexivity. Qed.
Lemma lift_run {A} (r : Res A) c : lift r c = (r, c, []).
Proof. reflexivity. Qed.

Lemma OidIsValid_InvalidOid : OidIsValid InvalidOid = false.
Proof. reflexivity. Qed.

Create Rewrite HintDb monad.
#[local] Hint Rewrite @bind_assoc @bind_ret @bind_raise @bind_lift_OK @bind_lift_ERROR @bind_emit
  @bind_get_catalog @bind_put_catalog @outcome_triple @final_catalog_triple @events_triple
  @ret_run @raise_run @lift_run OidIsValid_InvalidOid : monad.

Ltac run := repeat (progress (autorewrite with monad; cbn [negb andb orb])).

(** ** The join estimator's two signatures *)

(** C1, as stated, fails: [intjoinsel] exists with the legacy four-argument
    signature only, yet [ValidateJoinEstimator] does not return it, because
    it returns int4 and an estimator must return float8. *)
Lemma ValidateJoinEstimator_legacy_only_rejected :
  func_by_signature demo_env ["intjoinsel"%string] join_signature5 = InvalidOid /\
  func_by_signature demo_env ["intjoinsel"%string] join_signature4 = 124%Z /\
  outcome (ValidateJoinEstimator demo_env ["intjoinsel"%string] cat0)
  = ERROR (JoinEstimatorMustReturn ["intjoinsel"%string]).
Proof. repeat split. Qed.

(** C1, amended: [ValidateJoinEstimator] looks the name up with the
    five-argument and then with the legacy four-argument signature, both
    times tolerating a miss.  A name that matches only one of the two is
    resolved to that function, and is returned when the function returns
    float8 and the caller may execute it; a name that matches both fails
    with [ERRCODE_AMBIGUOUS_FUNCTION]; a name that matches neither fails
    with [ERRCODE_UNDEFINED_FUNCTION], raised by a third lookup that names
    the five-argument signature. *)
Theorem ValidateJoinEstimator_resolution (env : Env) (joinName : list string) (c : Catalog) :
  let f5 := func_by_signature env joinName join_signature5 in
  let f4 := func_by_signature env joinName join_signature4 in
  let run := ValidateJoinEstimator env joinName c in
  (exists rest, events run = EvLookupFuncName joinName 5 join_signature5 true
                             :: EvLookupFuncName joinName 4 join_signature5 true :: rest) /\
  final_catalog run = c /\
  (OidIsValid f5 = false -> OidIsValid f4 = true ->
   get_func_rettype env f4 = FLOAT8OID -> pg_proc_aclcheck env f4 ACL_EXECUTE = ACLCHECK_OK ->
   outcome run = OK f4) /\
  (OidIsValid f5 = true -> OidIsValid f4 = false ->
   get_func_rettype env f5 = FLOAT8OID -> pg_proc_aclcheck env f5 ACL_EXECUTE = ACLCHECK_OK ->
   outcome run = OK f5) /\
  (OidIsValid f5 = true -> OidIsValid f4 = true ->
   outcome run = ERROR (JoinEstimatorMultipleMatches joinName) /\
   sqlerrcode (JoinEstimatorMultipleMatches joinName) = ERRCODE_AMBIGUOUS_FUNCTION) /\
  (OidIsValid f5 = false -> OidIsValid f4 = false ->
   outcome run = ERROR (FunctionDoesNotExist joinName 5 join_signature5) /\
   sqlerrcode (FunctionDoesNotExist joinName 5 join_signature5) = ERRCODE_UNDEFINED_FUNCTION).
Proof.
  intros f5 f4 r. subst f5 f4 r.
  unfold ValidateJoinEstimator, LookupFuncName, aclcheck_error. fold join_signature5.
  change (firstn 5 join_signature5) with join_signature5.
  change (firstn 4 join_signature5) with join_signature4.
  destruct (OidIsValid (func_by_signature env joinName join_signature5)) eqn:V5;
    destruct (OidIsValid (func_by_signature env joinName join_signature4)) eqn:V4;
    run; try rewrite V5; try rewrite V4; run.
  - repeat split; eauto; discriminate.
  - match goal with |- context [(get_func_rettype env ?f =? FLOAT8OID)%Z] =>
      destruct (get_func_rettype env f =? FLOAT8OID)%Z eqn:R; run;
      destruct (pg_proc_aclcheck env f ACL_EXECUTE) eqn:P; run
    end;
      repeat split; eauto; try discriminate; intros; try congruence;
      apply Z.eqb_neq in R; congruence.
  - match goal with |- context [(get_func_rettype env ?f =? FLOAT8OID)%Z] =>
      destruct (get_func_rettype env f =? FLOAT8OID)%Z eqn:R; run;
      destruct (pg_proc_aclcheck env f ACL_EXECUTE) eqn:P; run
    end;
      repeat split; eauto; try discriminate; intros; try congruence;
      apply Z.eqb_neq in R; congruence.
  - repeat split; eauto; discriminate.
Qed.

Lemma ValidateJoinEstimator_resolution_witness :
  outcome (ValidateJoinEstimator demo_env ["oldjoinsel"%string] cat0) = OK 104%Z /\
  outcome (ValidateJoinEstimator demo_env ["eqjoinsel"%string] cat0) = OK 105%Z /\
  outcome (ValidateJoinEstimator demo_env ["twojoinsel"%string] cat0)
  = ERROR (JoinEstimatorMultipleMatches ["twojoinsel"%string]) /\
  outcome (ValidateJoinEstimator demo_env ["nojoinsel"%string] cat0)
  = ERROR (FunctionDoesNotExist ["nojoinsel"%string] 5 join_signature5).
Proof.
  split; [| split; [| split]].
  - destruct (ValidateJoinEstimator_resolution demo_env ["oldjoinsel"%string] cat0)
      as (_ & _ & H & _). apply H; reflexivity.
  - destruct (ValidateJoinEstimator_resolution demo_env ["eqjoinsel"%string] cat0)
      as (_ & _ & _ & H & _). apply H; reflexivity.
  - destruct (ValidateJoinEstimator_resolution demo_env ["twojoinsel"%string] cat0)
      as (_ & _ & _ & _ & H & _). apply H; reflexivity.
  - destruct (ValidateJoinEstimator_resolution demo_env ["nojoinsel"%string] cat0)
      as (_ & _ & _ & _ & _ & H). apply H; reflexivity.
Defined.

(** ** The operand types of a new operator *)

(** C4, as stated, fails: a definition that names neither operand type and
    no function either is turned down for the missing function, which is
    checked first; so is one that names the left type only. *)
Lemma DefineOperator_function_checked_first :
  outcome (DefineOperator demo_env ["myop"%string] [] cat0) = ERROR FunctionMustBeSpecified /\
  outcome (DefineOperator demo_env ["myop"%string] [def "leftarg" (type_arg "int4")] cat0)
  = ERROR FunctionMustBeSpecified /\
  errmsg FunctionMustBeSpecified <> errmsg ArgumentTypesMustBeSpecified /\
  errmsg FunctionMustBeSpecified <> errmsg RightArgumentTypeMustBeSpecified.
Proof. repeat split; discriminate. Qed.

(** C4, amended: when the namespace is resolved and may be created in, the
    loop over the attribute list ends without an error and has seen a
    function name, and the operand types that were given resolve, then
    [DefineOperator] fails with [ERRCODE_INVALID_FUNCTION_DEFINITION]: with
    the message that the argument types must be specified when neither
    operand type is valid, and with the message about the right argument
    type, and the detail that postfix operators are not supported, when the
    left type is valid and the right one is not. *)
Theorem DefineOperator_missing_operand_types (env : Env) (names : list string)
    (parameters : list DefElem) (c : Catalog) nsp st c1 evs1 id1 id2 :
  QualifiedNameGetCreationNamespace env names = OK nsp ->
  pg_namespace_aclcheck env (fst nsp) ACL_CREATE = ACLCHECK_OK ->
  foreach (DefineOperator_defel env) parameters DefineOperator_init c = (OK st, c1, evs1) ->
  functionName st <> [] ->
  DefineOperator_typeId env (typeName1 st) = OK id1 ->
  DefineOperator_typeId env (typeName2 st) = OK id2 ->
  (OidIsValid id1 = false -> OidIsValid id2 = false ->
   outcome (DefineOperator env names parameters c) = ERROR ArgumentTypesMustBeSpecified) /\
  (OidIsValid id1 = true -> OidIsValid id2 = false ->
   outcome (DefineOperator env names parameters c) = ERROR RightArgumentTypeMustBeSpecified) /\
  sqlerrcode ArgumentTypesMustBeSpecified = ERRCODE_INVALID_FUNCTION_DEFINITION /\
  sqlerrcode RightArgumentTypeMustBeSpecified = ERRCODE_INVALID_FUNCTION_DEFINITION /\
  errmsg ArgumentTypesMustBeSpecified = "operator argument types must be specified"%string /\
  errmsg RightArgumentTypeMustBeSpecified
  = "operator right argument type must be specified"%string /\
  errdetail ArgumentTypesMustBeSpecified = None /\
  errdetail RightArgumentTypeMustBeSpecified = Some "Postfix operators are not supported."%string.
Proof.
  intros Hns Hacl Hloop Hfn H1 H2.
  assert (Hrun : forall v1 v2 e,
            OidIsValid id1 = v1 -> OidIsValid id2 = v2 ->
            outcome (DefineOperator_check_types id1 id2 c1) = ERROR e ->
            outcome (DefineOperator env names parameters c) = ERROR e).
  { intros v1 v2 e _ _ Hchk.
    unfold DefineOperator, DefineOperator_resolve. run. rewrite Hns. run.
    rewrite Hacl. unfold aclcheck_error at 1. run.
    rewrite (bind_OK _ _ _ _ _ _ Hloop). run.
    destruct (functionName st) as [| f fs]; [congruence |]. cbn [is_NIL]. run.
    rewrite H1, H2. run.
    destruct (DefineOperator_check_types id1 id2 c1) as [[[[] | e'] c2] evs2] eqn:E;
      cbn in Hchk; [discriminate |].
    rewrite (bind_ERROR _ _ _ _ _ _ E). run. congruence. }
  repeat split.
  - intros V1 V2. apply (Hrun false false); auto.
    unfold DefineOperator_check_types. rewrite V1, V2. cbn [negb andb]. run. reflexivity.
  - intros V1 V2. apply (Hrun true false); auto.
    unfold DefineOperator_check_types. rewrite V1, V2. cbn [negb andb]. run. reflexivity.
Qed.

Lemma DefineOperator_missing_operand_types_witness :
  outcome (DefineOperator demo_env ["myop"%string] [def "function" (type_arg "int4um")] cat0)
  = ERROR ArgumentTypesMustBeSpecified /\
  outcome (DefineOperator demo_env ["myop"%string]
             [def "function" (type_arg "int4um"); def "leftarg" (type_arg "int4")] cat0)
  = ERROR RightArgumentTypeMustBeSpecified.
Proof.
  split.
  - refine (proj1 (DefineOperator_missing_operand_types demo_env ["myop"%string]
                     [def "function" (type_arg "int4um")] cat0
                     (2200%Z, "myop"%string)
                     (set_functionName ["int4um"%string] DefineOperator_init) cat0 []
                     InvalidOid InvalidOid eq_refl eq_refl eq_refl _ eq_refl eq_refl)
                  eq_refl eq_refl).
    discriminate.
  - refine (proj1 (proj2 (DefineOperator_missing_operand_types demo_env ["myop"%string]
                     [def "function" (type_arg "int4um"); def "leftarg" (type_arg "int4")] cat0
                     (2200%Z, "myop"%string)
                     (set_typeName1 (Some (mkTypeName ["int4"%string] false))
                        (set_functionName ["int4um"%string] DefineOperator_init)) cat0 []
                     INT4OID InvalidOid eq_refl eq_refl eq_refl _ eq_refl eq_refl))
                  eq_refl eq_refl).
    discriminate.
Defined.

(** ** Loops over attribute lists *)

Lemma bind_ext {A B} (m : M A) (k1 k2 : A -> M B) c :
  (forall a c', k1 a c' = k2 a c') -> bind m k1 c = bind m k2 c.
Proof.
  intros H. unfold bind. destruct (m c) as [[[a | e] c1] evs1]; [| reflexivity].
  now rewrite H.
Qed.

Lemma foreach_app {A S} (body : A -> S -> M S) (l1 l2 : list A) (st : S) (c : Catalog) :
  foreach body (l1 ++ l2) st c = bind (foreach body l1 st) (fun st' => foreach body l2 st') c.
Proof.
  revert st c. induction l1 as [| x l1 IH]; intros st c; cbn [foreach app].
  - now rewrite bind_ret.
  - rewrite bind_assoc. apply bind_ext. intros a c'. apply IH.
Qed.

(** When two computations differ in what they log only, so do the
    computations that continue them in the same way. *)
Lemma bind_same_but_events {A B} (m1 m2 : M A) (k : A -> M B) c r c1 evs1 evs2 :
  m1 c = (r, c1, evs1) -> m2 c = (r, c1, evs2) ->
  exists tail,
    bind m1 k c = (outcome (bind m2 k c), final_catalog (bind m2 k c), evs1 ++ tail) /\
    events (bind m2 k c) = evs2 ++ tail /\
    (forall a, r = OK a -> tail = events (k a c1)).
Proof.
  intros H1 H2. unfold bind. rewrite H1, H2. destruct r as [a | e].
  - destruct (k a c1) as [[r2 c2] evs'] eqn:E. exists evs'. repeat split.
    intros a' Ha. inversion Ha; subst. now rewrite E.
  - exists []. rewrite !app_nil_r. repeat split. intros a Ha. discriminate.
Qed.

(** ** Attribute names *)

Ltac string_cases :=
  repeat match goal with
    | |- context [(?a =? ?b)%string] =>
        let E := fresh "E" in destruct (a =? b)%string eqn:E
    end.

Lemma DefineOperator_defel_unrecognized (env : Env) (defel : DefElem) st c :
  DefineOperator_recognizes (defname defel) = false ->
  DefineOperator_defel env defel st c
  = (OK st, c, [EvWarning (AttributeNotRecognized (defname defel))]).
Proof.
  unfold DefineOperator_recognizes, DefineOperator_defel. intros H.
  repeat (apply orb_false_elim in H; destruct H as [H ?]).
  repeat match goal with E : (_ =? _)%string = false |- _ => rewrite E; clear E end.
  unfold ereport_WARNING. run. reflexivity.
Qed.

Lemma DefineOperator_defel_recognized (env : Env) (defel : DefElem) st :
  DefineOperator_recognizes (defname defel) = true ->
  exists r, forall c, DefineOperator_defel env defel st c = (r, c, []).
Proof.
  unfold DefineOperator_recognizes, DefineOperator_defel. intros H.
  string_cases; cbn [orb] in H; try discriminate;
    try (eexists; intros c; run; reflexivity);
    try (destruct (defGetQualifiedName env defel) as [v | e];
         eexists; intros c; run; reflexivity);
    try (destruct (defGetBoolean env defel) as [v | e];
         eexists; intros c; run; reflexivity);
    try (destruct (defGetTypeName env defel) as [v | e];
         [destruct (setof v) eqn:Es |]; eexists; intros c; run; try rewrite Es; run; reflexivity).
Qed.

(** The loop of [DefineOperator] on a list and on the same list without the
    names it has no branch for: the same locals or the same error, the
    catalog untouched, and nothing logged but the warnings. *)
Lemma foreach_DefineOperator_defel_recognized_only (env : Env) (parameters : list DefElem) :
  forall st c, exists r done,
    foreach (DefineOperator_defel env) (recognized_only parameters) st c = (r, c, []) /\
    foreach (DefineOperator_defel env) parameters st c = (r, c, map unrecognized_warning done) /\
    (forall defel, In defel done -> In defel (unrecognized_only parameters)) /\
    (forall st', r = OK st' -> done = unrecognized_only parameters).
Proof.
  induction parameters as [| d rest IH]; intros st c.
  - exists (OK st), []. cbn. repeat split; auto.
  - unfold recognized_only, unrecognized_only in *. cbn [List.filter foreach].
    destruct (DefineOperator_recognizes (defname d)) eqn:R; cbn [negb].
    + destruct (DefineOperator_defel_recognized env d st R) as [r1 Hr1].
      destruct r1 as [st1 | e].
      * destruct (IH st1 c) as (r & done & H1 & H2 & H3 & H4).
        exists r, done. cbn [foreach].
        rewrite !(bind_OK _ _ _ _ _ _ (Hr1 c)), H1, H2. run. repeat split; auto.
      * exists (ERROR e), []. cbn [foreach].
        rewrite !(bind_ERROR _ _ _ _ _ _ (Hr1 c)). repeat split; auto.
        -- intros ? [].
        -- intros st' Hst. discriminate.
    + destruct (IH st c) as (r & done & H1 & H2 & H3 & H4).
      exists r, (d :: done).
      rewrite (bind_OK _ _ _ _ _ _ (DefineOperator_defel_unrecognized env d st c R)), H2.
      run. cbn [app map]. repeat split; auto.
      * intros x [-> | Hx]; [now left | right; auto].
      * intros st' Hst. now rewrite (H4 st' Hst).
Qed.

Lemma AlterOperator_alterable_recognized (name : string) :
  AlterOperator_alterable name = true -> DefineOperator_recognizes name = true.
Proof.
  unfold AlterOperator_alterable, DefineOperator_recognizes. intros H.
  apply orb_true_iff in H. destruct H as [H | H]; rewrite H;
    repeat rewrite orb_true_r; repeat rewrite orb_true_l; reflexivity.
Qed.

Lemma creation_only_not_alterable (name : string) :
  is_creation_only_attribute name = true -> AlterOperator_alterable name = false.
Proof.
  unfold AlterOperator_alterable. intros H.
  destruct (name =? "restrict")%string eqn:E1;
    [apply String.eqb_eq in E1; subst; discriminate |].
  destruct (name =? "join")%string eqn:E2;
    [apply String.eqb_eq in E2; subst; discriminate |].
  reflexivity.
Qed.

(** One option of [AlterOperator]: the catalog is not touched and nothing
    is logged. *)
Lemma AlterOperator_defel_run (env : Env) (defel : DefElem) st :
  exists r, forall c, AlterOperator_defel env defel st c = (r, c, []).
Proof.
  unfold AlterOperator_defel.
  destruct (arg defel) as [a |]; [destruct (defGetQualifiedName env defel) as [v | e] |];
    string_cases; try destruct (is_creation_only_attribute (defname defel));
    eexists; intros c; run; reflexivity.
Qed.

Lemma AlterOperator_defel_not_alterable (env : Env) (defel : DefElem) st c :
  AlterOperator_alterable (defname defel) = false ->
  exists e, AlterOperator_defel env defel st c = (ERROR e, c, []).
Proof.
  unfold AlterOperator_alterable, AlterOperator_defel. intros H.
  apply orb_false_elim in H. destruct H as [H1 H2]. rewrite H1, H2.
  destruct (arg defel) as [a |]; [destruct (defGetQualifiedName env defel) as [v | e] |];
    try destruct (is_creation_only_attribute (defname defel));
    eexists; run; reflexivity.
Qed.

Lemma AlterOperator_defel_alterable (env : Env) (defel : DefElem) st :
  AlterOperator_alterable (defname defel) = true -> param_readable env defel ->
  exists st', forall c, AlterOperator_defel env defel st c = (OK st', c, []).
Proof.
  unfold AlterOperator_alterable, AlterOperator_defel. intros H Hp.
  assert (Hparam : exists v, forall c,
             match arg defel with
             | Some _ => lift (defGetQualifiedName env defel)
             | None => ret []
             end c = (OK v, c, [])).
  { destruct Hp as [Hn | [v Hv]].
    - rewrite Hn. exists []. reflexivity.
    - destruct (arg defel); [rewrite Hv; exists v; reflexivity | exists []; reflexivity]. }
  destruct Hparam as [v Hv].
  destruct (defname defel =? "restrict")%string eqn:E1.
  - eexists. intros c. rewrite (bind_OK _ _ _ _ _ _ (Hv c)). run. reflexivity.
  - cbn [orb] in H. rewrite H.
    eexists. intros c. rewrite (bind_OK _ _ _ _ _ _ (Hv c)). run. reflexivity.
Qed.

Lemma AlterOperator_defel_creation_only (env : Env) (defel : DefElem) st c :
  is_creation_only_attribute (defname defel) = true -> param_readable env defel ->
  AlterOperator_defel env defel st c = (ERROR (AttributeCannotBeChanged (defname defel)), c, []).
Proof.
  intros H Hp. pose proof (creation_only_not_alterable _ H) as Hna.
  unfold AlterOperator_alterable in Hna. apply orb_false_elim in Hna. destruct Hna as [H1 H2].
  unfold AlterOperator_defel. rewrite H1, H2, H.
  destruct Hp as [Hn | [v Hv]].
  - rewrite Hn. run. reflexivity.
  - destruct (arg defel); [rewrite Hv |]; run; reflexivity.
Qed.

Lemma AlterOperator_defel_unknown (env : Env) (defel : DefElem) st c :
  AlterOperator_alterable (defname defel) = false ->
  is_creation_only_attribute (defname defel) = false -> param_readable env defel ->
  AlterOperator_defel env defel st c = (ERROR (AttributeNotRecognized (defname defel)), c, []).
Proof.
  intros Hna H Hp.
  unfold AlterOperator_alterable in Hna. apply orb_false_elim in Hna. destruct Hna as [H1 H2].
  unfold AlterOperator_defel. rewrite H1, H2, H.
  destruct Hp as [Hn | [v Hv]].
  - rewrite Hn. run. reflexivity.
  - destruct (arg defel); [rewrite Hv |]; run; reflexivity.
Qed.

Lemma foreach_AlterOperator_defel_run (env : Env) (l : list DefElem) :
  forall st, exists r, forall c, foreach (AlterOperator_defel env) l st c = (r, c, []).
Proof.
  induction l as [| d rest IH]; intros st; cbn [foreach].
  - exists (OK st). reflexivity.
  - destruct (AlterOperator_defel_run env d st) as [[st1 | e] H1].
    + destruct (IH st1) as [r Hr]. exists r. intros c.
      rewrite (bind_OK _ _ _ _ _ _ (H1 c)), Hr. reflexivity.
    + exists (ERROR e). intros c. now rewrite (bind_ERROR _ _ _ _ _ _ (H1 c)).
Qed.

Lemma foreach_AlterOperator_defel_not_alterable (env : Env) (l : list DefElem) (defel : DefElem) :
  In defel l -> AlterOperator_alterable (defname defel) = false ->
  forall st c, exists e, foreach (AlterOperator_defel env) l st c = (ERROR e, c, []).
Proof.
  induction l as [| d rest IH]; intros Hin Hna st c; [destruct Hin |].
  cbn [foreach]. destruct (AlterOperator_defel_run env d st) as [[st1 | e] H1].
  - destruct Hin as [-> | Hin].
    + destruct (AlterOperator_defel_not_alterable env defel st c Hna) as [e He].
      rewrite H1 in He. discriminate.
    + destruct (IH Hin Hna st1 c) as [e He]. exists e.
      rewrite (bind_OK _ _ _ _ _ _ (H1 c)), He. reflexivity.
  - exists e. now rewrite (bind_ERROR _ _ _ _ _ _ (H1 c)).
Qed.

(** The options that come first are all taken: the loop gets past them. *)
Lemma foreach_AlterOperator_defel_alterable (env : Env) (l : list DefElem) :
  Forall (fun defel => AlterOperator_alterable (defname defel) = true /\ param_readable env defel) l ->
  forall st, exists st', forall c, foreach (AlterOperator_defel env) l st c = (OK st', c, []).
Proof.
  induction 1 as [| d rest [Ha Hp] _ IH]; intros st; cbn [foreach].
  - exists st. reflexivity.
  - destruct (AlterOperator_defel_alterable env d st Ha Hp) as [st1 H1].
    destruct (IH st1) as [st' Hst']. exists st'. intros c.
    rewrite (bind_OK _ _ _ _ _ _ (H1 c)), Hst'. reflexivity.
Qed.

(** [AlterOperator] up to the end of the loop over the options. *)
Lemma AlterOperator_loop_error (env : Env) (stmt : AlterOperatorStmt) (c : Catalog) e :
  foreach (AlterOperator_defel env) (options stmt) AlterOperator_init c = (ERROR e, c, []) ->
  (exists e', outcome (AlterOperator env stmt c) = ERROR e') /\
  final_catalog (AlterOperator env stmt c) = c /\
  (forall oprId, LookupOperWithArgs env (opername stmt) = OK oprId ->
                 fetch_operator c oprId <> None ->
                 outcome (AlterOperator env stmt c) = ERROR e).
Proof.
  intros Hloop. unfold AlterOperator, SearchSysCacheCopy1, SearchSysCache1.
  destruct (LookupOperWithArgs env (opername stmt)) as [oprId | e0]; run.
  2: { repeat split; eauto. intros ? Hd. discriminate. }
  destruct (fetch_operator c oprId) as [tup |] eqn:F; run.
  2: { repeat split; eauto. intros ? Ho Hf. inversion Ho; subst. congruence. }
  rewrite (bind_ERROR _ _ _ _ _ _ Hloop). run. repeat split; eauto.
Qed.

(** ** Attributes that cannot be altered *)

(** C6, as stated, fails: a statement that holds [leftarg] after an unknown
    name is turned down for the unknown name, with the error that C6 sets
    apart from the one for attributes that cannot be changed. *)
Lemma AlterOperator_first_offending_option_wins :
  outcome (AlterOperator demo_env
             (mkAlterOperatorStmt (operator "===") [def_none "foo"; def_none "leftarg"]) cat0)
  = ERROR (AttributeNotRecognized "foo") /\
  In (def_none "leftarg") [def_none "foo"; def_none "leftarg"] /\
  is_creation_only_attribute "leftarg" = true.
Proof. repeat split. right; left; reflexivity. Qed.

(** C6, amended: a statement with an option named leftarg, rightarg,
    function, procedure, commutator, negator, hashes or merges never
    succeeds and leaves the catalog as it was; when the operator exists,
    every option before that one is [restrict] or [join] with a value that
    is absent or a name, and the value of the option itself is absent or a
    name, the error is [AttributeCannotBeChanged] for that option, which is
    another error than [AttributeNotRecognized], under the same
    [ERRCODE_SYNTAX_ERROR]. *)
Theorem AlterOperator_creation_only_attribute (env : Env) (stmt : AlterOperatorStmt)
    (c : Catalog) (before after : list DefElem) (defel : DefElem) :
  options stmt = before ++ defel :: after ->
  is_creation_only_attribute (defname defel) = true ->
  (exists e, outcome (AlterOperator env stmt c) = ERROR e) /\
  final_catalog (AlterOperator env stmt c) = c /\
  (forall oprId,
     LookupOperWithArgs env (opername stmt) = OK oprId ->
     fetch_operator c oprId <> None ->
     Forall (fun d => AlterOperator_alterable (defname d) = true /\ param_readable env d) before ->
     param_readable env defel ->
     outcome (AlterOperator env stmt c) = ERROR (AttributeCannotBeChanged (defname defel))) /\
  sqlerrcode (AttributeCannotBeChanged (defname defel)) = ERRCODE_SYNTAX_ERROR /\
  (forall name, AttributeCannotBeChanged (defname defel) <> AttributeNotRecognized name /\
                sqlerrcode (AttributeNotRecognized name) = ERRCODE_SYNTAX_ERROR).
Proof.
  intros Hopt Hfix. pose proof (creation_only_not_alterable _ Hfix) as Hna.
  assert (Hin : In defel (options stmt)).
  { rewrite Hopt. apply in_or_app. right. now left. }
  destruct (foreach_AlterOperator_defel_not_alterable env _ _ Hin Hna AlterOperator_init c)
    as [e He].
  destruct (AlterOperator_loop_error env stmt c e He) as (H1 & H2 & H3).
  repeat split; auto; try discriminate.
  intros oprId Hop Hf Hbefore Hp.
  destruct (foreach_AlterOperator_defel_alterable env before Hbefore AlterOperator_init)
    as [st1 Hst1].
  assert (Hloop : foreach (AlterOperator_defel env) (options stmt) AlterOperator_init c
                  = (ERROR (AttributeCannotBeChanged (defname defel)), c, [])).
  { rewrite Hopt, foreach_app, (bind_OK _ _ _ _ _ _ (Hst1 c)). cbn [foreach].
    rewrite (bind_ERROR _ _ _ _ _ _
               (AlterOperator_defel_creation_only env defel st1 c Hfix Hp)).
    reflexivity. }
  destruct (AlterOperator_loop_error env stmt c _ Hloop) as (_ & _ & H4). eauto.
Qed.

Lemma AlterOperator_creation_only_attribute_witness :
  outcome (AlterOperator demo_env
             (mkAlterOperatorStmt (operator "===")
                [def "restrict" (type_arg "eqsel"); def "hashes" (T_String "true")]) cat0)
  = ERROR (AttributeCannotBeChanged "hashes").
Proof.
  destruct (AlterOperator_creation_only_attribute demo_env
              (mkAlterOperatorStmt (operator "===")
                 [def "restrict" (type_arg "eqsel"); def "hashes" (T_String "true")]) cat0
              [def "restrict" (type_arg "eqsel")] [] (def "hashes" (T_String "true"))
              eq_refl eq_refl) as (_ & _ & H & _).
  apply (H 9001%Z); [reflexivity | discriminate | | right; eexists; reflexivity].
  constructor; [| constructor]. split; [reflexivity | right; eexists; reflexivity].
Defined.

(** ** The estimators, the stored row and its new version *)

(** The estimator look-ups read pg_proc only: the pg_operator heap is as it
    was, and a function that is returned is a valid one. *)
Lemma LookupFuncName_run (env : Env) funcname nargs argtypes missing_ok :
  exists r, (forall c, LookupFuncName env funcname nargs argtypes missing_ok c
                       = (r, c, [EvLookupFuncName funcname nargs argtypes missing_ok])) /\
            (forall oid, r = OK oid -> missing_ok = false -> OidIsValid oid = true).
Proof.
  unfold LookupFuncName.
  destruct (OidIsValid (func_by_signature env funcname (firstn nargs argtypes))) eqn:V;
    [| destruct missing_ok]; eexists; (split; [intros c; run; reflexivity |]);
    intros oid Ho; inversion Ho; subst; auto; discriminate.
Qed.

Lemma ValidateRestrictionEstimator_run (env : Env) (restrictionName : list string) :
  exists r evs, (forall c, ValidateRestrictionEstimator env restrictionName c = (r, c, evs)) /\
                (forall oid, r = OK oid -> OidIsValid oid = true).
Proof.
  unfold ValidateRestrictionEstimator.
  destruct (LookupFuncName_run env restrictionName 4
              [INTERNALOID; OIDOID; INTERNALOID; INT4OID] false) as ([oid | e] & H & Hv).
  - destruct (get_func_rettype env oid =? FLOAT8OID)%Z eqn:R;
      [destruct (pg_proc_aclcheck env oid ACL_EXECUTE) eqn:P |];
      do 2 eexists; (split; [intros c; rewrite (bind_OK _ _ _ _ _ _ (H c)); run;
                             rewrite R; run; try rewrite P; unfold aclcheck_error; run;
                             reflexivity |]);
      intros oid' Ho; inversion Ho; subst; auto.
  - do 2 eexists. split; [intros c; rewrite (bind_ERROR _ _ _ _ _ _ (H c)); reflexivity |].
    intros oid' Ho. discriminate.
Qed.

Lemma ValidateJoinEstimator_run (env : Env) (joinName : list string) :
  exists r evs, (forall c, ValidateJoinEstimator env joinName c = (r, c, evs)) /\
                (forall oid, r = OK oid -> OidIsValid oid = true).
Proof.
  unfold ValidateJoinEstimator, LookupFuncName, aclcheck_error. fold join_signature5.
  change (firstn 5 join_signature5) with join_signature5.
  change (firstn 4 join_signature5) with join_signature4.
  destruct (OidIsValid (func_by_signature env joinName join_signature5)) eqn:V5;
    destruct (OidIsValid (func_by_signature env joinName join_signature4)) eqn:V4.
  - do 2 eexists. split; [intros c; repeat (run; try rewrite V5; try rewrite V4); reflexivity |].
    intros oid Ho. discriminate.
  - destruct (get_func_rettype env (func_by_signature env joinName join_signature5) =? FLOAT8OID)%Z
      eqn:R;
      [destruct (pg_proc_aclcheck env (func_by_signature env joinName join_signature5) ACL_EXECUTE)
         eqn:P |];
      do 2 eexists;
      (split; [intros c; repeat (run; try rewrite V5; try rewrite V4; try rewrite R; try rewrite P);
               reflexivity |]);
      intros oid Ho; inversion Ho; subst; auto.
  - destruct (get_func_rettype env (func_by_signature env joinName join_signature4) =? FLOAT8OID)%Z
      eqn:R;
      [destruct (pg_proc_aclcheck env (func_by_signature env joinName join_signature4) ACL_EXECUTE)
         eqn:P |];
      do 2 eexists;
      (split; [intros c; repeat (run; try rewrite V5; try rewrite V4; try rewrite R; try rewrite P);
               reflexivity |]);
      intros oid Ho; inversion Ho; subst; auto.
  - do 2 eexists. split; [intros c; repeat (run; try rewrite V5; try rewrite V4); reflexivity |].
    intros oid Ho. discriminate.
Qed.

Lemma lookup_restriction_estimator_run (env : Env) (restrictionName : list string) :
  exists r evs, (forall c, lookup_restriction_estimator env restrictionName c = (r, c, evs)) /\
                (forall oid, r = OK oid ->
                   OidIsValid oid = negb (is_NIL restrictionName)).
Proof.
  unfold lookup_restriction_estimator. destruct restrictionName as [| n ns]; cbn [is_NIL negb].
  - exists (OK InvalidOid), []. split; [reflexivity |].
    intros oid Ho. inversion Ho; subst. reflexivity.
  - apply ValidateRestrictionEstimator_run.
Qed.

Lemma lookup_join_estimator_run (env : Env) (joinName : list string) :
  exists r evs, (forall c, lookup_join_estimator env joinName c = (r, c, evs)) /\
                (forall oid, r = OK oid -> OidIsValid oid = negb (is_NIL joinName)).
Proof.
  unfold lookup_join_estimator. destruct joinName as [| n ns]; cbn [is_NIL negb].
  - exists (OK InvalidOid), []. split; [reflexivity |].
    intros oid Ho. inversion Ho; subst. reflexivity.
  - apply ValidateJoinEstimator_run.
Qed.

(** The checks of [AlterOperator] as a decision table. *)
Lemma AlterOperator_checks_spec (oprForm : HeapTuple) (restrictionOid joinOid : Oid) (c : Catalog) :
  AlterOperator_checks oprForm restrictionOid joinOid c
  = (if negb (is_binary oprForm) && OidIsValid joinOid then ERROR OnlyBinaryJoinSelectivity
     else if negb (is_boolean oprForm) && OidIsValid restrictionOid
          then ERROR OnlyBooleanRestrictionSelectivity
     else if negb (is_boolean oprForm) && OidIsValid joinOid
          then ERROR OnlyBooleanJoinSelectivity
     else OK tt, c, []).
Proof.
  unfold AlterOperator_checks, is_binary, is_boolean.
  destruct (OidIsValid (oprleft oprForm) && OidIsValid (oprright oprForm));
    destruct (oprresult oprForm =? BOOLOID)%Z;
    destruct (OidIsValid restrictionOid); destruct (OidIsValid joinOid);
    cbn [negb andb]; run; reflexivity.
Qed.

Lemma fetch_operator_Some (c : Catalog) (operOid : Oid) (tup : HeapTuple) :
  fetch_operator c operOid = Some tup -> In tup (pg_operator c) /\ oprid tup = operOid.
Proof.
  unfold fetch_operator. intros H. apply find_some in H. destruct H as [Hin Heq].
  split; [exact Hin | now apply Z.eqb_eq].
Qed.

Lemma fetch_operator_live (c : Catalog) (operOid : Oid) (tup : HeapTuple) :
  fetch_operator c operOid = Some tup -> tid_live c (t_self tup) = true.
Proof.
  intros H. apply fetch_operator_Some in H. destruct H as [Hin _].
  unfold tid_live. apply existsb_exists. exists tup. split; [exact Hin | apply Nat.eqb_refl].
Qed.

(** The row version that replaces the one that was fetched is the one that
    is fetched afterwards, as long as it keeps the [oid]. *)
Lemma fetch_operator_catalog_update (c : Catalog) (operOid : Oid) (tup : HeapTuple)
    (data : list Datum) :
  fetch_operator c operOid = Some tup ->
  oprid (mkHeapTuple (next_tid c) data) = operOid ->
  fetch_operator (catalog_update c (t_self tup) data) operOid
  = Some (mkHeapTuple (next_tid c) data).
Proof.
  unfold fetch_operator, catalog_update. cbn [pg_operator].
  generalize (next_tid c). intros n Hf Hoid.
  assert (Hb : (oprid (mkHeapTuple n data) =? operOid)%Z = true) by now apply Z.eqb_eq.
  clear Hoid. revert Hf.
  induction (pg_operator c) as [| h rest IH]; intros Hf.
  - discriminate.
  - cbn [List.find map] in *. destruct (oprid h =? operOid)%Z eqn:E.
    + inversion Hf; subst h. rewrite Nat.eqb_refl. now rewrite Hb.
    + destruct (Nat.eqb (t_self h) (t_self tup)).
      * now rewrite Hb.
      * rewrite E. now apply IH.
Qed.

(** Rows at other places are not touched by an update. *)
Lemma catalog_update_other_rows (c : Catalog) (otid : TID) (data : list Datum) (tup : HeapTuple) :
  In tup (pg_operator c) -> t_self tup <> otid ->
  In tup (pg_operator (catalog_update c otid data)).
Proof.
  intros Hin Hne. unfold catalog_update. cbn [pg_operator]. apply in_map_iff.
  exists tup. split; [| exact Hin].
  destruct (Nat.eqb (t_self tup) otid) eqn:E; [| reflexivity].
  apply Nat.eqb_eq in E. contradiction.
Qed.

Lemma heap_modify_tuple_lookup (tup : HeapTuple) (values : list Datum) (nulls replaces : list bool)
    (i : nat) :
  t_data (heap_modify_tuple tup values nulls replaces) !! i
  = (fun old => if default false (replaces !! i)
                then (if default false (nulls !! i) then DatumWord 0
                      else default (DatumWord 0) (values !! i))
                else old) <$> (t_data tup !! i).
Proof. unfold heap_modify_tuple. cbn [t_data]. apply list_lookup_imap. Qed.

Lemma AlterOperator_new_tuple_lookup (tup : HeapTuple) (st : AlterOperator_locals)
    (restrictionOid joinOid : Oid) (i : nat) :
  t_data (AlterOperator_new_tuple tup st restrictionOid joinOid) !! i
  = if Nat.eqb i (Anum_pg_operator_oprrest - 1) && alt_updateRestriction st
    then (fun _ => ObjectIdGetDatum restrictionOid) <$> (t_data tup !! i)
    else if Nat.eqb i (Anum_pg_operator_oprjoin - 1) && alt_updateJoin st
    then (fun _ => ObjectIdGetDatum joinOid) <$> (t_data tup !! i)
    else t_data tup !! i.
Proof.
  unfold AlterOperator_new_tuple. rewrite heap_modify_tuple_lookup.
  unfold AlterOperator_arrays.
  destruct (alt_updateRestriction st), (alt_updateJoin st);
    do 15 (destruct i as [| i]; [destruct (t_data tup !! _); reflexivity |]);
    destruct (t_data tup !! _); reflexivity.
Qed.

Lemma AlterOperator_new_tuple_getattr (tup : HeapTuple) (st : AlterOperator_locals)
    (restrictionOid joinOid : Oid) (attnum : nat) :
  attnum <> Anum_pg_operator_oprrest -> attnum <> Anum_pg_operator_oprjoin ->
  heap_getattr (AlterOperator_new_tuple tup st restrictionOid joinOid) attnum
  = heap_getattr tup attnum.
Proof.
  intros H1 H2. unfold heap_getattr. rewrite AlterOperator_new_tuple_lookup.
  destruct attnum as [| k].
  - cbn. reflexivity.
  - replace (S k - 1) with k by lia.
    destruct (Nat.eqb k (Anum_pg_operator_oprrest - 1)) eqn:E1.
    { apply Nat.eqb_eq in E1. unfold Anum_pg_operator_oprrest in *. cbn in E1. lia. }
    destruct (Nat.eqb k (Anum_pg_operator_oprjoin - 1)) eqn:E2.
    { apply Nat.eqb_eq in E2. unfold Anum_pg_operator_oprjoin in *. cbn in E2. lia. }
    reflexivity.
Qed.

Lemma AlterOperator_new_tuple_oprrest (tup : HeapTuple) (st : AlterOperator_locals)
    (restrictionOid joinOid : Oid) :
  oprrest (AlterOperator_new_tuple tup st restrictionOid joinOid)
  = if alt_updateRestriction st
    then (match t_data tup !! (Anum_pg_operator_oprrest - 1) with
          | Some _ => restrictionOid | None => InvalidOid end)
    else oprrest tup.
Proof.
  unfold oprrest, heap_getattr. rewrite AlterOperator_new_tuple_lookup. cbn [Nat.eqb andb].
  change (Nat.eqb (Anum_pg_operator_oprrest - 1) (Anum_pg_operator_oprrest - 1)) with true.
  cbn [andb]. destruct (alt_updateRestriction st).
  - destruct (t_data tup !! _); reflexivity.
  - change (Nat.eqb (Anum_pg_operator_oprrest - 1) (Anum_pg_operator_oprjoin - 1)) with false.
    reflexivity.
Qed.

Lemma AlterOperator_new_tuple_oprjoin (tup : HeapTuple) (st : AlterOperator_locals)
    (restrictionOid joinOid : Oid) :
  oprjoin (AlterOperator_new_tuple tup st restrictionOid joinOid)
  = if alt_updateJoin st
    then (match t_data tup !! (Anum_pg_operator_oprjoin - 1) with
          | Some _ => joinOid | None => InvalidOid end)
    else oprjoin tup.
Proof.
  unfold oprjoin, heap_getattr. rewrite AlterOperator_new_tuple_lookup.
  change (Nat.eqb (Anum_pg_operator_oprjoin - 1) (Anum_pg_operator_oprrest - 1)) with false.
  change (Nat.eqb (Anum_pg_operator_oprjoin - 1) (Anum_pg_operator_oprjoin - 1)) with true.
  cbn [andb]. destruct (alt_updateJoin st).
  - destruct (t_data tup !! _); reflexivity.
  - reflexivity.
Qed.

(** [AlterOperator] from the checks on: the statement got past the look-up
    of the operator, the options, the ownership test and the estimators. *)
Lemma AlterOperator_run (env : Env) (stmt : AlterOperatorStmt) (c : Catalog)
    oprId tup st r evr j evj :
  LookupOperWithArgs env (opername stmt) = OK oprId ->
  fetch_operator c oprId = Some tup ->
  foreach (AlterOperator_defel env) (options stmt) AlterOperator_init c = (OK st, c, []) ->
  pg_oper_ownercheck env oprId = true ->
  lookup_restriction_estimator env (alt_restrictionName st) c = (OK r, c, evr) ->
  lookup_join_estimator env (alt_joinName st) c = (OK j, c, evj) ->
  AlterOperator env stmt c
  = match outcome (AlterOperator_checks tup r j c) with
    | ERROR e => (ERROR e, c, EvSearchSysCache oprId :: evr ++ evj)
    | OK _ =>
        let data := t_data (AlterOperator_new_tuple tup st r j) in
        (OK (makeOperatorDependencies env data true),
         catalog_update c (t_self tup) data,
         EvSearchSysCache oprId :: evr ++ evj ++
           [EvCatalogTupleUpdate (t_self tup) data; EvMakeOperatorDependencies data true;
            EvInvokeObjectPostAlterHook OperatorRelationId oprId])
    end.
Proof.
  intros Hop Hf Hloop Hown Hr Hj.
  unfold AlterOperator, SearchSysCacheCopy1, SearchSysCache1. rewrite Hop. run. rewrite Hf.
  rewrite (bind_OK _ _ _ _ _ _ Hloop). rewrite Hown. cbn [negb]. run.
  rewrite (bind_OK _ _ _ _ _ _ Hr). rewrite (bind_OK _ _ _ _ _ _ Hj).
  assert (Hc : exists x, AlterOperator_checks tup r j c = (x, c, []))
    by (rewrite AlterOperator_checks_spec; eauto).
  destruct Hc as [x Hc]. rewrite Hc at 1. cbn [outcome fst]. destruct x as [[] | e].
  - rewrite (bind_OK _ _ _ _ _ _ Hc). unfold CatalogTupleUpdate. run.
    change (heap_modify_tuple tup _ _ _) with (AlterOperator_new_tuple tup st r j).
    assert (Hl : tid_live c (t_self (AlterOperator_new_tuple tup st r j)) = true)
      by (apply (fetch_operator_live c oprId tup); exact Hf).
    rewrite Hl. run. cbn [app]. rewrite ?app_nil_r. reflexivity.
  - rewrite (bind_ERROR _ _ _ _ _ _ Hc). run. cbn [app]. rewrite ?app_nil_r. reflexivity.
Qed.

Lemma AlterOperator_OK_inv (env : Env) (stmt : AlterOperatorStmt) (c : Catalog) addr :
  outcome (AlterOperator env stmt c) = OK addr ->
  exists oprId tup st r evr j evj,
    LookupOperWithArgs env (opername stmt) = OK oprId /\
    fetch_operator c oprId = Some tup /\
    foreach (AlterOperator_defel env) (options stmt) AlterOperator_init c = (OK st, c, []) /\
    pg_oper_ownercheck env oprId = true /\
    lookup_restriction_estimator env (alt_restrictionName st) c = (OK r, c, evr) /\
    lookup_join_estimator env (alt_joinName st) c = (OK j, c, evj) /\
    OidIsValid r = negb (is_NIL (alt_restrictionName st)) /\
    OidIsValid j = negb (is_NIL (alt_joinName st)) /\
    outcome (AlterOperator_checks tup r j c) = OK tt.
Proof.
  intros Hok.
  destruct (LookupOperWithArgs env (opername stmt)) as [oprId | e] eqn:Hop.
  2: { unfold AlterOperator in Hok. rewrite Hop in Hok. discriminate. }
  destruct (fetch_operator c oprId) as [tup |] eqn:Hf.
  2: { unfold AlterOperator, SearchSysCacheCopy1, SearchSysCache1 in Hok.
       rewrite Hop in Hok. revert Hok. run. rewrite Hf. run. discriminate. }
  destruct (foreach_AlterOperator_defel_run env (options stmt) AlterOperator_init) as [rl Hloop].
  destruct rl as [st | e].
  2: { destruct (AlterOperator_loop_error env stmt c e (Hloop c)) as ([e' He'] & _).
       congruence. }
  destruct (pg_oper_ownercheck env oprId) eqn:Hown.
  2: { unfold AlterOperator, SearchSysCacheCopy1, SearchSysCache1 in Hok.
       rewrite Hop in Hok. revert Hok. run. rewrite Hf.
       rewrite (bind_OK _ _ _ _ _ _ (Hloop c)). rewrite Hown. cbn [negb].
       unfold aclcheck_error. run. discriminate. }
  destruct (lookup_restriction_estimator_run env (alt_restrictionName st))
    as (rr & evr & Hr & Hrv).
  destruct (lookup_join_estimator_run env (alt_joinName st)) as (rj & evj & Hj & Hjv).
  destruct rr as [r | e].
  2: { unfold AlterOperator, SearchSysCacheCopy1, SearchSysCache1 in Hok.
       rewrite Hop in Hok. revert Hok. run. rewrite Hf.
       rewrite (bind_OK _ _ _ _ _ _ (Hloop c)). rewrite Hown. cbn [negb]. run.
       rewrite (bind_ERROR _ _ _ _ _ _ (Hr c)). run. discriminate. }
  destruct rj as [j | e].
  2: { unfold AlterOperator, SearchSysCacheCopy1, SearchSysCache1 in Hok.
       rewrite Hop in Hok. revert Hok. run. rewrite Hf.
       rewrite (bind_OK _ _ _ _ _ _ (Hloop c)). rewrite Hown. cbn [negb]. run.
       rewrite (bind_OK _ _ _ _ _ _ (Hr c)). rewrite (bind_ERROR _ _ _ _ _ _ (Hj c)).
       run. discriminate. }
  exists oprId, tup, st, r, evr, j, evj.
  repeat split; auto.
  rewrite (AlterOperator_run env stmt c oprId tup st r evr j evj Hop Hf (Hloop c) Hown
             (Hr c) (Hj c)) in Hok.
  destruct (outcome (AlterOperator_checks tup r j c)) as [[] | e]; [reflexivity | discriminate].
Qed.

(** A statement that fails has not written to the catalog. *)
Lemma AlterOperator_ERROR_catalog (env : Env) (stmt : AlterOperatorStmt) (c : Catalog) e :
  outcome (AlterOperator env stmt c) = ERROR e ->
  final_catalog (AlterOperator env stmt c) = c.
Proof.
  intros Herr.
  destruct (LookupOperWithArgs env (opername stmt)) as [oprId | e0] eqn:Hop.
  2: { unfold AlterOperator. rewrite Hop. reflexivity. }
  destruct (fetch_operator c oprId) as [tup |] eqn:Hf.
  2: { unfold AlterOperator, SearchSysCacheCopy1, SearchSysCache1.
       rewrite Hop. run. rewrite Hf. run. reflexivity. }
  destruct (foreach_AlterOperator_defel_run env (options stmt) AlterOperator_init) as [rl Hloop].
  destruct rl as [st | e0].
  2: { now destruct (AlterOperator_loop_error env stmt c e0 (Hloop c)) as (_ & H & _). }
  destruct (pg_oper_ownercheck env oprId) eqn:Hown.
  2: { unfold AlterOperator, SearchSysCacheCopy1, SearchSysCache1.
       rewrite Hop. run. rewrite Hf.
       rewrite (bind_OK _ _ _ _ _ _ (Hloop c)). rewrite Hown. cbn [negb].
       unfold aclcheck_error. run. reflexivity. }
  destruct (lookup_restriction_estimator_run env (alt_restrictionName st))
    as (rr & evr & Hr & _).
  destruct (lookup_join_estimator_run env (alt_joinName st)) as (rj & evj & Hj & _).
  destruct rr as [r | e0].
  2: { unfold AlterOperator, SearchSysCacheCopy1, SearchSysCache1.
       rewrite Hop. run. rewrite Hf.
       rewrite (bind_OK _ _ _ _ _ _ (Hloop c)). rewrite Hown. cbn [negb]. run.
       rewrite (bind_ERROR _ _ _ _ _ _ (Hr c)). run. reflexivity. }
  destruct rj as [j | e0].
  2: { unfold AlterOperator, SearchSysCacheCopy1, SearchSysCache1.
       rewrite Hop. run. rewrite Hf.
       rewrite (bind_OK _ _ _ _ _ _ (Hloop c)). rewrite Hown. cbn [negb]. run.
       rewrite (bind_OK _ _ _ _ _ _ (Hr c)). rewrite (bind_ERROR _ _ _ _ _ _ (Hj c)).
       run. reflexivity. }
  rewrite (AlterOperator_run env stmt c oprId tup st r evr j evj Hop Hf (Hloop c) Hown
             (Hr c) (Hj c)) in *.
  destruct (outcome (AlterOperator_checks tup r j c)) as [[] | e0]; [discriminate | reflexivity].
Qed.

(** What one accepted option does to the locals of [AlterOperator]. *)
Lemma AlterOperator_defel_OK_inv (env : Env) (defel : DefElem) st c st' c' evs :
  AlterOperator_defel env defel st c = (OK st', c', evs) ->
  exists param,
    (arg defel = None /\ param = [] \/ arg defel <> None /\ defGetQualifiedName env defel = OK param) /\
    (defname defel = "restrict"%string /\
     st' = mkAlterLocals param true (alt_joinName st) (alt_updateJoin st) \/
     defname defel <> "restrict"%string /\ defname defel = "join"%string /\
     st' = mkAlterLocals (alt_restrictionName st) (alt_updateRestriction st) param true).
Proof.
  unfold AlterOperator_defel. intros H.
  assert (Hparam : exists param,
             (arg defel = None /\ param = [] \/
              arg defel <> None /\ defGetQualifiedName env defel = OK param) /\
             forall Z (k : list string -> M Z) c0,
               bind match arg defel with
                    | Some _ => lift (defGetQualifiedName env defel)
                    | None => ret []
                    end k c0 = k param c0).
  { destruct (arg defel) as [a |] eqn:Ea.
    - destruct (defGetQualifiedName env defel) as [v | e] eqn:Ev.
      + exists v. split; [right; split; [discriminate | reflexivity] |].
        intros. now rewrite bind_lift_OK.
      + revert H. run. discriminate.
    - exists []. split; [left; auto |]. intros. now rewrite bind_ret. }
  destruct Hparam as (param & Hp & Hk). exists param. split; [exact Hp |].
  rewrite Hk in H.
  destruct (defname defel =? "restrict")%string eqn:E1.
  - left. apply String.eqb_eq in E1. revert H. run. intros H. inversion H; subst. auto.
  - apply String.eqb_neq in E1. destruct (defname defel =? "join")%string eqn:E2.
    + right. apply String.eqb_eq in E2. revert H. run. intros H. inversion H; subst. auto.
    + revert H. destruct (is_creation_only_attribute (defname defel)); run; discriminate.
Qed.

Lemma bind_OK_inv {A B} (m : M A) (k : A -> M B) c b c' evs :
  bind m k c = (OK b, c', evs) ->
  exists a c1 evs1 evs2,
    m c = (OK a, c1, evs1) /\ k a c1 = (OK b, c', evs2) /\ evs = evs1 ++ evs2.
Proof.
  unfold bind. destruct (m c) as [[[a | e] c1] evs1]; [| discriminate].
  destruct (k a c1) as [[r c2] evs2] eqn:E. intros H. inversion H; subst.
  exists a, c1, evs1, evs2. auto.
Qed.

(** A field of the locals that no option names keeps its initial value. *)
Lemma foreach_AlterOperator_defel_no_restrict (env : Env) (l : list DefElem) :
  Forall (fun d => defname d <> "restrict"%string) l ->
  forall st c st' c' evs,
    foreach (AlterOperator_defel env) l st c = (OK st', c', evs) ->
    alt_updateRestriction st' = alt_updateRestriction st /\
    alt_restrictionName st' = alt_restrictionName st.
Proof.
  induction 1 as [| d rest Hd _ IH]; intros st c st' c' evs Hrun; cbn [foreach] in Hrun.
  - inversion Hrun; subst. auto.
  - apply bind_OK_inv in Hrun. destruct Hrun as (st1 & c1 & evs1 & evs2 & H1 & H2 & _).
    destruct (AlterOperator_defel_OK_inv env d st c st1 c1 evs1 H1)
      as (param & _ & [[Hn _] | (_ & _ & ->)]); [contradiction |].
    destruct (IH _ _ _ _ _ H2) as [Ha Hb]. cbn in Ha, Hb. auto.
Qed.

Lemma foreach_AlterOperator_defel_no_join (env : Env) (l : list DefElem) :
  Forall (fun d => defname d <> "join"%string) l ->
  forall st c st' c' evs,
    foreach (AlterOperator_defel env) l st c = (OK st', c', evs) ->
    alt_updateJoin st' = alt_updateJoin st /\ alt_joinName st' = alt_joinName st.
Proof.
  induction 1 as [| d rest Hd _ IH]; intros st c st' c' evs Hrun; cbn [foreach] in Hrun.
  - inversion Hrun; subst. auto.
  - apply bind_OK_inv in Hrun. destruct Hrun as (st1 & c1 & evs1 & evs2 & H1 & H2 & _).
    destruct (AlterOperator_defel_OK_inv env d st c st1 c1 evs1 H1)
      as (param & _ & [[_ ->] | (_ & Hn & _)]); [| contradiction].
    destruct (IH _ _ _ _ _ H2) as [Ha Hb]. cbn in Ha, Hb. auto.
Qed.

(** The last [join] option is the one that counts; [NONE] leaves no name. *)
Lemma foreach_AlterOperator_defel_join_none (env : Env) (before after : list DefElem) st c st' c' evs :
  foreach (AlterOperator_defel env) (before ++ mkDefElem "join" None :: after) st c
  = (OK st', c', evs) ->
  Forall (fun d => defname d <> "join"%string) after ->
  alt_updateJoin st' = true /\ alt_joinName st' = [].
Proof.
  intros Hrun Hafter. rewrite foreach_app in Hrun.
  apply bind_OK_inv in Hrun. destruct Hrun as (st1 & c1 & evs1 & evs2 & _ & H2 & _).
  cbn [foreach] in H2. apply bind_OK_inv in H2.
  destruct H2 as (st2 & c2 & evs3 & evs4 & Hd & H3 & _).
  inversion Hd; subst.
  destruct (foreach_AlterOperator_defel_no_join env after Hafter _ _ _ _ _ H3) as [Ha Hb].
  cbn in Ha, Hb. auto.
Qed.

Lemma foreach_AlterOperator_defel_restrict_none (env : Env) (before after : list DefElem)
    st c st' c' evs :
  foreach (AlterOperator_defel env) (before ++ mkDefElem "restrict" None :: after) st c
  = (OK st', c', evs) ->
  Forall (fun d => defname d <> "restrict"%string) after ->
  alt_updateRestriction st' = true /\ alt_restrictionName st' = [].
Proof.
  intros Hrun Hafter. rewrite foreach_app in Hrun.
  apply bind_OK_inv in Hrun. destruct Hrun as (st1 & c1 & evs1 & evs2 & _ & H2 & _).
  cbn [foreach] in H2. apply bind_OK_inv in H2.
  destruct H2 as (st2 & c2 & evs3 & evs4 & Hd & H3 & _).
  inversion Hd; subst.
  destruct (foreach_AlterOperator_defel_no_restrict env after Hafter _ _ _ _ _ H3) as [Ha Hb].
  cbn in Ha, Hb. auto.
Qed.

Lemma heap_getattr_new_row (tup : HeapTuple) (st : AlterOperator_locals) (r j : Oid)
    (n : TID) (attnum : nat) :
  attnum <> Anum_pg_operator_oprrest -> attnum <> Anum_pg_operator_oprjoin ->
  heap_getattr (mkHeapTuple n (t_data (AlterOperator_new_tuple tup st r j))) attnum
  = heap_getattr tup attnum.
Proof. intros H1 H2. now apply (AlterOperator_new_tuple_getattr tup st r j attnum). Qed.

Ltac same_column :=
  unfold oprid, oprleft, oprright, oprresult; f_equal;
  apply heap_getattr_new_row; discriminate.

(** The row version that a successful [AlterOperator] leaves in the heap. *)
Lemma AlterOperator_OK_new_row (env : Env) (stmt : AlterOperatorStmt) (c : Catalog) addr :
  outcome (AlterOperator env stmt c) = OK addr ->
  exists oprId tup st r j,
    LookupOperWithArgs env (opername stmt) = OK oprId /\
    fetch_operator c oprId = Some tup /\
    (exists evs, foreach (AlterOperator_defel env) (options stmt) AlterOperator_init c
                 = (OK st, c, evs)) /\
    OidIsValid r = negb (is_NIL (alt_restrictionName st)) /\
    OidIsValid j = negb (is_NIL (alt_joinName st)) /\
    outcome (AlterOperator_checks tup r j c) = OK tt /\
    final_catalog (AlterOperator env stmt c)
    = catalog_update c (t_self tup) (t_data (AlterOperator_new_tuple tup st r j)) /\
    fetch_operator (final_catalog (AlterOperator env stmt c)) oprId
    = Some (mkHeapTuple (next_tid c) (t_data (AlterOperator_new_tuple tup st r j))).
Proof.
  intros Hok.
  destruct (AlterOperator_OK_inv env stmt c addr Hok)
    as (oprId & tup & st & r & evr & j & evj & Hop & Hf & Hloop & Hown & Hr & Hj & Vr & Vj & Hc).
  exists oprId, tup, st, r, j.
  assert (Hfinal : final_catalog (AlterOperator env stmt c)
                   = catalog_update c (t_self tup) (t_data (AlterOperator_new_tuple tup st r j))).
  { rewrite (AlterOperator_run env stmt c oprId tup st r evr j evj Hop Hf Hloop Hown Hr Hj).
    rewrite Hc. reflexivity. }
  repeat split; eauto.
  rewrite Hfinal. apply fetch_operator_catalog_update; [exact Hf |].
  apply fetch_operator_Some in Hf. destruct Hf as [_ Hoid]. rewrite <- Hoid. same_column.
Qed.

(** ** The shape of the stored operator *)

(** C3: the checks of [AlterOperator] read the stored row, never the
    statement.  With a join estimator found for the statement, a stored
    operator that lacks an operand type is turned down with
    [ERRCODE_INVALID_FUNCTION_DEFINITION]; with a restriction or join
    estimator found, so is a stored operator whose result type is not
    boolean; this is the outcome of the whole statement once the operator is
    found, the options are taken, the caller is the owner and the
    estimators are found.  A statement that succeeds leaves the operand and
    result types of the row as they were, and I4 and I5 hold of the new row
    when they held of the old one. *)
Theorem AlterOperator_checks_stored_shape (env : Env) (stmt : AlterOperatorStmt) (c : Catalog) :
  (forall oprForm restrictionOid joinOid c0,
     is_binary oprForm = false -> OidIsValid joinOid = true ->
     AlterOperator_checks oprForm restrictionOid joinOid c0
     = (ERROR OnlyBinaryJoinSelectivity, c0, []) /\
     sqlerrcode OnlyBinaryJoinSelectivity = ERRCODE_INVALID_FUNCTION_DEFINITION) /\
  (forall oprForm restrictionOid joinOid c0,
     is_boolean oprForm = false ->
     OidIsValid restrictionOid = true \/ OidIsValid joinOid = true ->
     exists e, AlterOperator_checks oprForm restrictionOid joinOid c0 = (ERROR e, c0, []) /\
               sqlerrcode e = ERRCODE_INVALID_FUNCTION_DEFINITION) /\
  (forall oprId tup st r evr j evj,
     LookupOperWithArgs env (opername stmt) = OK oprId ->
     fetch_operator c oprId = Some tup ->
     foreach (AlterOperator_defel env) (options stmt) AlterOperator_init c = (OK st, c, []) ->
     pg_oper_ownercheck env oprId = true ->
     lookup_restriction_estimator env (alt_restrictionName st) c = (OK r, c, evr) ->
     lookup_join_estimator env (alt_joinName st) c = (OK j, c, evj) ->
     is_binary tup = false /\ OidIsValid j = true \/
     is_boolean tup = false /\ (OidIsValid r = true \/ OidIsValid j = true) ->
     exists e, outcome (AlterOperator env stmt c) = ERROR e /\
               sqlerrcode e = ERRCODE_INVALID_FUNCTION_DEFINITION /\
               final_catalog (AlterOperator env stmt c) = c) /\
  (forall addr,
     outcome (AlterOperator env stmt c) = OK addr ->
     exists oprId tup tup',
       LookupOperWithArgs env (opername stmt) = OK oprId /\
       fetch_operator c oprId = Some tup /\
       fetch_operator (final_catalog (AlterOperator env stmt c)) oprId = Some tup' /\
       oprleft tup' = oprleft tup /\ oprright tup' = oprright tup /\
       oprresult tup' = oprresult tup /\
       (I4 tup -> I4 tup') /\ (I5 tup -> I5 tup')).
Proof.
  assert (Hblock1 : forall oprForm restrictionOid joinOid c0,
             is_binary oprForm = false -> OidIsValid joinOid = true ->
             AlterOperator_checks oprForm restrictionOid joinOid c0
             = (ERROR OnlyBinaryJoinSelectivity, c0, [])).
  { intros oprForm r j c0 Hb Hj. rewrite AlterOperator_checks_spec, Hb, Hj. reflexivity. }
  assert (Hblock2 : forall oprForm restrictionOid joinOid c0,
             is_boolean oprForm = false ->
             OidIsValid restrictionOid = true \/ OidIsValid joinOid = true ->
             exists e, AlterOperator_checks oprForm restrictionOid joinOid c0 = (ERROR e, c0, []) /\
                       sqlerrcode e = ERRCODE_INVALID_FUNCTION_DEFINITION).
  { intros oprForm r j c0 Hb Hv. rewrite AlterOperator_checks_spec, Hb.
    destruct (is_binary oprForm), (OidIsValid r) eqn:Vr, (OidIsValid j) eqn:Vj;
      cbn [negb andb]; eauto; destruct Hv; discriminate. }
  split; [| split; [| split]].
  - intros. split; [now apply Hblock1 | reflexivity].
  - exact Hblock2.
  - intros oprId tup st r evr j evj Hop Hf Hloop Hown Hr Hj Hshape.
    rewrite (AlterOperator_run env stmt c oprId tup st r evr j evj Hop Hf Hloop Hown Hr Hj).
    assert (He : exists e, AlterOperator_checks tup r j c = (ERROR e, c, []) /\
                           sqlerrcode e = ERRCODE_INVALID_FUNCTION_DEFINITION).
    { destruct Hshape as [[Hb Vj] | [Hb Hv]].
      - exists OnlyBinaryJoinSelectivity. split; [now apply Hblock1 | reflexivity].
      - now apply Hblock2. }
    destruct He as (e & He & Hcode). rewrite He. cbn. eauto.
  - intros addr Hok.
    destruct (AlterOperator_OK_new_row env stmt c addr Hok)
      as (oprId & tup & st & r & j & Hop & Hf & _ & Vr & Vj & Hc & _ & Hnew).
    exists oprId, tup, (mkHeapTuple (next_tid c) (t_data (AlterOperator_new_tuple tup st r j))).
    rewrite AlterOperator_checks_spec in Hc. cbn [outcome fst] in Hc.
    assert (Hleft : oprleft (mkHeapTuple (next_tid c) (t_data (AlterOperator_new_tuple tup st r j)))
                    = oprleft tup)
      by same_column.
    assert (Hres : oprresult (mkHeapTuple (next_tid c) (t_data (AlterOperator_new_tuple tup st r j)))
                   = oprresult tup)
      by same_column.
    assert (Hrest : oprrest (mkHeapTuple (next_tid c) (t_data (AlterOperator_new_tuple tup st r j)))
                    = oprrest (AlterOperator_new_tuple tup st r j)) by reflexivity.
    assert (Hjoin : oprjoin (mkHeapTuple (next_tid c) (t_data (AlterOperator_new_tuple tup st r j)))
                    = oprjoin (AlterOperator_new_tuple tup st r j)) by reflexivity.
    split; [exact Hop |]. split; [exact Hf |]. split; [exact Hnew |].
    split; [exact Hleft |]. split; [same_column |]. split; [exact Hres |]. split.
    + unfold I4. intros H4. rewrite Hres, Hrest, AlterOperator_new_tuple_oprrest.
      destruct (alt_updateRestriction st); [| exact H4].
      destruct (t_data tup !! _); [| discriminate]. intros V. rewrite V in Hc.
      unfold is_boolean in Hc.
      destruct (oprresult tup =? BOOLOID)%Z eqn:Eb; [now apply Z.eqb_eq |].
      destruct (is_binary tup), (OidIsValid j); discriminate.
    + unfold I5. intros H5. rewrite Hres, Hleft, Hjoin, AlterOperator_new_tuple_oprjoin.
      destruct (alt_updateJoin st); [| exact H5].
      destruct (t_data tup !! _); [| discriminate]. intros V. rewrite V in Hc.
      unfold is_boolean, is_binary in Hc. split.
      * destruct (oprresult tup =? BOOLOID)%Z eqn:Eb; [now apply Z.eqb_eq |].
        destruct (OidIsValid (oprleft tup) && OidIsValid (oprright tup)), (OidIsValid r);
          discriminate.
      * destruct (OidIsValid (oprleft tup)); [reflexivity | discriminate].
Qed.

Lemma AlterOperator_checks_stored_shape_witness :
  (exists e, outcome (AlterOperator demo_env
                        (mkAlterOperatorStmt (operator "@") [def "join" (type_arg "eqjoinsel")])
                        cat0) = ERROR e /\
             sqlerrcode e = ERRCODE_INVALID_FUNCTION_DEFINITION) /\
  (exists tup', fetch_operator
                  (final_catalog (AlterOperator demo_env
                     (mkAlterOperatorStmt (operator "===") [def "restrict" (type_arg "eqsel")])
                     cat0)) 9001%Z = Some tup' /\
                I4 tup' /\ I5 tup').
Proof.
  split.
  - destruct (AlterOperator_checks_stored_shape demo_env
                (mkAlterOperatorStmt (operator "@") [def "join" (type_arg "eqjoinsel")]) cat0)
      as (_ & _ & H & _).
    edestruct H as (e & He & Hcode & _); try reflexivity.
    + left. split; reflexivity.
    + exists e. auto.
  - destruct (AlterOperator_checks_stored_shape demo_env
                (mkAlterOperatorStmt (operator "===") [def "restrict" (type_arg "eqsel")]) cat0)
      as (_ & _ & _ & H).
    destruct (H (mkObjectAddress OperatorRelationId 9001%Z 0%Z) eq_refl)
      as (oprId & tup & tup' & Hop & Hf & Hnew & _ & _ & _ & H4 & H5).
    inversion Hop; subst oprId. inversion Hf; subst tup.
    exists tup'. split; [exact Hnew |]. split.
    + apply H4. intros _. reflexivity.
    + apply H5. intros _. split; reflexivity.
Defined.

(** ** Partial update *)

(** C7: a statement that succeeds writes one new version of the row of the
    operator.  Every column but [oprrest] and [oprjoin] is as it was;
    [oprrest] is as it was when no option is named [restrict], and [oprjoin]
    is as it was when none is named [join]; when the last [join] option is
    [NONE] the new [oprjoin] is [InvalidOid] (and likewise for [restrict]);
    and the rows of the other operators are the same row versions as
    before.  A statement that fails writes nothing. *)
Theorem AlterOperator_partial_update (env : Env) (stmt : AlterOperatorStmt) (c : Catalog) :
  (forall addr,
     outcome (AlterOperator env stmt c) = OK addr ->
     exists oprId tup tup',
       LookupOperWithArgs env (opername stmt) = OK oprId /\
       fetch_operator c oprId = Some tup /\
       fetch_operator (final_catalog (AlterOperator env stmt c)) oprId = Some tup' /\
       (forall i, i <> Anum_pg_operator_oprrest - 1 -> i <> Anum_pg_operator_oprjoin - 1 ->
                  t_data tup' !! i = t_data tup !! i) /\
       (Forall (fun d => defname d <> "restrict"%string) (options stmt) ->
        t_data tup' !! (Anum_pg_operator_oprrest - 1)
        = t_data tup !! (Anum_pg_operator_oprrest - 1)) /\
       (Forall (fun d => defname d <> "join"%string) (options stmt) ->
        t_data tup' !! (Anum_pg_operator_oprjoin - 1)
        = t_data tup !! (Anum_pg_operator_oprjoin - 1)) /\
       (forall before after,
          options stmt = before ++ mkDefElem "join" None :: after ->
          Forall (fun d => defname d <> "join"%string) after ->
          oprjoin tup' = InvalidOid) /\
       (forall before after,
          options stmt = before ++ mkDefElem "restrict" None :: after ->
          Forall (fun d => defname d <> "restrict"%string) after ->
          oprrest tup' = InvalidOid) /\
       (forall other, In other (pg_operator c) -> t_self other <> t_self tup ->
                      In other (pg_operator (final_catalog (AlterOperator env stmt c)))) /\
       length (pg_operator (final_catalog (AlterOperator env stmt c)))
       = length (pg_operator c)) /\
  (forall e,
     outcome (AlterOperator env stmt c) = ERROR e ->
     final_catalog (AlterOperator env stmt c) = c).
Proof.
  split; [| intros e; apply AlterOperator_ERROR_catalog].
  intros addr Hok.
  destruct (AlterOperator_OK_new_row env stmt c addr Hok)
    as (oprId & tup & st & r & j & Hop & Hf & [evs Hloop] & Vr & Vj & Hc & Hfinal & Hnew).
  exists oprId, tup, (mkHeapTuple (next_tid c) (t_data (AlterOperator_new_tuple tup st r j))).
  split; [exact Hop |]. split; [exact Hf |]. split; [exact Hnew |].
  cbn [t_data]. repeat split.
  - intros i H1 H2. rewrite AlterOperator_new_tuple_lookup.
    apply Nat.eqb_neq in H1, H2. now rewrite H1, H2.
  - intros Hno.
    destruct (foreach_AlterOperator_defel_no_restrict env _ Hno _ _ _ _ _ Hloop) as [Hu _].
    rewrite AlterOperator_new_tuple_lookup, Hu. cbn [AlterOperator_init alt_updateRestriction].
    rewrite andb_false_r. reflexivity.
  - intros Hno.
    destruct (foreach_AlterOperator_defel_no_join env _ Hno _ _ _ _ _ Hloop) as [Hu _].
    rewrite AlterOperator_new_tuple_lookup, Hu. cbn [AlterOperator_init alt_updateJoin].
    rewrite andb_false_r. reflexivity.
  - intros before after Hopt Hafter. rewrite Hopt in Hloop.
    destruct (foreach_AlterOperator_defel_join_none env _ _ _ _ _ _ _ Hloop Hafter) as [Hu Hn].
    rewrite Hn in Vj. cbn in Vj.
    change (oprjoin (mkHeapTuple (next_tid c) (t_data (AlterOperator_new_tuple tup st r j))))
      with (oprjoin (AlterOperator_new_tuple tup st r j)).
    rewrite AlterOperator_new_tuple_oprjoin, Hu.
    destruct (t_data tup !! _); [| reflexivity].
    unfold OidIsValid in Vj. apply negb_false_iff, Z.eqb_eq in Vj. exact Vj.
  - intros before after Hopt Hafter. rewrite Hopt in Hloop.
    destruct (foreach_AlterOperator_defel_restrict_none env _ _ _ _ _ _ _ Hloop Hafter)
      as [Hu Hn].
    rewrite Hn in Vr. cbn in Vr.
    change (oprrest (mkHeapTuple (next_tid c) (t_data (AlterOperator_new_tuple tup st r j))))
      with (oprrest (AlterOperator_new_tuple tup st r j)).
    rewrite AlterOperator_new_tuple_oprrest, Hu.
    destruct (t_data tup !! _); [| reflexivity].
    unfold OidIsValid in Vr. apply negb_false_iff, Z.eqb_eq in Vr. exact Vr.
  - intros other Hin Hne. rewrite Hfinal. now apply catalog_update_other_rows.
  - rewrite Hfinal. unfold catalog_update. cbn [pg_operator]. apply length_map.
Qed.

Lemma AlterOperator_partial_update_witness :
  exists tup',
    fetch_operator
      (final_catalog (AlterOperator demo_env
                        (mkAlterOperatorStmt (operator "===") [def_none "join"]) cat0))
      9001%Z = Some tup' /\
    oprjoin tup' = InvalidOid /\ oprrest tup' = 101%Z /\
    oprcom tup' = 9001%Z /\ oprnegate tup' = 9002%Z.
Proof.
  destruct (AlterOperator_partial_update demo_env
              (mkAlterOperatorStmt (operator "===") [def_none "join"]) cat0) as [Hok _].
  destruct (Hok (mkObjectAddress OperatorRelationId 9001%Z 0%Z) eq_refl)
    as (oprId & tup & tup' & Hop & Hf & Hnew & Hframe & Hrest & _ & Hjoin & _).
  inversion Hop; subst oprId. inversion Hf; subst tup.
  exists tup'. split; [exact Hnew |]. split; [| split; [| split]].
  - apply (Hjoin [] []); [reflexivity | constructor].
  - unfold oprrest, heap_getattr. rewrite Hrest; [reflexivity |].
    constructor; [discriminate | constructor].
  - unfold oprcom, heap_getattr. rewrite Hframe; [reflexivity | discriminate | discriminate].
  - unfold oprnegate, heap_getattr. rewrite Hframe; [reflexivity | discriminate | discriminate].
Defined.

(** ** Clearing an estimator *)

(** A statement that only clears: every option is [restrict] or [join]
    with [NONE]. *)
Lemma foreach_AlterOperator_defel_clearing (env : Env) (l : list DefElem) :
  Forall (fun d => AlterOperator_alterable (defname d) = true /\ arg d = None) l ->
  forall st, alt_restrictionName st = [] -> alt_joinName st = [] ->
  exists st',
    (forall c, foreach (AlterOperator_defel env) l st c = (OK st', c, [])) /\
    alt_restrictionName st' = [] /\ alt_joinName st' = [] /\
    alt_updateRestriction st' = alt_updateRestriction st || existsb (names_option "restrict") l /\
    alt_updateJoin st' = alt_updateJoin st || existsb (names_option "join") l.
Proof.
  induction 1 as [| d rest [Ha Hn] _ IH]; intros st Hr Hj.
  - exists st. cbn. rewrite !orb_false_r. auto.
  - unfold AlterOperator_alterable in Ha. cbn [foreach existsb].
    change (names_option "restrict" d) with (defname d =? "restrict")%string.
    change (names_option "join" d) with (defname d =? "join")%string.
    destruct (defname d =? "restrict")%string eqn:E1.
    + destruct (IH (mkAlterLocals [] true (alt_joinName st) (alt_updateJoin st)) eq_refl Hj)
        as (st' & Hrun & H1 & H2 & H3 & H4).
      exists st'. cbn in H3, H4. repeat split; auto.
      * intros c. unfold AlterOperator_defel at 1. rewrite Hn, E1. run. apply Hrun.
      * rewrite H3. now rewrite orb_true_r.
      * rewrite H4. destruct (defname d =? "join")%string eqn:E2; [| reflexivity].
        apply String.eqb_eq in E1, E2. congruence.
    + cbn [orb] in Ha. rewrite Ha.
      destruct (IH (mkAlterLocals (alt_restrictionName st) (alt_updateRestriction st) [] true)
                  Hr eq_refl) as (st' & Hrun & H1 & H2 & H3 & H4).
      exists st'. cbn in H3, H4. repeat split; auto.
      * intros c. unfold AlterOperator_defel at 1. rewrite Hn, E1, Ha. run. apply Hrun.
      * rewrite H4. now rewrite orb_true_r.
Qed.

(** C9: with [NONE] for an estimator the look-up gives [InvalidOid], and
    the checks on the stored row have nothing to say about that estimator:
    they pass when both are cleared, and never raise the errors about join
    selectivity when [join] is cleared, nor the one about restriction
    selectivity when [restrict] is cleared.  So a statement of the owner
    that only clears succeeds on an operator of any shape, and the cleared
    fields of the new row are [InvalidOid]. *)
Theorem AlterOperator_clearing_skips_shape_checks (env : Env) (stmt : AlterOperatorStmt)
    (c : Catalog) :
  (forall c0, lookup_restriction_estimator env [] c0 = (OK InvalidOid, c0, []) /\
              lookup_join_estimator env [] c0 = (OK InvalidOid, c0, [])) /\
  (forall oprForm c0, AlterOperator_checks oprForm InvalidOid InvalidOid c0 = (OK tt, c0, [])) /\
  (forall oprForm restrictionOid c0,
     outcome (AlterOperator_checks oprForm restrictionOid InvalidOid c0)
     <> ERROR OnlyBinaryJoinSelectivity /\
     outcome (AlterOperator_checks oprForm restrictionOid InvalidOid c0)
     <> ERROR OnlyBooleanJoinSelectivity) /\
  (forall oprForm joinOid c0,
     outcome (AlterOperator_checks oprForm InvalidOid joinOid c0)
     <> ERROR OnlyBooleanRestrictionSelectivity) /\
  (forall oprId tup,
     LookupOperWithArgs env (opername stmt) = OK oprId ->
     fetch_operator c oprId = Some tup ->
     pg_oper_ownercheck env oprId = true ->
     Forall (fun d => AlterOperator_alterable (defname d) = true /\ arg d = None) (options stmt) ->
     exists addr tup',
       outcome (AlterOperator env stmt c) = OK addr /\
       fetch_operator (final_catalog (AlterOperator env stmt c)) oprId = Some tup' /\
       (existsb (names_option "join") (options stmt) = true -> oprjoin tup' = InvalidOid) /\
       (existsb (names_option "restrict") (options stmt) = true -> oprrest tup' = InvalidOid)).
Proof.
  split; [| split; [| split; [| split]]].
  - intros c0. split; reflexivity.
  - intros oprForm c0. rewrite AlterOperator_checks_spec.
    rewrite OidIsValid_InvalidOid, !andb_false_r. reflexivity.
  - intros oprForm r c0. rewrite AlterOperator_checks_spec.
    rewrite OidIsValid_InvalidOid, !andb_false_r. cbn [outcome fst].
    destruct (negb (is_boolean oprForm) && OidIsValid r); split; discriminate.
  - intros oprForm j c0. rewrite AlterOperator_checks_spec.
    rewrite OidIsValid_InvalidOid, !andb_false_r. cbn [outcome fst].
    destruct (negb (is_binary oprForm) && OidIsValid j);
      [| destruct (negb (is_boolean oprForm) && OidIsValid j)]; discriminate.
  - intros oprId tup Hop Hf Hown Hclear.
    destruct (foreach_AlterOperator_defel_clearing env _ Hclear AlterOperator_init eq_refl eq_refl)
      as (st & Hloop & Hr & Hj & Hur & Huj).
    assert (Hrun : AlterOperator env stmt c
                   = (OK (makeOperatorDependencies env
                            (t_data (AlterOperator_new_tuple tup st InvalidOid InvalidOid)) true),
                      catalog_update c (t_self tup)
                        (t_data (AlterOperator_new_tuple tup st InvalidOid InvalidOid)),
                      [EvSearchSysCache oprId;
                       EvCatalogTupleUpdate (t_self tup)
                         (t_data (AlterOperator_new_tuple tup st InvalidOid InvalidOid));
                       EvMakeOperatorDependencies
                         (t_data (AlterOperator_new_tuple tup st InvalidOid InvalidOid)) true;
                       EvInvokeObjectPostAlterHook OperatorRelationId oprId])).
    { rewrite (AlterOperator_run env stmt c oprId tup st InvalidOid [] InvalidOid []
                 Hop Hf (Hloop c) Hown).
      - rewrite AlterOperator_checks_spec, OidIsValid_InvalidOid, !andb_false_r. reflexivity.
      - rewrite Hr. reflexivity.
      - rewrite Hj. reflexivity. }
    do 2 eexists. split; [rewrite Hrun; reflexivity |]. split; [| split].
    + rewrite Hrun. cbn [final_catalog fst snd].
      apply fetch_operator_catalog_update; [exact Hf |].
      apply fetch_operator_Some in Hf. destruct Hf as [_ Hoid]. rewrite <- Hoid.
      same_column.
    + intros Hex. cbn [AlterOperator_init alt_updateJoin orb] in Huj. rewrite Hex in Huj.
      change (oprjoin (mkHeapTuple (next_tid c)
                         (t_data (AlterOperator_new_tuple tup st InvalidOid InvalidOid))))
        with (oprjoin (AlterOperator_new_tuple tup st InvalidOid InvalidOid)).
      rewrite AlterOperator_new_tuple_oprjoin, Huj. destruct (t_data tup !! _); reflexivity.
    + intros Hex. cbn [AlterOperator_init alt_updateRestriction orb] in Hur. rewrite Hex in Hur.
      change (oprrest (mkHeapTuple (next_tid c)
                         (t_data (AlterOperator_new_tuple tup st InvalidOid InvalidOid))))
        with (oprrest (AlterOperator_new_tuple tup st InvalidOid InvalidOid)).
      rewrite AlterOperator_new_tuple_oprrest, Hur. destruct (t_data tup !! _); reflexivity.
Qed.

Lemma AlterOperator_clearing_skips_shape_checks_witness :
  is_binary (mkHeapTuple 3 (operator_row 9003 "@" InvalidOid INT4OID INT4OID 0 0 212 0 0)) = false /\
  is_boolean (mkHeapTuple 3 (operator_row 9003 "@" InvalidOid INT4OID INT4OID 0 0 212 0 0)) = false /\
  exists addr,
    outcome (AlterOperator demo_env
               (mkAlterOperatorStmt (operator "@") [def_none "join"; def_none "restrict"]) cat0)
    = OK addr.
Proof.
  split; [reflexivity |]. split; [reflexivity |].
  destruct (AlterOperator_clearing_skips_shape_checks demo_env
              (mkAlterOperatorStmt (operator "@") [def_none "join"; def_none "restrict"]) cat0)
    as (_ & _ & _ & _ & H).
  destruct (H 9003%Z (mkHeapTuple 3 (operator_row 9003 "@" InvalidOid INT4OID INT4OID 0 0 212 0 0))
              eq_refl eq_refl eq_refl) as (addr & tup' & Hok & _).
  - repeat constructor.
  - exists addr. exact Hok.
Defined.

(** ** The loop over the definition list: the last assignment counts *)

Lemma same_value_refl v s : same_value v s s.
Proof. destruct v; reflexivity. Qed.

Lemma same_value_trans v s1 s2 s3 : same_value v s1 s2 -> same_value v s2 s3 -> same_value v s1 s3.
Proof. destruct v; cbn; congruence. Qed.

Ltac defel_collaborators env defel :=
  try (destruct (defGetTypeName env defel) as [? | ?]; run;
       [match goal with |- context [setof ?t] => destruct (setof t) end; run |]);
  try (destruct (defGetQualifiedName env defel) as [? | ?]; run);
  try (destruct (defGetBoolean env defel) as [? | ?]; run).

(** One attribute leaves alone every variable but the one of its branch. *)
Lemma DefineOperator_defel_frame (env : Env) (defel : DefElem) st c st' c' evs v :
  DefineOperator_defel env defel st c = (OK st', c', evs) ->
  assigned_variable (defname defel) <> Some v ->
  same_value v st' st.
Proof.
  unfold DefineOperator_defel, assigned_variable, ereport_WARNING.
  string_cases; defel_collaborators env defel;
    intros H Hv; inversion H; subst; destruct v; cbn; try reflexivity; congruence.
Qed.


Lemma foreach_DefineOperator_defel_frame (env : Env) (l : list DefElem) v :
  Forall (fun d => assigned_variable (defname d) <> Some v) l ->
  forall st c st' c' evs,
    foreach (DefineOperator_defel env) l st c = (OK st', c', evs) -> same_value v st' st.
Proof.
  induction 1 as [| d rest Hd _ IH]; intros st c st' c' evs Hrun; cbn [foreach] in Hrun.
  - inversion Hrun; subst. apply same_value_refl.
  - apply bind_OK_inv in Hrun. destruct Hrun as (st1 & c1 & evs1 & evs2 & H1 & H2 & _).
    eapply same_value_trans; [eapply IH; eassumption |].
    eapply DefineOperator_defel_frame; eassumption.
Qed.



(** ** The arity of the function look-up *)

Lemma emits_ret {A} P (a : A) : emits P (ret a).
Proof. intros c. constructor. Qed.

Lemma emits_raise {A} P (e : Error) : emits P (@ereport_ERROR A e).
Proof. intros c. constructor. Qed.

Lemma emits_lift {A} P (r : Res A) : emits P (lift r).
Proof. intros c. constructor. Qed.

Lemma emits_call {A} P (f : Catalog -> Res A * Catalog) : emits P (call f).
Proof. intros c. constructor. Qed.

Lemma emits_emit P ev : P ev -> emits P (emit ev).
Proof. intros H c. repeat constructor. exact H. Qed.

Lemma emits_bind {A B} P (m : M A) (k : A -> M B) :
  emits P m -> (forall a, emits P (k a)) -> emits P (bind m k).
Proof.
  intros Hm Hk c. specialize (Hm c). unfold bind.
  destruct (m c) as [[[a | e] c1] evs1]; cbn in *; [| exact Hm].
  specialize (Hk a c1). destruct (k a c1) as [[r c2] evs2]. cbn in *.
  apply Forall_app. auto.
Qed.

Lemma emits_foreach {A S} P (body : A -> S -> M S) (l : list A) :
  (forall x st, emits P (body x st)) -> forall st, emits P (foreach body l st).
Proof.
  intros Hb. induction l as [| x rest IH]; intros st; cbn [foreach].
  - apply emits_ret.
  - apply emits_bind; auto.
Qed.

Lemma LookupFuncName_emits (env : Env) (ok : nat -> Prop) funcname nargs argtypes missing_ok :
  ok nargs -> emits (lookup_arity ok) (LookupFuncName env funcname nargs argtypes missing_ok).
Proof.
  intros H. unfold LookupFuncName. apply emits_bind; [apply emits_emit; exact H |].
  intros _. cbv zeta. destruct (OidIsValid _); [apply emits_ret |].
  destruct missing_ok; [apply emits_ret | apply emits_raise].
Qed.

Lemma aclcheck_error_emits P aclresult objtype objectname :
  emits P (aclcheck_error aclresult objtype objectname).
Proof. unfold aclcheck_error. destruct aclresult; (apply emits_ret || apply emits_raise). Qed.

Lemma aclcheck_error_type_emits P aclresult typeOid :
  emits P (aclcheck_error_type aclresult typeOid).
Proof. unfold aclcheck_error_type. destruct aclresult; (apply emits_ret || apply emits_raise). Qed.

Ltac emits_steps :=
  repeat first
    [ apply emits_ret | apply emits_raise | apply emits_lift
    | apply LookupFuncName_emits
    | apply aclcheck_error_emits | apply aclcheck_error_type_emits
    | apply emits_emit; cbn; auto
    | apply emits_bind; [| intros ?]
    | progress cbv zeta
    | match goal with |- emits _ (if ?b then _ else _) => destruct b end
    | match goal with |- emits _ (match ?x with _ => _ end) => destruct x end ].

Lemma lookup_restriction_estimator_emits (env : Env) (restrictionName : list string) :
  emits (lookup_arity (fun n => n = 4)) (lookup_restriction_estimator env restrictionName).
Proof.
  unfold lookup_restriction_estimator, ValidateRestrictionEstimator. emits_steps; auto.
Qed.

Lemma lookup_join_estimator_emits (env : Env) (joinName : list string) :
  emits (lookup_arity (fun n => n = 4 \/ n = 5)) (lookup_join_estimator env joinName).
Proof.
  unfold lookup_join_estimator, ValidateJoinEstimator. emits_steps; auto.
Qed.

Lemma emits_weaken {A} (P Q : Event -> Prop) (m : M A) :
  (forall ev, P ev -> Q ev) -> emits P m -> emits Q m.
Proof. intros H Hm c. eapply List.Forall_impl; [exact H | apply Hm]. Qed.

Lemma lookup_arity_weaken (ok ok' : nat -> Prop) ev :
  (forall n, ok n -> ok' n) -> lookup_arity ok ev -> lookup_arity ok' ev.
Proof. intros H. destruct ev; cbn; auto. Qed.

Lemma DefineOperator_function_args_spec (typeId1 typeId2 : Oid) :
  OidIsValid typeId2 = true ->
  DefineOperator_function_args typeId1 typeId2
  = (present_operand_types typeId1 typeId2,
     if OidIsValid typeId1 then [typeId1; typeId2] else [typeId2]).
Proof.
  intros V2. unfold DefineOperator_function_args, present_operand_types. cbn [List.filter].
  rewrite V2. destruct (OidIsValid typeId1); reflexivity.
Qed.

Lemma DefineOperator_function_args_arity (typeId1 typeId2 : Oid) :
  (DefineOperator_function_args typeId1 typeId2).1 = 1 \/
  (DefineOperator_function_args typeId1 typeId2).1 = 2.
Proof.
  unfold DefineOperator_function_args.
  destruct (OidIsValid typeId1), (OidIsValid typeId2); cbn; auto.
Qed.

(** The first part of [DefineOperator] logs warnings only, leaves the
    catalog alone, and ends well only with a valid right operand type. *)
Lemma DefineOperator_resolve_run (env : Env) (names : list string) (parameters : list DefElem)
    (c : Catalog) :
  exists res done,
    DefineOperator_resolve env names parameters c = (res, c, map unrecognized_warning done) /\
    (forall r, res = OK r -> OidIsValid (typeId2 r) = true).
Proof.
  unfold DefineOperator_resolve.
  destruct (QualifiedNameGetCreationNamespace env names) as [nsp | e]; run.
  2: { exists (ERROR e), []. split; [reflexivity | discriminate]. }
  unfold aclcheck_error.
  destruct (pg_namespace_aclcheck env nsp.1 ACL_CREATE); run.
  2, 3: eexists _, []; split; [reflexivity | discriminate].
  destruct (foreach_DefineOperator_defel_recognized_only env parameters DefineOperator_init c)
    as ([st | e] & done & _ & Hloop & _).
  2: { rewrite (bind_ERROR _ _ _ _ _ _ Hloop). exists (ERROR e), done.
       split; [reflexivity | discriminate]. }
  rewrite (bind_OK _ _ _ _ _ _ Hloop).
  destruct (is_NIL (functionName st)); run.
  { eexists _, done. rewrite app_nil_r. split; [reflexivity | discriminate]. }
  destruct (DefineOperator_typeId env (typeName1 st)) as [id1 | e]; run.
  2: { eexists _, done. rewrite app_nil_r. split; [reflexivity | discriminate]. }
  destruct (DefineOperator_typeId env (typeName2 st)) as [id2 | e]; run.
  2: { eexists _, done. rewrite app_nil_r. split; [reflexivity | discriminate]. }
  unfold DefineOperator_check_types, aclcheck_error_type.
  destruct (OidIsValid id2) eqn:V2; destruct (OidIsValid id1) eqn:V1; cbn [negb andb]; run;
    try (eexists _, done; rewrite app_nil_r; split; [reflexivity | discriminate]).
  - destruct (typeName1 st); [destruct (pg_type_aclcheck env id1 ACL_USAGE) |]; run;
      (destruct (typeName2 st); [destruct (pg_type_aclcheck env id2 ACL_USAGE) |]); run;
      eexists _, done; rewrite app_nil_r;
      (split; [reflexivity | intros r Hr; inversion Hr; subst; try discriminate; exact V2]).
  - destruct (typeName1 st); [destruct (pg_type_aclcheck env id1 ACL_USAGE) |]; run;
      (destruct (typeName2 st); [destruct (pg_type_aclcheck env id2 ACL_USAGE) |]); run;
      eexists _, done; rewrite app_nil_r;
      (split; [reflexivity | intros r Hr; inversion Hr; subst; try discriminate; exact V2]).
Qed.

Lemma unrecognized_warning_lookup_arity ok (done : list DefElem) :
  Forall (lookup_arity ok) (map unrecognized_warning done).
Proof. induction done as [| d rest IH]; cbn [map]; constructor; [exact I | exact IH]. Qed.

Lemma DefineOperator_create_events (env : Env) (r : DefineOperator_resolved) (c : Catalog) :
  exists rest,
    events (DefineOperator_create env r c)
    = EvLookupFuncName (functionName (locals r))
        (DefineOperator_function_args (typeId1 r) (typeId2 r)).1
        (DefineOperator_function_args (typeId1 r) (typeId2 r)).2 false :: rest /\
    Forall (lookup_arity (fun n => n <> 0)) rest.
Proof.
  assert (Hall : emits (lookup_arity (fun n => n <> 0)) (DefineOperator_create env r)).
  { unfold DefineOperator_create. cbv zeta.
    apply emits_bind.
    { apply LookupFuncName_emits.
      destruct (DefineOperator_function_args_arity (typeId1 r) (typeId2 r)) as [-> | ->];
        discriminate. }
    intros functionOid. apply emits_bind; [apply aclcheck_error_emits |]. intros _.
    apply emits_bind; [apply aclcheck_error_type_emits |]. intros _.
    apply emits_bind.
    { eapply emits_weaken; [| apply lookup_restriction_estimator_emits].
      intros ev. apply lookup_arity_weaken. intros n ->. discriminate. }
    intros restrictionOid. apply emits_bind.
    { eapply emits_weaken; [| apply lookup_join_estimator_emits].
      intros ev. apply lookup_arity_weaken. intros n [-> | ->]; discriminate. }
    intros joinOid. apply emits_bind; [apply emits_emit; exact I | intros _; apply emits_call]. }
  specialize (Hall c). revert Hall.
  unfold DefineOperator_create, LookupFuncName. run. cbn [events snd].
  intros Hall. eexists. split; [reflexivity |]. now inversion Hall.
Qed.

Lemma unrecognized_warning_not_lookup (done : list DefElem) :
  Forall (fun ev => ~ is_lookup ev) (map unrecognized_warning done).
Proof. induction done as [| d rest IH]; cbn [map]; constructor; [intros [] | exact IH]. Qed.

(** The first look-up in a log is well defined. *)
Lemma first_lookup_unique (pre pre' post post' : list Event) (x x' : Event) :
  pre ++ x :: post = pre' ++ x' :: post' ->
  Forall (fun ev => ~ is_lookup ev) pre -> Forall (fun ev => ~ is_lookup ev) pre' ->
  is_lookup x -> is_lookup x' ->
  pre = pre' /\ x = x' /\ post = post'.
Proof.
  revert pre'. induction pre as [| a pre IH]; intros pre' Heq Hpre Hpre' Hx Hx'.
  - destruct pre' as [| a' pre'].
    + cbn in Heq. inversion Heq. auto.
    + cbn in Heq. inversion Heq; subst. inversion Hpre'; subst. contradiction.
  - destruct pre' as [| a' pre'].
    + cbn in Heq. inversion Heq; subst. inversion Hpre; subst. contradiction.
    + cbn in Heq. inversion Heq as [[Ha Hrest]]. subst a'.
      apply Forall_cons in Hpre, Hpre'. destruct Hpre as [_ Hpre]. destruct Hpre' as [_ Hpre'].
      destruct (IH pre' Hrest Hpre Hpre' Hx Hx') as (-> & -> & ->). auto.
Qed.

(** C8: when [DefineOperator] gets past the operand types (their checks and
    the permission to use them), no function has been looked up yet, the
    right operand type is valid, and the next thing logged is the look-up
    of the operator's function, which must exist, with as many argument
    types as operand types are present: one, the right operand type, when
    the left one is absent, and two, left then right, otherwise.  When it
    does not get that far it stops there, with no look-up.  So the first
    look-up of any run is that one, with that arity and those types, and no
    look-up of the whole command asks for zero arguments. *)
Theorem DefineOperator_function_lookup_arity (env : Env) (names : list string)
    (parameters : list DefElem) (c : Catalog) :
  (forall r c1 evs1,
     DefineOperator_resolve env names parameters c = (OK r, c1, evs1) ->
     OidIsValid (typeId2 r) = true /\
     Forall (fun ev => ~ is_lookup ev) evs1 /\
     (exists rest,
        events (DefineOperator env names parameters c)
        = evs1 ++ EvLookupFuncName (functionName (locals r))
                    (present_operand_types (typeId1 r) (typeId2 r))
                    (if OidIsValid (typeId1 r) then [typeId1 r; typeId2 r] else [typeId2 r])
                    false :: rest) /\
     (present_operand_types (typeId1 r) (typeId2 r) = 1 /\ OidIsValid (typeId1 r) = false \/
      present_operand_types (typeId1 r) (typeId2 r) = 2 /\ OidIsValid (typeId1 r) = true)) /\
  (forall e c1 evs1,
     DefineOperator_resolve env names parameters c = (ERROR e, c1, evs1) ->
     DefineOperator env names parameters c = (ERROR e, c1, evs1) /\
     Forall (fun ev => ~ is_lookup ev) evs1) /\
  (forall before funcname nargs argtypes missing_ok after,
     events (DefineOperator env names parameters c)
     = before ++ EvLookupFuncName funcname nargs argtypes missing_ok :: after ->
     Forall (fun ev => ~ is_lookup ev) before ->
     exists r,
       outcome (DefineOperator_resolve env names parameters c) = OK r /\
       funcname = functionName (locals r) /\
       nargs = present_operand_types (typeId1 r) (typeId2 r) /\
       (nargs = 1 \/ nargs = 2) /\
       argtypes = (if OidIsValid (typeId1 r) then [typeId1 r; typeId2 r] else [typeId2 r]) /\
       missing_ok = false) /\
  (forall funcname nargs argtypes missing_ok,
     In (EvLookupFuncName funcname nargs argtypes missing_ok)
        (events (DefineOperator env names parameters c)) ->
     nargs <> 0).
Proof.
  destruct (DefineOperator_resolve_run env names parameters c) as (res & done & Hres & Hvalid).
  assert (Hfirst : forall r, res = OK r ->
            OidIsValid (typeId2 r) = true /\
            exists rest,
              events (DefineOperator env names parameters c)
              = map unrecognized_warning done
                  ++ EvLookupFuncName (functionName (locals r))
                       (present_operand_types (typeId1 r) (typeId2 r))
                       (if OidIsValid (typeId1 r) then [typeId1 r; typeId2 r] else [typeId2 r])
                       false :: rest).
  { intros r ->. pose proof (Hvalid r eq_refl) as V2. split; [exact V2 |].
    destruct (DefineOperator_create_events env r c) as (rest & Hev & _).
    exists rest. unfold DefineOperator. rewrite (bind_OK _ _ _ _ _ _ Hres). cbn [events snd].
    fold (events (DefineOperator_create env r c)). rewrite Hev.
    now rewrite (DefineOperator_function_args_spec _ _ V2). }
  assert (Hcount : forall r, OidIsValid (typeId2 r) = true ->
            present_operand_types (typeId1 r) (typeId2 r) = 1 /\ OidIsValid (typeId1 r) = false \/
            present_operand_types (typeId1 r) (typeId2 r) = 2 /\ OidIsValid (typeId1 r) = true).
  { intros r V2. unfold present_operand_types. cbn [List.filter]. rewrite V2.
    destruct (OidIsValid (typeId1 r)); cbn; auto. }
  split; [| split; [| split]].
  3: { intros before funcname nargs argtypes missing_ok after Hev Hbefore.
       destruct res as [r | e].
       - destruct (Hfirst r eq_refl) as (V2 & rest & Hev').
         rewrite Hev' in Hev.
         destruct (first_lookup_unique _ _ _ _ _ _ Hev
                     (unrecognized_warning_not_lookup done) Hbefore I I) as (_ & Hx & _).
         inversion Hx; subst. exists r. rewrite Hres. repeat split; auto.
         destruct (Hcount r V2) as [[-> _] | [-> _]]; auto.
       - exfalso. unfold DefineOperator in Hev. rewrite (bind_ERROR _ _ _ _ _ _ Hres) in Hev.
         cbn [events snd] in Hev.
         pose proof (unrecognized_warning_not_lookup done) as Hno. rewrite Hev in Hno.
         apply Forall_app in Hno. destruct Hno as [_ Hno]. inversion Hno; subst.
         apply H1. exact I. }
  - intros r c1 evs1 H. rewrite Hres in H. inversion H; subst res c1 evs1.
    destruct (Hfirst r eq_refl) as (V2 & Hrest).
    split; [exact V2 |]. split; [apply unrecognized_warning_not_lookup |].
    split; [exact Hrest | exact (Hcount r V2)].
  - intros e c1 evs1 H. rewrite Hres in H. inversion H; subst res c1 evs1.
    split; [| apply unrecognized_warning_not_lookup].
    unfold DefineOperator. now rewrite (bind_ERROR _ _ _ _ _ _ Hres).
  - intros funcname nargs argtypes missing_ok Hin.
    assert (Hall : Forall (lookup_arity (fun n => n <> 0))
                     (events (DefineOperator env names parameters c))).
    { unfold DefineOperator. destruct res as [r | e].
      - rewrite (bind_OK _ _ _ _ _ _ Hres). cbn [events snd].
        apply Forall_app. split; [apply unrecognized_warning_lookup_arity |].
        destruct (DefineOperator_create_events env r c) as (rest & Hev & Hrest).
        fold (events (DefineOperator_create env r c)). rewrite Hev. constructor; [| exact Hrest].
        cbn. destruct (DefineOperator_function_args_arity (typeId1 r) (typeId2 r)) as [-> | ->];
          discriminate.
      - rewrite (bind_ERROR _ _ _ _ _ _ Hres). apply unrecognized_warning_lookup_arity. }
    rewrite List.Forall_forall in Hall. exact (Hall _ Hin).
Qed.

Lemma DefineOperator_function_lookup_arity_witness :
  events (DefineOperator demo_env ["myop"%string]
            [def "function" (type_arg "int4um"); def "rightarg" (type_arg "int4")] cat0)
  = [EvLookupFuncName ["int4um"%string] 1 [INT4OID] false;
     EvOperatorCreate (mkOperatorCreateArgs "myop" 2200 InvalidOid INT4OID 212 [] [] 0 0 false false)] /\
  exists rest,
    events (DefineOperator demo_env ["myop"%string]
              [def "function" (type_arg "int4pl"); def "leftarg" (type_arg "int4");
               def "rightarg" (type_arg "int4")] cat0)
    = EvLookupFuncName ["int4pl"%string] 2 [INT4OID; INT4OID] false :: rest.
Proof.
  split; [reflexivity |].
  destruct (DefineOperator_function_lookup_arity demo_env ["myop"%string]
              [def "function" (type_arg "int4pl"); def "leftarg" (type_arg "int4");
               def "rightarg" (type_arg "int4")] cat0) as (H & _).
  destruct (H _ _ _ eq_refl) as (_ & _ & [rest Hev] & _).
  exists rest. exact Hev.
Defined.

(** ** Dropping an operator *)

(** A log without a delete cannot be cut at a delete; a log whose only
    delete is its last event is cut there. *)
Lemma no_delete_no_split (l before after : list Event) (otid : TID) :
  Forall (fun ev => ~ is_delete ev) l -> l = before ++ EvCatalogTupleDelete otid :: after -> False.
Proof.
  intros Hl ->. apply Forall_app in Hl. destruct Hl as [_ Hl].
  apply Forall_cons in Hl. destruct Hl as [Hl _]. apply Hl. exact I.
Qed.

Lemma delete_is_last (pre before after : list Event) (otid otid' : TID) :
  pre ++ [EvCatalogTupleDelete otid] = before ++ EvCatalogTupleDelete otid' :: after ->
  Forall (fun ev => ~ is_delete ev) pre ->
  after = [] /\ before = pre /\ otid' = otid.
Proof.
  revert before. induction pre as [| a pre IH]; intros before Heq Hpre.
  - destruct before as [| b before]; cbn in Heq.
    + inversion Heq. auto.
    + inversion Heq as [[Hb Hrest]]. destruct before; discriminate.
  - apply Forall_cons in Hpre. destruct Hpre as [Ha Hpre].
    destruct before as [| b before]; cbn in Heq.
    + inversion Heq as [[Hb Hrest]]. subst a. exfalso. apply Ha. exact I.
    + inversion Heq as [[Hb Hrest]]. subst b.
      destruct (IH before Hrest Hpre) as (-> & -> & ->). auto.
Qed.

Lemma catalog_delete_not_live (c : Catalog) (otid : TID) :
  tid_live (catalog_delete c otid) otid = false.
Proof.
  unfold tid_live, catalog_delete. cbn [pg_operator].
  induction (pg_operator c) as [| h rest IH]; [reflexivity |].
  cbn [List.filter]. destruct (Nat.eqb (t_self h) otid) eqn:E; cbn [negb existsb].
  - exact IH.
  - rewrite E. exact IH.
Qed.

(** C2: [RemoveOperatorById] fetches the row and fails with an internal
    error when there is none.  With a commutator or a negator set it first
    has [OperatorUpd] clear the links back, and only then deletes: when the
    operator is its own commutator or negator it fetches the row again
    after [OperatorUpd], fails with the internal error when there is none,
    and otherwise deletes the row version it has just fetched, which is a
    live one, so that this delete is never turned down as stale and leaves
    no version at that place; when it is not, and when no link is set, it
    deletes the row version of the first fetch.  In every run the delete,
    if there is one, is the last event, and with a link set the call of
    [OperatorUpd] comes before it. *)
Theorem RemoveOperatorById_protocol (env : Env) (operOid : Oid) (c : Catalog) :
  (fetch_operator c operOid = None ->
   RemoveOperatorById env operOid c
   = (ERROR (CacheLookupFailed operOid), c, [EvSearchSysCache operOid]) /\
   sqlerrcode (CacheLookupFailed operOid) = ERRCODE_INTERNAL_ERROR) /\
  (forall op,
     fetch_operator c operOid = Some op ->
     let c1 := OperatorUpd env operOid (oprcom op) (oprnegate op) true c in
     let upd := EvOperatorUpd operOid (oprcom op) (oprnegate op) true in
     (has_links op = true -> links_to_self operOid op = true ->
      (fetch_operator c1 operOid = None ->
       RemoveOperatorById env operOid c
       = (ERROR (CacheLookupFailed operOid), c1,
          [EvSearchSysCache operOid; upd; EvSearchSysCache operOid])) /\
      (forall tup,
         fetch_operator c1 operOid = Some tup ->
         RemoveOperatorById env operOid c
         = (OK tt, catalog_delete c1 (t_self tup),
            [EvSearchSysCache operOid; upd; EvSearchSysCache operOid;
             EvCatalogTupleDelete (t_self tup)]) /\
         tid_live c1 (t_self tup) = true /\
         tid_live (final_catalog (RemoveOperatorById env operOid c)) (t_self tup) = false) /\
      (forall otid, outcome (RemoveOperatorById env operOid c) <> ERROR (TupleAlreadyUpdated otid))) /\
     (has_links op = true -> links_to_self operOid op = false ->
      events (RemoveOperatorById env operOid c)
      = [EvSearchSysCache operOid; upd; EvCatalogTupleDelete (t_self op)] /\
      (tid_live c1 (t_self op) = true ->
       outcome (RemoveOperatorById env operOid c) = OK tt /\
       final_catalog (RemoveOperatorById env operOid c) = catalog_delete c1 (t_self op))) /\
     (has_links op = false ->
      RemoveOperatorById env operOid c
      = (OK tt, catalog_delete c (t_self op),
         [EvSearchSysCache operOid; EvCatalogTupleDelete (t_self op)]))) /\
  (forall before otid after,
     events (RemoveOperatorById env operOid c) = before ++ EvCatalogTupleDelete otid :: after ->
     after = [] /\
     Forall (fun ev => ~ is_delete ev) before /\
     (forall op, fetch_operator c operOid = Some op -> has_links op = true ->
                 In (EvOperatorUpd operOid (oprcom op) (oprnegate op) true) before)).
Proof.
  assert (Hevents :
            match fetch_operator c operOid with
            | None => events (RemoveOperatorById env operOid c) = [EvSearchSysCache operOid]
            | Some op =>
                let upd := EvOperatorUpd operOid (oprcom op) (oprnegate op) true in
                if has_links op
                then (if links_to_self operOid op
                      then events (RemoveOperatorById env operOid c)
                           = [EvSearchSysCache operOid; upd; EvSearchSysCache operOid] \/
                           exists otid,
                             events (RemoveOperatorById env operOid c)
                             = [EvSearchSysCache operOid; upd; EvSearchSysCache operOid;
                                EvCatalogTupleDelete otid]
                      else events (RemoveOperatorById env operOid c)
                           = [EvSearchSysCache operOid; upd; EvCatalogTupleDelete (t_self op)])
                else events (RemoveOperatorById env operOid c)
                     = [EvSearchSysCache operOid; EvCatalogTupleDelete (t_self op)]
            end).
  { unfold RemoveOperatorById, SearchSysCache1, CatalogTupleDelete, has_links, links_to_self.
    run. destruct (fetch_operator c operOid) as [op |] eqn:Hf; run; [| reflexivity].
    cbv zeta. destruct (OidIsValid (oprcom op) || OidIsValid (oprnegate op)); run.
    - destruct ((operOid =? oprcom op)%Z || (operOid =? oprnegate op)%Z); run.
      + destruct (fetch_operator (OperatorUpd env operOid (oprcom op) (oprnegate op) true c)
                    operOid) as [tup |] eqn:Hf1; run; [| left; reflexivity].
        right. exists (t_self tup). destruct (tid_live _ (t_self tup)); run; reflexivity.
      + destruct (tid_live _ (t_self op)); run; reflexivity.
    - destruct (tid_live _ (t_self op)); run; reflexivity. }
  split; [| split].
  3: { intros before otid after Hev.
       destruct (fetch_operator c operOid) as [op |] eqn:Hf.
       - cbv zeta in Hevents.
         assert (Hop : forall op', Some op = Some op' -> op' = op) by (intros ? H; now inversion H).
         destruct (has_links op) eqn:Hl; [destruct (links_to_self operOid op) |].
         + destruct Hevents as [He | [tid He]]; rewrite He in Hev.
           * exfalso. revert Hev. apply no_delete_no_split.
             repeat (constructor; [intros [] |]). constructor.
           * apply (delete_is_last [_; _; _]) in Hev;
               [| repeat (constructor; [intros [] |]); constructor].
             destruct Hev as (-> & -> & _). split; [reflexivity |]. split.
             -- repeat (constructor; [intros [] |]). constructor.
             -- intros op' Hop' _. apply Hop in Hop'. subst op'. right. left. reflexivity.
         + rewrite Hevents in Hev. apply (delete_is_last [_; _]) in Hev;
             [| repeat (constructor; [intros [] |]); constructor].
           destruct Hev as (-> & -> & _). split; [reflexivity |]. split.
           * repeat (constructor; [intros [] |]). constructor.
           * intros op' Hop' _. apply Hop in Hop'. subst op'. right. left. reflexivity.
         + rewrite Hevents in Hev. apply (delete_is_last [_]) in Hev;
             [| repeat (constructor; [intros [] |]); constructor].
           destruct Hev as (-> & -> & _). split; [reflexivity |]. split.
           * repeat (constructor; [intros [] |]). constructor.
           * intros op' Hop' Hl'. apply Hop in Hop'. subst op'. congruence.
       - exfalso. rewrite Hevents in Hev. revert Hev. apply no_delete_no_split.
         repeat (constructor; [intros [] |]). constructor. }
  - intros Hf. split; [| reflexivity].
    unfold RemoveOperatorById, SearchSysCache1. run. rewrite Hf. run. reflexivity.
  - intros op Hf c1 upd. subst upd.
    unfold has_links, links_to_self.
    split; [| split].
    + intros Hl Hs.
      assert (Hnone : fetch_operator c1 operOid = None ->
                      RemoveOperatorById env operOid c
                      = (ERROR (CacheLookupFailed operOid), c1,
                         [EvSearchSysCache operOid;
                          EvOperatorUpd operOid (oprcom op) (oprnegate op) true;
                          EvSearchSysCache operOid])).
      { intros Hf1. unfold RemoveOperatorById, SearchSysCache1. run. rewrite Hf. run.
        rewrite Hl. run. rewrite Hs. run. fold c1. rewrite Hf1. run. reflexivity. }
      assert (Hsome : forall tup, fetch_operator c1 operOid = Some tup ->
                      RemoveOperatorById env operOid c
                      = (OK tt, catalog_delete c1 (t_self tup),
                         [EvSearchSysCache operOid;
                          EvOperatorUpd operOid (oprcom op) (oprnegate op) true;
                          EvSearchSysCache operOid; EvCatalogTupleDelete (t_self tup)])).
      { intros tup Hf1. unfold RemoveOperatorById, SearchSysCache1, CatalogTupleDelete. run.
        rewrite Hf. run. rewrite Hl. run. rewrite Hs. run. fold c1. rewrite Hf1. run.
        rewrite (fetch_operator_live c1 operOid tup Hf1). run. reflexivity. }
      split; [exact Hnone |]. split.
      * intros tup Hf1. split; [now apply Hsome |].
        split; [now apply (fetch_operator_live c1 operOid) |].
        rewrite (Hsome tup Hf1). apply catalog_delete_not_live.
      * intros otid. destruct (fetch_operator c1 operOid) as [tup |] eqn:Hf1.
        -- rewrite (Hsome tup eq_refl). discriminate.
        -- rewrite (Hnone eq_refl). discriminate.
    + intros Hl Hs. unfold RemoveOperatorById, SearchSysCache1, CatalogTupleDelete. run.
      rewrite Hf. run. rewrite Hl. run. rewrite Hs. run. fold c1.
      destruct (tid_live c1 (t_self op)) eqn:L; run.
      * split; [reflexivity |]. intros _. split; reflexivity.
      * split; [reflexivity |]. discriminate.
    + intros Hl. unfold RemoveOperatorById, SearchSysCache1, CatalogTupleDelete. run.
      rewrite Hf. run. rewrite Hl. run.
      rewrite (fetch_operator_live c operOid op Hf). run. reflexivity.
Qed.

Lemma RemoveOperatorById_protocol_witness :
  RemoveOperatorById demo_env 9001%Z cat0
  = (OK tt,
     catalog_delete (OperatorUpd_model 9001%Z 9001%Z 9002%Z true cat0) 7,
     [EvSearchSysCache 9001%Z; EvOperatorUpd 9001%Z 9001%Z 9002%Z true;
      EvSearchSysCache 9001%Z; EvCatalogTupleDelete 7]) /\
  RemoveOperatorById demo_env 9004%Z cat0
  = (OK tt, catalog_delete cat0 4, [EvSearchSysCache 9004%Z; EvCatalogTupleDelete 4]) /\
  RemoveOperatorById demo_env 9009%Z cat0
  = (ERROR (CacheLookupFailed 9009%Z), cat0, [EvSearchSysCache 9009%Z]).
Proof.
  destruct (RemoveOperatorById_protocol demo_env 9001%Z cat0) as (_ & H1 & _).
  destruct (RemoveOperatorById_protocol demo_env 9004%Z cat0) as (_ & H4 & _).
  destruct (RemoveOperatorById_protocol demo_env 9009%Z cat0) as (H9 & _).
  split; [| split].
  - destruct (H1 _ eq_refl) as [Hself _]. destruct (Hself eq_refl eq_refl) as (_ & Hsome & _).
    destruct (Hsome _ eq_refl) as [Hrun _]. exact Hrun.
  - destruct (H4 _ eq_refl) as (_ & _ & Hnone). exact (Hnone eq_refl).
  - destruct (H9 eq_refl) as [Hrun _]. exact Hrun.
Defined.

(** With [OperatorUpd] as the storage side is described, dropping [===],
    its own commutator, would find the row version of the first fetch gone:
    the clearing wrote a new version.  The second fetch finds that one, the
    drop succeeds, no row of [===] is left, and the negator [!==] no longer
    points to it. *)
Lemma RemoveOperatorById_self_commutator :
  let c1 := OperatorUpd_model 9001%Z 9001%Z 9002%Z true cat0 in
  let c2 := final_catalog (RemoveOperatorById demo_env 9001%Z cat0) in
  option_map t_self (fetch_operator cat0 9001%Z) = Some 1 /\
  tid_live c1 1 = false /\
  option_map t_self (fetch_operator c1 9001%Z) = Some 7 /\
  outcome (RemoveOperatorById demo_env 9001%Z cat0) = OK tt /\
  fetch_operator c2 9001%Z = None /\
  option_map oprnegate (fetch_operator c2 9002%Z) = Some InvalidOid.
Proof. repeat split. Qed.

(** Dropping [<<], whose commutator is [>>]: the link of [>>] back to [<<]
    is cleared first, the row of [<<] itself is not touched by that, and
    its first version is the one deleted. *)
Lemma RemoveOperatorById_distinct_commutator :
  let c2 := final_catalog (RemoveOperatorById demo_env 9005%Z cat0) in
  RemoveOperatorById demo_env 9005%Z cat0
  = (OK tt, catalog_delete (OperatorUpd_model 9005%Z 9006%Z 0%Z true cat0) 5,
     [EvSearchSysCache 9005%Z; EvOperatorUpd 9005%Z 9006%Z 0%Z true; EvCatalogTupleDelete 5]) /\
  fetch_operator c2 9005%Z = None /\
  option_map oprcom (fetch_operator cat0 9006%Z) = Some 9005%Z /\
  option_map oprcom (fetch_operator c2 9006%Z) = Some InvalidOid.
Proof. repeat split. Qed.

(** * Further properties of the commands *)

(** ** The validators as decision tables *)

Lemma ValidateRestrictionEstimator_table (env : Env) (restrictionName : list string) (c : Catalog) :
  ValidateRestrictionEstimator env restrictionName c
  = (if OidIsValid (func_by_signature env restrictionName restriction_signature)
     then checked_estimator env (RestrictionEstimatorMustReturn restrictionName) restrictionName
            (func_by_signature env restrictionName restriction_signature)
     else ERROR (FunctionDoesNotExist restrictionName 4 restriction_signature),
     c, [EvLookupFuncName restrictionName 4 restriction_signature false]).
Proof.
  unfold ValidateRestrictionEstimator, LookupFuncName, aclcheck_error, checked_estimator.
  fold restriction_signature.
  change (firstn 4 restriction_signature) with restriction_signature.
  destruct (OidIsValid (func_by_signature env restrictionName restriction_signature)) eqn:V; run;
    [| reflexivity].
  destruct (get_func_rettype env _ =? FLOAT8OID)%Z; run; [| reflexivity].
  destruct (pg_proc_aclcheck env _ ACL_EXECUTE); run; reflexivity.
Qed.

Lemma ValidateJoinEstimator_table (env : Env) (joinName : list string) (c : Catalog) :
  let f5 := func_by_signature env joinName join_signature5 in
  let f4 := func_by_signature env joinName join_signature4 in
  let both := [EvLookupFuncName joinName 5 join_signature5 true;
               EvLookupFuncName joinName 4 join_signature5 true] in
  ValidateJoinEstimator env joinName c
  = if OidIsValid f5
    then (if OidIsValid f4
          then (ERROR (JoinEstimatorMultipleMatches joinName), c, both)
          else (checked_estimator env (JoinEstimatorMustReturn joinName) joinName f5, c, both))
    else (if OidIsValid f4
          then (checked_estimator env (JoinEstimatorMustReturn joinName) joinName f4, c, both)
          else (ERROR (FunctionDoesNotExist joinName 5 join_signature5), c,
                both ++ [EvLookupFuncName joinName 5 join_signature5 false])).
Proof.
  cbv zeta.
  unfold ValidateJoinEstimator, LookupFuncName, aclcheck_error, checked_estimator.
  fold join_signature5.
  change (firstn 5 join_signature5) with join_signature5.
  change (firstn 4 join_signature5) with join_signature4.
  destruct (OidIsValid (func_by_signature env joinName join_signature5)) eqn:V5;
    destruct (OidIsValid (func_by_signature env joinName join_signature4)) eqn:V4;
    repeat (run; try rewrite V5; try rewrite V4); try reflexivity.
  - destruct (get_func_rettype env _ =? FLOAT8OID)%Z; run; [| reflexivity].
    destruct (pg_proc_aclcheck env _ ACL_EXECUTE); run; reflexivity.
  - destruct (get_func_rettype env _ =? FLOAT8OID)%Z; run; [| reflexivity].
    destruct (pg_proc_aclcheck env _ ACL_EXECUTE); run; reflexivity.
Qed.

Lemma checked_estimator_OK (env : Env) (wrong_type : Error) (name : list string) (f oid : Oid) :
  checked_estimator env wrong_type name f = OK oid ->
  oid = f /\ get_func_rettype env f = FLOAT8OID /\ pg_proc_aclcheck env f ACL_EXECUTE = ACLCHECK_OK.
Proof.
  unfold checked_estimator.
  destruct (get_func_rettype env f =? FLOAT8OID)%Z eqn:R; [| discriminate].
  destruct (pg_proc_aclcheck env f ACL_EXECUTE) eqn:P; try discriminate.
  intros H. inversion H. subst. apply Z.eqb_eq in R. repeat split; try assumption; try reflexivity.
Qed.

Lemma checked_estimator_ERROR (env : Env) (wrong_type : Error) (name : list string) (f : Oid) e :
  checked_estimator env wrong_type name f = ERROR e ->
  e = wrong_type /\ get_func_rettype env f <> FLOAT8OID \/
  get_func_rettype env f = FLOAT8OID /\
  pg_proc_aclcheck env f ACL_EXECUTE <> ACLCHECK_OK /\
  e = AclcheckError (pg_proc_aclcheck env f ACL_EXECUTE) OBJECT_FUNCTION (NameListToString name).
Proof.
  unfold checked_estimator.
  destruct (get_func_rettype env f =? FLOAT8OID)%Z eqn:R.
  - apply Z.eqb_eq in R.
    destruct (pg_proc_aclcheck env f ACL_EXECUTE) eqn:P; try discriminate;
      intros H; inversion H; right; repeat split; auto; discriminate.
  - apply Z.eqb_neq in R. intros H. inversion H. left. auto.
Qed.

(** What the two "look up ... if specified" steps hand on: nothing for an
    empty name, and otherwise a function that was found under the
    signature asked for, returns [float8] and may be executed. *)
Lemma lookup_restriction_estimator_sound (env : Env) (restrictionName : list string) :
  exists r evs,
    (forall c, lookup_restriction_estimator env restrictionName c = (r, c, evs)) /\
    Forall is_lookup evs /\
    (forall oid, r = OK oid ->
       OidIsValid oid = negb (is_NIL restrictionName) /\
       (OidIsValid oid = true ->
        oid = func_by_signature env restrictionName restriction_signature /\
        get_func_rettype env oid = FLOAT8OID /\
        pg_proc_aclcheck env oid ACL_EXECUTE = ACLCHECK_OK)).
Proof.
  unfold lookup_restriction_estimator.
  destruct restrictionName as [| n rest]; cbn [is_NIL negb].
  - exists (OK InvalidOid), []. split; [reflexivity |]. split; [constructor |].
    intros oid H. inversion H. split; [reflexivity | discriminate].
  - eexists _, _. split; [intros c; apply ValidateRestrictionEstimator_table |].
    split; [repeat constructor |].
    intros oid H.
    destruct (OidIsValid (func_by_signature env (n :: rest) restriction_signature)) eqn:V;
      [| discriminate].
    apply checked_estimator_OK in H. destruct H as (-> & R & P).
    split; [exact V |]. intros _. auto.
Qed.

Lemma lookup_join_estimator_sound (env : Env) (joinName : list string) :
  exists r evs,
    (forall c, lookup_join_estimator env joinName c = (r, c, evs)) /\
    Forall is_lookup evs /\
    (forall oid, r = OK oid ->
       OidIsValid oid = negb (is_NIL joinName) /\
       (OidIsValid oid = true ->
        (oid = func_by_signature env joinName join_signature5 /\
         OidIsValid (func_by_signature env joinName join_signature4) = false \/
         oid = func_by_signature env joinName join_signature4 /\
         OidIsValid (func_by_signature env joinName join_signature5) = false) /\
        get_func_rettype env oid = FLOAT8OID /\
        pg_proc_aclcheck env oid ACL_EXECUTE = ACLCHECK_OK)).
Proof.
  unfold lookup_join_estimator.
  destruct joinName as [| n rest]; cbn [is_NIL negb].
  - exists (OK InvalidOid), []. split; [reflexivity |]. split; [constructor |].
    intros oid H. inversion H. split; [reflexivity | discriminate].
  - pose proof (ValidateJoinEstimator_table env (n :: rest)) as T. cbv zeta in T.
    destruct (OidIsValid (func_by_signature env (n :: rest) join_signature5)) eqn:V5;
      destruct (OidIsValid (func_by_signature env (n :: rest) join_signature4)) eqn:V4;
      eexists _, _; (split; [exact T |]); (split; [repeat constructor |]);
      intros oid H; try discriminate;
      apply checked_estimator_OK in H; destruct H as (-> & R & P);
      (split; [assumption |]); intros _; auto.
Qed.

(** ** The restriction estimator *)

(** X1: [ValidateRestrictionEstimator] asks once for the function of that
    name with the signature (internal, oid, internal, int4), leaves the
    catalog alone, and hands back a function exactly when the one found
    returns [float8] and may be executed.  Its errors come in the order of
    its tests: no such function, then the wrong result type (whether or not
    the function may be executed), then the missing permission. *)
Theorem ValidateRestrictionEstimator_outcome (env : Env) (restrictionName : list string)
    (c : Catalog) :
  let f := func_by_signature env restrictionName restriction_signature in
  let run := ValidateRestrictionEstimator env restrictionName c in
  final_catalog run = c /\
  events run = [EvLookupFuncName restrictionName 4 restriction_signature false] /\
  (forall oid, outcome run = OK oid <->
     oid = f /\ OidIsValid f = true /\ get_func_rettype env f = FLOAT8OID /\
     pg_proc_aclcheck env f ACL_EXECUTE = ACLCHECK_OK) /\
  (OidIsValid f = false ->
   outcome run = ERROR (FunctionDoesNotExist restrictionName 4 restriction_signature)) /\
  (OidIsValid f = true -> get_func_rettype env f <> FLOAT8OID ->
   outcome run = ERROR (RestrictionEstimatorMustReturn restrictionName)) /\
  (OidIsValid f = true -> get_func_rettype env f = FLOAT8OID ->
   pg_proc_aclcheck env f ACL_EXECUTE <> ACLCHECK_OK ->
   outcome run = ERROR (AclcheckError (pg_proc_aclcheck env f ACL_EXECUTE) OBJECT_FUNCTION
                          (NameListToString restrictionName))) /\
  sqlerrcode (RestrictionEstimatorMustReturn restrictionName) = ERRCODE_INVALID_OBJECT_DEFINITION.
Proof.
  cbv zeta. rewrite ValidateRestrictionEstimator_table. cbn [final_catalog outcome events fst snd].
  split; [reflexivity |]. split; [reflexivity |].
  unfold checked_estimator.
  destruct (OidIsValid (func_by_signature env restrictionName restriction_signature)) eqn:V.
  - destruct (get_func_rettype env _ =? FLOAT8OID)%Z eqn:R;
      [apply Z.eqb_eq in R | apply Z.eqb_neq in R].
    + destruct (pg_proc_aclcheck env _ ACL_EXECUTE) eqn:P.
      * split; [| repeat split; try discriminate; congruence].
        intros oid. split.
        -- intros H. inversion H. auto.
        -- intros (-> & _). reflexivity.
      * split; [| repeat split; try discriminate; congruence].
        intros oid. split; [discriminate | intros (_ & _ & _ & H); discriminate].
      * split; [| repeat split; try discriminate; congruence].
        intros oid. split; [discriminate | intros (_ & _ & _ & H); discriminate].
    + split; [| repeat split; try discriminate; congruence].
      intros oid. split; [discriminate | intros (_ & _ & H & _); congruence].
  - split; [| repeat split; try discriminate; congruence].
    intros oid. split; [discriminate | intros (_ & H & _); discriminate].
Qed.

Lemma ValidateRestrictionEstimator_outcome_witness :
  outcome (ValidateRestrictionEstimator guest_env ["eqsel"%string] cat0) = OK 101%Z /\
  outcome (ValidateRestrictionEstimator guest_env ["nosel"%string] cat0)
  = ERROR (FunctionDoesNotExist ["nosel"%string] 4 restriction_signature) /\
  outcome (ValidateRestrictionEstimator guest_env ["lockedintsel"%string] cat0)
  = ERROR (RestrictionEstimatorMustReturn ["lockedintsel"%string]) /\
  outcome (ValidateRestrictionEstimator guest_env ["lockedsel"%string] cat0)
  = ERROR (AclcheckError ACLCHECK_NO_PRIV OBJECT_FUNCTION "lockedsel").
Proof.
  destruct (ValidateRestrictionEstimator_outcome guest_env ["eqsel"%string] cat0)
    as (_ & _ & Hok & _).
  destruct (ValidateRestrictionEstimator_outcome guest_env ["nosel"%string] cat0)
    as (_ & _ & _ & Hnone & _).
  destruct (ValidateRestrictionEstimator_outcome guest_env ["lockedintsel"%string] cat0)
    as (_ & _ & _ & _ & Htype & _).
  destruct (ValidateRestrictionEstimator_outcome guest_env ["lockedsel"%string] cat0)
    as (_ & _ & _ & _ & _ & Hacl & _).
  split; [| split; [| split]].
  - apply Hok. repeat split.
  - apply Hnone. reflexivity.
  - apply Htype; [reflexivity | discriminate].
  - apply Hacl; [reflexivity | reflexivity | discriminate].
Defined.

(** ** The join estimator *)

(** X2: a function that [ValidateJoinEstimator] hands back is a real one,
    is the match of exactly one of the two signatures (the other has none),
    returns [float8] and may be executed by the caller. *)
Theorem ValidateJoinEstimator_sound (env : Env) (joinName : list string) (c : Catalog) (oid : Oid) :
  outcome (ValidateJoinEstimator env joinName c) = OK oid ->
  OidIsValid oid = true /\
  (oid = func_by_signature env joinName join_signature5 /\
   OidIsValid (func_by_signature env joinName join_signature4) = false \/
   oid = func_by_signature env joinName join_signature4 /\
   OidIsValid (func_by_signature env joinName join_signature5) = false) /\
  get_func_rettype env oid = FLOAT8OID /\
  pg_proc_aclcheck env oid ACL_EXECUTE = ACLCHECK_OK.
Proof.
  pose proof (ValidateJoinEstimator_table env joinName c) as T. cbv zeta in T. rewrite T.
  destruct (OidIsValid (func_by_signature env joinName join_signature5)) eqn:V5;
    destruct (OidIsValid (func_by_signature env joinName join_signature4)) eqn:V4;
    cbn [outcome fst]; intros H; try discriminate;
    apply checked_estimator_OK in H; destruct H as (-> & R & P); auto.
Qed.

Lemma ValidateJoinEstimator_sound_witness :
  OidIsValid 104%Z = true /\
  (104%Z = func_by_signature guest_env ["oldjoinsel"%string] join_signature5 /\
   OidIsValid (func_by_signature guest_env ["oldjoinsel"%string] join_signature4) = false \/
   104%Z = func_by_signature guest_env ["oldjoinsel"%string] join_signature4 /\
   OidIsValid (func_by_signature guest_env ["oldjoinsel"%string] join_signature5) = false) /\
  get_func_rettype guest_env 104%Z = FLOAT8OID /\
  pg_proc_aclcheck guest_env 104%Z ACL_EXECUTE = ACLCHECK_OK.
Proof.
  apply (ValidateJoinEstimator_sound guest_env ["oldjoinsel"%string] cat0 104%Z). reflexivity.
Defined.

(** X3: when exactly one of the two signatures has a match,
    [ValidateJoinEstimator] asks twice and no third time, and tests that
    function as the restriction estimator is tested: the wrong result type
    is reported first, whether or not the function may be executed, and the
    missing permission after it.  The third look-up, the one that raises,
    is made exactly when neither signature has a match. *)
Theorem ValidateJoinEstimator_found_function_tests (env : Env) (joinName : list string)
    (c : Catalog) :
  let f5 := func_by_signature env joinName join_signature5 in
  let f4 := func_by_signature env joinName join_signature4 in
  let f := if OidIsValid f5 then f5 else f4 in
  let run := ValidateJoinEstimator env joinName c in
  (xorb (OidIsValid f5) (OidIsValid f4) = true ->
   (get_func_rettype env f <> FLOAT8OID ->
    outcome run = ERROR (JoinEstimatorMustReturn joinName)) /\
   (get_func_rettype env f = FLOAT8OID -> pg_proc_aclcheck env f ACL_EXECUTE <> ACLCHECK_OK ->
    outcome run = ERROR (AclcheckError (pg_proc_aclcheck env f ACL_EXECUTE) OBJECT_FUNCTION
                           (NameListToString joinName)))) /\
  (In (EvLookupFuncName joinName 5 join_signature5 false) (events run) <->
   OidIsValid f5 = false /\ OidIsValid f4 = false) /\
  sqlerrcode (JoinEstimatorMustReturn joinName) = ERRCODE_INVALID_OBJECT_DEFINITION.
Proof.
  cbv zeta.
  pose proof (ValidateJoinEstimator_table env joinName c) as T. cbv zeta in T. rewrite T.
  unfold checked_estimator.
  destruct (OidIsValid (func_by_signature env joinName join_signature5)) eqn:V5;
    destruct (OidIsValid (func_by_signature env joinName join_signature4)) eqn:V4;
    cbn [xorb outcome events fst snd]; (split; [| split; [| reflexivity]]);
    try (intros; discriminate).
  - split; [| intros [_ H]; discriminate].
    intros [H | [H | []]]; discriminate.
  - intros _. split.
    + intros R. apply Z.eqb_neq in R. rewrite R. reflexivity.
    + intros R P. apply Z.eqb_eq in R. rewrite R.
      destruct (pg_proc_aclcheck env _ ACL_EXECUTE); [congruence | reflexivity | reflexivity].
  - split; [| intros [H _]; discriminate].
    intros [H | [H | []]]; discriminate.
  - intros _. split.
    + intros R. apply Z.eqb_neq in R. rewrite R. reflexivity.
    + intros R P. apply Z.eqb_eq in R. rewrite R.
      destruct (pg_proc_aclcheck env _ ACL_EXECUTE); [congruence | reflexivity | reflexivity].
  - split; [| intros [_ H]; discriminate].
    intros [H | [H | []]]; discriminate.
  - split; [intros _; auto |]. intros _. right. right. left. reflexivity.
Qed.

Lemma ValidateJoinEstimator_found_function_tests_witness :
  outcome (ValidateJoinEstimator guest_env ["intjoinsel"%string] cat0)
  = ERROR (JoinEstimatorMustReturn ["intjoinsel"%string]) /\
  outcome (ValidateJoinEstimator guest_env ["lockedjoinsel"%string] cat0)
  = ERROR (AclcheckError ACLCHECK_NO_PRIV OBJECT_FUNCTION "lockedjoinsel").
Proof.
  destruct (ValidateJoinEstimator_found_function_tests guest_env ["intjoinsel"%string] cat0)
    as (H1 & _).
  destruct (ValidateJoinEstimator_found_function_tests guest_env ["lockedjoinsel"%string] cat0)
    as (H2 & _).
  split.
  - apply (H1 eq_refl). discriminate.
  - apply (H2 eq_refl); [reflexivity | discriminate].
Defined.

(** ** Defining an operator: what reaches [OperatorCreate] *)

(** The first part of [DefineOperator], with what a good end of it says
    about the namespace, the loop and the operand types. *)
Lemma DefineOperator_resolve_cases (env : Env) (names : list string) (parameters : list DefElem)
    (c : Catalog) :
  exists res done,
    DefineOperator_resolve env names parameters c = (res, c, map unrecognized_warning done) /\
    (forall r, res = OK r ->
       exists nsp st,
         QualifiedNameGetCreationNamespace env names = OK nsp /\
         pg_namespace_aclcheck env nsp.1 ACL_CREATE = ACLCHECK_OK /\
         foreach (DefineOperator_defel env) parameters DefineOperator_init c
         = (OK st, c, map unrecognized_warning done) /\
         is_NIL (functionName st) = false /\
         DefineOperator_typeId env (typeName1 st) = OK (typeId1 r) /\
         DefineOperator_typeId env (typeName2 st) = OK (typeId2 r) /\
         OidIsValid (typeId2 r) = true /\
         (typeName1 st <> None -> pg_type_aclcheck env (typeId1 r) ACL_USAGE = ACLCHECK_OK) /\
         (typeName2 st <> None -> pg_type_aclcheck env (typeId2 r) ACL_USAGE = ACLCHECK_OK) /\
         r = mkResolved nsp.2 nsp.1 st (typeId1 r) (typeId2 r)).
Proof.
  unfold DefineOperator_resolve.
  destruct (QualifiedNameGetCreationNamespace env names) as [nsp | e] eqn:Hns; run.
  2: { exists (ERROR e), []. split; [reflexivity | discriminate]. }
  unfold aclcheck_error.
  destruct (pg_namespace_aclcheck env nsp.1 ACL_CREATE) eqn:Hacl; run.
  2, 3: eexists _, []; split; [reflexivity | discriminate].
  destruct (foreach_DefineOperator_defel_recognized_only env parameters DefineOperator_init c)
    as ([st | e] & done & _ & Hloop & _).
  2: { rewrite (bind_ERROR _ _ _ _ _ _ Hloop). exists (ERROR e), done.
       split; [reflexivity | discriminate]. }
  rewrite (bind_OK _ _ _ _ _ _ Hloop).
  destruct (is_NIL (functionName st)) eqn:Hfn; run.
  { eexists _, done. rewrite app_nil_r. split; [reflexivity | discriminate]. }
  destruct (DefineOperator_typeId env (typeName1 st)) as [id1 | e] eqn:H1; run.
  2: { eexists _, done. rewrite app_nil_r. split; [reflexivity | discriminate]. }
  destruct (DefineOperator_typeId env (typeName2 st)) as [id2 | e] eqn:H2; run.
  2: { eexists _, done. rewrite app_nil_r. split; [reflexivity | discriminate]. }
  unfold DefineOperator_check_types, aclcheck_error_type.
  destruct (OidIsValid id2) eqn:V2; destruct (OidIsValid id1) eqn:V1; cbn [negb andb]; run;
    try (eexists _, done; rewrite app_nil_r; split; [reflexivity | discriminate]).
  - destruct (typeName1 st) as [t1 |] eqn:T1;
      [destruct (pg_type_aclcheck env id1 ACL_USAGE) eqn:A1 |]; run;
      (destruct (typeName2 st) as [t2 |] eqn:T2;
       [destruct (pg_type_aclcheck env id2 ACL_USAGE) eqn:A2 |]); run;
      eexists _, done; rewrite app_nil_r;
      (split; [reflexivity |]); intros r Hr; inversion Hr; subst r; try discriminate;
      exists nsp, st; cbn [typeId1 typeId2]; repeat split; auto; congruence.
  - destruct (typeName1 st) as [t1 |] eqn:T1;
      [destruct (pg_type_aclcheck env id1 ACL_USAGE) eqn:A1 |]; run;
      (destruct (typeName2 st) as [t2 |] eqn:T2;
       [destruct (pg_type_aclcheck env id2 ACL_USAGE) eqn:A2 |]); run;
      eexists _, done; rewrite app_nil_r;
      (split; [reflexivity |]); intros r Hr; inversion Hr; subst r; try discriminate;
      exists nsp, st; cbn [typeId1 typeId2]; repeat split; auto; congruence.
Qed.

(** The second part: it fails with look-ups only in its log, or it logs
    its look-ups, then the call of [OperatorCreate], and ends as that call
    ends; what it passes has gone through the tests before. *)
Lemma DefineOperator_create_cases (env : Env) (r : DefineOperator_resolved) (c : Catalog) :
  (exists e evs, DefineOperator_create env r c = (ERROR e, c, evs) /\ Forall is_lookup evs) \/
  (exists functionOid restrictionOid joinOid evs,
     DefineOperator_create env r c
     = ((OperatorCreate env
           (mkOperatorCreateArgs (oprName r) (oprNamespace r) (typeId1 r) (typeId2 r)
              functionOid (commutatorName (locals r)) (negatorName (locals r))
              restrictionOid joinOid (canMerge (locals r)) (canHash (locals r))) c).1,
        (OperatorCreate env
           (mkOperatorCreateArgs (oprName r) (oprNamespace r) (typeId1 r) (typeId2 r)
              functionOid (commutatorName (locals r)) (negatorName (locals r))
              restrictionOid joinOid (canMerge (locals r)) (canHash (locals r))) c).2,
        evs ++ [EvOperatorCreate
                  (mkOperatorCreateArgs (oprName r) (oprNamespace r) (typeId1 r) (typeId2 r)
                     functionOid (commutatorName (locals r)) (negatorName (locals r))
                     restrictionOid joinOid (canMerge (locals r)) (canHash (locals r)))]) /\
     Forall is_lookup evs /\
     functionOid = func_by_signature env (functionName (locals r))
                     (firstn (DefineOperator_function_args (typeId1 r) (typeId2 r)).1
                             (DefineOperator_function_args (typeId1 r) (typeId2 r)).2) /\
     OidIsValid functionOid = true /\
     pg_proc_aclcheck env functionOid ACL_EXECUTE = ACLCHECK_OK /\
     pg_type_aclcheck env (get_func_rettype env functionOid) ACL_USAGE = ACLCHECK_OK /\
     OidIsValid restrictionOid = negb (is_NIL (restrictionName (locals r))) /\
     (OidIsValid restrictionOid = true ->
      restrictionOid = func_by_signature env (restrictionName (locals r)) restriction_signature /\
      get_func_rettype env restrictionOid = FLOAT8OID /\
      pg_proc_aclcheck env restrictionOid ACL_EXECUTE = ACLCHECK_OK) /\
     OidIsValid joinOid = negb (is_NIL (joinName (locals r))) /\
     (OidIsValid joinOid = true ->
      (joinOid = func_by_signature env (joinName (locals r)) join_signature5 /\
       OidIsValid (func_by_signature env (joinName (locals r)) join_signature4) = false \/
       joinOid = func_by_signature env (joinName (locals r)) join_signature4 /\
       OidIsValid (func_by_signature env (joinName (locals r)) join_signature5) = false) /\
      get_func_rettype env joinOid = FLOAT8OID /\
      pg_proc_aclcheck env joinOid ACL_EXECUTE = ACLCHECK_OK)).
Proof.
  unfold DefineOperator_create, LookupFuncName. cbv zeta. run.
  set (nargs := (DefineOperator_function_args (typeId1 r) (typeId2 r)).1).
  set (typeId := (DefineOperator_function_args (typeId1 r) (typeId2 r)).2).
  set (f := func_by_signature env (functionName (locals r)) (firstn nargs typeId)).
  destruct (OidIsValid f) eqn:V; run.
  2: { left. eexists _, _. split; [reflexivity |]. repeat constructor. }
  unfold aclcheck_error, aclcheck_error_type.
  destruct (pg_proc_aclcheck env f ACL_EXECUTE) eqn:P; run.
  2, 3: left; eexists _, _; split; [reflexivity |]; repeat constructor.
  destruct (pg_type_aclcheck env (get_func_rettype env f) ACL_USAGE) eqn:T; run.
  2, 3: left; eexists _, _; split; [reflexivity |]; repeat constructor.
  destruct (lookup_restriction_estimator_sound env (restrictionName (locals r)))
    as (rr & evr & Hr & Lr & Sr).
  destruct (lookup_join_estimator_sound env (joinName (locals r)))
    as (rj & evj & Hj & Lj & Sj).
  destruct rr as [restrictionOid | e].
  2: { rewrite (bind_ERROR _ _ _ _ _ _ (Hr c)). left. eexists _, _.
       split; [reflexivity |]. constructor; [exact I | exact Lr]. }
  rewrite (bind_OK _ _ _ _ _ _ (Hr c)).
  destruct rj as [joinOid | e].
  2: { rewrite (bind_ERROR _ _ _ _ _ _ (Hj c)). left. eexists _, _.
       split; [reflexivity |]. cbn [events snd]. constructor; [exact I |].
       apply Forall_app. split; assumption. }
  rewrite (bind_OK _ _ _ _ _ _ (Hj c)). run. cbn [outcome final_catalog events fst snd].
  right. exists f, restrictionOid, joinOid, (EvLookupFuncName (functionName (locals r)) nargs typeId false :: evr ++ evj).
  destruct (Sr _ eq_refl) as [Sr1 Sr2]. destruct (Sj _ eq_refl) as [Sj1 Sj2].
  split.
  { unfold call. cbn [outcome final_catalog events fst snd app].
    rewrite <- !app_assoc. reflexivity. }
  split; [constructor; [exact I | apply Forall_app; split; assumption] |].
  split; [reflexivity |]. split; [exact V |]. split; [exact P |]. split; [exact T |].
  split; [exact Sr1 |]. split; [exact Sr2 |]. split; [exact Sj1 | exact Sj2].
Qed.

Lemma unrecognized_warning_not_create (done : list DefElem) :
  Forall (fun ev => ~ is_lookup ev /\ ~ is_create ev) (map unrecognized_warning done).
Proof.
  induction done as [| d rest IH]; cbn [map]; constructor; [split; intros [] | exact IH].
Qed.

Lemma is_lookup_not_create (evs : list Event) :
  Forall is_lookup evs -> Forall (fun ev => ~ is_create ev) evs.
Proof.
  intros H. eapply List.Forall_impl; [| exact H]. intros [] Hl Hc; cbn in *; contradiction.
Qed.

(** With the namespace found and open to the caller, a loop that fails is
    the end of the command, and so is a loop that leaves no function name. *)
Lemma DefineOperator_loop_ERROR (env : Env) (names : list string) (parameters : list DefElem)
    (c : Catalog) nsp e c1 evs :
  QualifiedNameGetCreationNamespace env names = OK nsp ->
  pg_namespace_aclcheck env nsp.1 ACL_CREATE = ACLCHECK_OK ->
  foreach (DefineOperator_defel env) parameters DefineOperator_init c = (ERROR e, c1, evs) ->
  DefineOperator env names parameters c = (ERROR e, c1, evs).
Proof.
  intros Hns Hacl Hloop. unfold DefineOperator, DefineOperator_resolve.
  rewrite Hns. run. rewrite Hacl. unfold aclcheck_error. run.
  rewrite (bind_ERROR _ _ _ _ _ _ Hloop). reflexivity.
Qed.

Lemma DefineOperator_no_function (env : Env) (names : list string) (parameters : list DefElem)
    (c : Catalog) nsp st c1 evs :
  QualifiedNameGetCreationNamespace env names = OK nsp ->
  pg_namespace_aclcheck env nsp.1 ACL_CREATE = ACLCHECK_OK ->
  foreach (DefineOperator_defel env) parameters DefineOperator_init c = (OK st, c1, evs) ->
  functionName st = [] ->
  DefineOperator env names parameters c = (ERROR FunctionMustBeSpecified, c1, evs).
Proof.
  intros Hns Hacl Hloop Hfn. unfold DefineOperator, DefineOperator_resolve.
  rewrite Hns. run. rewrite Hacl. unfold aclcheck_error. run.
  rewrite (bind_OK _ _ _ _ _ _ Hloop). rewrite Hfn. cbn [is_NIL]. run.
  cbn [outcome final_catalog events fst snd]. rewrite app_nil_r. reflexivity.
Qed.

(** When the first part of [DefineOperator] fails, so does the command,
    with nothing in its log but the warnings. *)
Lemma DefineOperator_resolve_ERROR (env : Env) (names : list string) (parameters : list DefElem)
    (c : Catalog) e c1 evs :
  DefineOperator_resolve env names parameters c = (ERROR e, c1, evs) ->
  DefineOperator env names parameters c = (ERROR e, c1, evs) /\
  Forall (fun ev => ~ is_lookup ev /\ ~ is_create ev) evs.
Proof.
  intros H. split.
  - unfold DefineOperator. now rewrite (bind_ERROR _ _ _ _ _ _ H).
  - destruct (DefineOperator_resolve_cases env names parameters c) as (res & done & Hres & _).
    rewrite Hres in H. inversion H; subst. apply unrecognized_warning_not_create.
Qed.

Lemma assigned_functionName (name : string) :
  assigned_variable name = Some v_functionName ->
  name = "function"%string \/ name = "procedure"%string.
Proof.
  unfold assigned_variable.
  destruct (String.eqb_spec name "leftarg"); [discriminate |].
  destruct (String.eqb_spec name "rightarg"); [discriminate |].
  destruct (String.eqb_spec name "function"); [auto |].
  destruct (String.eqb_spec name "procedure"); [auto |].
  string_cases; discriminate.
Qed.

(** An operand type that reads as a set is refused by its branch, whatever
    the locals are. *)
Lemma DefineOperator_defel_setof (env : Env) (defel : DefElem) (tn : TypeName) st c :
  defname defel = "leftarg"%string \/ defname defel = "rightarg"%string ->
  defGetTypeName env defel = OK tn -> setof tn = true ->
  DefineOperator_defel env defel st c = (ERROR SetofNotAllowed, c, []).
Proof.
  intros Hname Htn Hsetof. unfold DefineOperator_defel.
  destruct Hname as [-> | ->].
  - rewrite String.eqb_refl. rewrite Htn. run. rewrite Hsetof. reflexivity.
  - change ("rightarg" =? "leftarg")%string with false. rewrite String.eqb_refl.
    rewrite Htn. run. rewrite Hsetof. reflexivity.
Qed.

(** A loop stops at an element whose body fails in every state. *)
Lemma foreach_stops {A S} (body : A -> S -> M S) (before after : list A) (x : A) (e : Error)
    (st : S) (c : Catalog) :
  (forall st' c', body x st' c' = (ERROR e, c', [])) ->
  exists e' c1 evs,
    foreach body (before ++ x :: after) st c = (ERROR e', c1, evs) /\
    (forall st' c' evs', foreach body before st c = (OK st', c', evs') -> e' = e).
Proof.
  intros Hx. rewrite foreach_app.
  destruct (foreach body before st c) as [[[st1 | e1] c1] evs1] eqn:Hb.
  - rewrite (bind_OK _ _ _ _ _ _ Hb). cbn [foreach].
    rewrite (bind_ERROR _ _ _ _ _ _ (Hx st1 c1)). cbn [outcome final_catalog events fst snd].
    eexists _, _, _. split; [reflexivity |]. intros; reflexivity.
  - rewrite (bind_ERROR _ _ _ _ _ _ Hb). eexists _, _, _. split; [reflexivity |].
    intros st' c' evs' H. discriminate.
Qed.

(** X4: an operand type written as a set fails the whole definition, also
    when a later attribute gives the same operand again: the loop stops at
    the first such attribute.  No function is looked up and
    [OperatorCreate] is not called.  When the namespace is open to the
    caller and the attributes before that one are read without an error,
    the error is the one of line 111 or 120. *)
Theorem DefineOperator_setof_operand (env : Env) (names : list string)
    (parameters before after : list DefElem) (defel : DefElem) (tn : TypeName) (c : Catalog) :
  parameters = before ++ defel :: after ->
  defname defel = "leftarg"%string \/ defname defel = "rightarg"%string ->
  defGetTypeName env defel = OK tn -> setof tn = true ->
  (exists e, outcome (DefineOperator env names parameters c) = ERROR e) /\
  Forall (fun ev => ~ is_lookup ev /\ ~ is_create ev)
         (events (DefineOperator env names parameters c)) /\
  (forall nsp st c1 evs1,
     QualifiedNameGetCreationNamespace env names = OK nsp ->
     pg_namespace_aclcheck env nsp.1 ACL_CREATE = ACLCHECK_OK ->
     foreach (DefineOperator_defel env) before DefineOperator_init c = (OK st, c1, evs1) ->
     outcome (DefineOperator env names parameters c) = ERROR SetofNotAllowed) /\
  sqlerrcode SetofNotAllowed = ERRCODE_INVALID_FUNCTION_DEFINITION /\
  errmsg SetofNotAllowed = "SETOF type not allowed for operator argument"%string.
Proof.
  intros Hpar Hname Htn Hsetof.
  destruct (foreach_stops (DefineOperator_defel env) before after defel SetofNotAllowed
              DefineOperator_init c) as (e' & c1' & evs' & Hloop & Hfirst).
  { intros st' c'. now apply (DefineOperator_defel_setof env defel tn). }
  rewrite <- Hpar in Hloop.
  destruct (DefineOperator_resolve_cases env names parameters c) as (res & done & Hres & Hinv).
  destruct res as [r | e0].
  { destruct (Hinv r eq_refl) as (nsp & st & _ & _ & Hok & _). congruence. }
  destruct (DefineOperator_resolve_ERROR env names parameters c _ _ _ Hres) as [Hrun Hev].
  split; [exists e0; now rewrite Hrun |].
  split; [now rewrite Hrun |].
  split; [| split; reflexivity].
  intros nsp st c1 evs1 Hns Hacl Hb.
  rewrite (DefineOperator_loop_ERROR env names parameters c nsp _ _ _ Hns Hacl Hloop).
  cbn [outcome fst]. f_equal. exact (Hfirst _ _ _ Hb).
Qed.

Lemma DefineOperator_setof_operand_witness :
  outcome (DefineOperator demo_env ["myop"%string]
             [def "function" (type_arg "int4um");
              def "rightarg" (T_TypeName (mkTypeName ["int4"%string] true));
              def "rightarg" (type_arg "int4")] cat0)
  = ERROR SetofNotAllowed.
Proof.
  destruct (DefineOperator_setof_operand demo_env ["myop"%string]
              [def "function" (type_arg "int4um");
               def "rightarg" (T_TypeName (mkTypeName ["int4"%string] true));
               def "rightarg" (type_arg "int4")]
              [def "function" (type_arg "int4um")] [def "rightarg" (type_arg "int4")]
              (def "rightarg" (T_TypeName (mkTypeName ["int4"%string] true)))
              (mkTypeName ["int4"%string] true) cat0
              eq_refl (or_intror eq_refl) eq_refl eq_refl) as (_ & _ & H & _).
  exact (H (2200%Z, "myop"%string) _ cat0 [] eq_refl eq_refl eq_refl).
Defined.

(** X5: a definition list without a [function] (or [procedure]) attribute
    never defines an operator: the command fails before any function is
    looked up and before [OperatorCreate], and when the namespace is open to
    the caller and the attributes are read without an error the error is
    that the function must be specified, whatever the operand types are. *)
Theorem DefineOperator_function_required (env : Env) (names : list string)
    (parameters : list DefElem) (c : Catalog) :
  Forall (fun d => defname d <> "function"%string /\ defname d <> "procedure"%string) parameters ->
  (exists e, outcome (DefineOperator env names parameters c) = ERROR e) /\
  Forall (fun ev => ~ is_lookup ev /\ ~ is_create ev)
         (events (DefineOperator env names parameters c)) /\
  (forall nsp st c1 evs1,
     QualifiedNameGetCreationNamespace env names = OK nsp ->
     pg_namespace_aclcheck env nsp.1 ACL_CREATE = ACLCHECK_OK ->
     foreach (DefineOperator_defel env) parameters DefineOperator_init c = (OK st, c1, evs1) ->
     outcome (DefineOperator env names parameters c) = ERROR FunctionMustBeSpecified) /\
  sqlerrcode FunctionMustBeSpecified = ERRCODE_INVALID_FUNCTION_DEFINITION /\
  errmsg FunctionMustBeSpecified = "operator function must be specified"%string.
Proof.
  intros Hnone.
  assert (Hframe : forall st c1 evs1,
            foreach (DefineOperator_defel env) parameters DefineOperator_init c = (OK st, c1, evs1) ->
            functionName st = []).
  { intros st c1 evs1 Hloop.
    apply (foreach_DefineOperator_defel_frame env parameters v_functionName) in Hloop;
      [exact Hloop |].
    eapply List.Forall_impl; [| exact Hnone]. intros d [H1 H2] Ha.
    destruct (assigned_functionName _ Ha); contradiction. }
  destruct (DefineOperator_resolve_cases env names parameters c) as (res & done & Hres & Hinv).
  destruct res as [r | e0].
  { destruct (Hinv r eq_refl) as (nsp & st & _ & _ & Hok & Hfn & _).
    rewrite (Hframe _ _ _ Hok) in Hfn. discriminate. }
  destruct (DefineOperator_resolve_ERROR env names parameters c _ _ _ Hres) as [Hrun Hev].
  split; [exists e0; now rewrite Hrun |].
  split; [now rewrite Hrun |].
  split; [| split; reflexivity].
  intros nsp st c1 evs1 Hns Hacl Hloop.
  now rewrite (DefineOperator_no_function env names parameters c nsp st c1 evs1 Hns Hacl Hloop
                 (Hframe _ _ _ Hloop)).
Qed.

Lemma DefineOperator_function_required_witness :
  outcome (DefineOperator demo_env ["myop"%string]
             [def "leftarg" (type_arg "int4"); def "rightarg" (type_arg "int4");
              def "restrict" (type_arg "eqsel")] cat0)
  = ERROR FunctionMustBeSpecified.
Proof.
  destruct (DefineOperator_function_required demo_env ["myop"%string]
              [def "leftarg" (type_arg "int4"); def "rightarg" (type_arg "int4");
               def "restrict" (type_arg "eqsel")] cat0) as (_ & _ & H & _).
  { repeat constructor; discriminate. }
  exact (H (2200%Z, "myop"%string) _ cat0 [] eq_refl eq_refl eq_refl).
Defined.

(** X6: [DefineOperator] calls [OperatorCreate] at most once, as the last
    thing it does, and ends as that call ends, with the catalog as that call
    leaves it.  What it passes has been
    tested: the namespace is the one the name resolves to and the caller may
    create in it; the right operand type is present; the caller may use each
    operand type that is present; the function exists under the operand
    types as its signature, the caller may execute it and may use its result
    type; and each estimator is either absent or a function that returns
    [float8] and that the caller may execute. *)
Theorem DefineOperator_passes_tested_values (env : Env) (names : list string)
    (parameters : list DefElem) (c : Catalog) (a : OperatorCreateArgs) :
  In (EvOperatorCreate a) (events (DefineOperator env names parameters c)) ->
  (exists pre, events (DefineOperator env names parameters c) = pre ++ [EvOperatorCreate a] /\
               Forall (fun ev => ~ is_create ev) pre) /\
  outcome (DefineOperator env names parameters c) = (OperatorCreate env a c).1 /\
  final_catalog (DefineOperator env names parameters c) = (OperatorCreate env a c).2 /\
  QualifiedNameGetCreationNamespace env names = OK (oc_operatorNamespace a, oc_operatorName a) /\
  pg_namespace_aclcheck env (oc_operatorNamespace a) ACL_CREATE = ACLCHECK_OK /\
  OidIsValid (oc_rightTypeId a) = true /\
  pg_type_aclcheck env (oc_rightTypeId a) ACL_USAGE = ACLCHECK_OK /\
  (OidIsValid (oc_leftTypeId a) = true ->
   pg_type_aclcheck env (oc_leftTypeId a) ACL_USAGE = ACLCHECK_OK) /\
  OidIsValid (oc_procedureId a) = true /\
  (exists functionName,
     oc_procedureId a
     = func_by_signature env functionName
         (if OidIsValid (oc_leftTypeId a) then [oc_leftTypeId a; oc_rightTypeId a]
          else [oc_rightTypeId a])) /\
  pg_proc_aclcheck env (oc_procedureId a) ACL_EXECUTE = ACLCHECK_OK /\
  pg_type_aclcheck env (get_func_rettype env (oc_procedureId a)) ACL_USAGE = ACLCHECK_OK /\
  (OidIsValid (oc_restrictionId a) = true ->
   get_func_rettype env (oc_restrictionId a) = FLOAT8OID /\
   pg_proc_aclcheck env (oc_restrictionId a) ACL_EXECUTE = ACLCHECK_OK) /\
  (OidIsValid (oc_joinId a) = true ->
   get_func_rettype env (oc_joinId a) = FLOAT8OID /\
   pg_proc_aclcheck env (oc_joinId a) ACL_EXECUTE = ACLCHECK_OK).
Proof.
  intros Hin.
  destruct (DefineOperator_resolve_cases env names parameters c) as (res & done & Hres & Hinv).
  pose proof (unrecognized_warning_not_create done) as Hw.
  assert (Hwc : Forall (fun ev => ~ is_create ev) (map unrecognized_warning done)).
  { eapply List.Forall_impl; [| exact Hw]. intros ev [_ H]. exact H. }
  destruct res as [r | e0].
  2: { exfalso. destruct (DefineOperator_resolve_ERROR env names parameters c _ _ _ Hres)
         as [Hrun _].
       rewrite Hrun in Hin. cbn [events snd] in Hin.
       rewrite List.Forall_forall in Hwc. exact (Hwc _ Hin I). }
  destruct (Hinv r eq_refl)
    as ([nspOid nspName] & st & Hns & Hacl & Hloop & Hfn & H1 & H2 & V2 & A1 & A2 & Hr).
  cbn [fst snd] in *.
  unfold DefineOperator in *. rewrite (bind_OK _ _ _ _ _ _ Hres) in *.
  cbn [outcome final_catalog events fst snd] in *.
  destruct (DefineOperator_create_cases env r c)
    as [(e & evs & Hrun & Hl) |
        (functionOid & restrictionOid & joinOid & evs & Hrun & Hl & Hf & Vf & Pf & Tf
         & Vr & Sr & Vj & Sj)];
    rewrite Hrun in *; cbn [outcome final_catalog events fst snd] in *.
  { exfalso. apply in_app_or in Hin. destruct Hin as [Hin | Hin].
    - rewrite List.Forall_forall in Hwc. exact (Hwc _ Hin I).
    - apply is_lookup_not_create in Hl. rewrite List.Forall_forall in Hl. exact (Hl _ Hin I). }
  assert (Ha : a = mkOperatorCreateArgs (oprName r) (oprNamespace r) (typeId1 r) (typeId2 r)
                     functionOid (commutatorName (locals r)) (negatorName (locals r))
                     restrictionOid joinOid (canMerge (locals r)) (canHash (locals r))).
  { apply in_app_or in Hin. destruct Hin as [Hin | Hin].
    - exfalso. rewrite List.Forall_forall in Hwc. exact (Hwc _ Hin I).
    - apply in_app_or in Hin. destruct Hin as [Hin | [Hin | []]].
      + exfalso. apply is_lookup_not_create in Hl. rewrite List.Forall_forall in Hl.
        exact (Hl _ Hin I).
      + now inversion Hin. }
  subst a. cbn [oc_operatorNamespace oc_operatorName oc_leftTypeId oc_rightTypeId oc_procedureId
                oc_restrictionId oc_joinId].
  rewrite Hr in *. cbn [oprName oprNamespace typeId1 typeId2 locals] in *.
  split.
  { eexists. rewrite app_assoc. split; [reflexivity |].
    apply Forall_app. split; [exact Hwc | now apply is_lookup_not_create]. }
  split; [reflexivity |]. split; [reflexivity |].
  split; [exact Hns |]. split; [exact Hacl |]. split; [exact V2 |].
  split.
  { apply A2. intros Hn. rewrite Hn in H2. cbn in H2. inversion H2 as [Hz].
    rewrite <- Hz in V2. discriminate. }
  split.
  { intros V1. apply A1. intros Hn. rewrite Hn in H1. cbn in H1. inversion H1 as [Hz].
    rewrite <- Hz in V1. discriminate. }
  split; [exact Vf |].
  split.
  { exists (functionName st). rewrite Hf. unfold DefineOperator_function_args.
    rewrite V2. destruct (OidIsValid (typeId1 r)); reflexivity. }
  split; [exact Pf |]. split; [exact Tf |].
  split; [intros V; now destruct (Sr V) as (_ & ? & ?) |].
  intros V; now destruct (Sj V) as (_ & ? & ?).
Qed.

Lemma DefineOperator_passes_tested_values_witness :
  outcome (DefineOperator demo_env ["myop"%string]
             [def "function" (type_arg "int4um"); def "rightarg" (type_arg "int4")] cat0)
  = OK (mkObjectAddress OperatorRelationId 9100 0) /\
  pg_proc_aclcheck demo_env 212%Z ACL_EXECUTE = ACLCHECK_OK.
Proof.
  destruct (DefineOperator_passes_tested_values demo_env ["myop"%string]
              [def "function" (type_arg "int4um"); def "rightarg" (type_arg "int4")] cat0
              (mkOperatorCreateArgs "myop" 2200 InvalidOid INT4OID 212 [] [] 0 0 false false))
    as (_ & Hout & _ & _ & _ & _ & _ & _ & _ & _ & Hacl & _).
  { right. left. reflexivity. }
  split; [exact Hout | exact Hacl].
Defined.

(** X7: the permission to create in the namespace is tested before the
    definition list is looked at.  Without it the command fails with that
    error alone: no attribute is read, no warning is given about an
    attribute it would not recognize, and an error in the list (a set
    operand, a missing function) is not reported. *)
Theorem DefineOperator_namespace_permission_first (env : Env) (names : list string)
    (parameters : list DefElem) (c : Catalog) (nsp : Oid * string) :
  QualifiedNameGetCreationNamespace env names = OK nsp ->
  pg_namespace_aclcheck env nsp.1 ACL_CREATE <> ACLCHECK_OK ->
  DefineOperator env names parameters c
  = (ERROR (AclcheckError (pg_namespace_aclcheck env nsp.1 ACL_CREATE) OBJECT_SCHEMA
              (get_namespace_name env nsp.1)), c, []) /\
  sqlerrcode (AclcheckError (pg_namespace_aclcheck env nsp.1 ACL_CREATE) OBJECT_SCHEMA
                (get_namespace_name env nsp.1)) = ERRCODE_INSUFFICIENT_PRIVILEGE.
Proof.
  intros Hns Hacl. split; [| reflexivity].
  unfold DefineOperator, DefineOperator_resolve. rewrite Hns. run. unfold aclcheck_error.
  destruct (pg_namespace_aclcheck env nsp.1 ACL_CREATE); [congruence | |]; run; reflexivity.
Qed.

Lemma DefineOperator_namespace_permission_first_witness :
  DefineOperator guest_env ["private"%string; "myop"%string]
    [def "foo" (T_Integer 1); def "rightarg" (T_TypeName (mkTypeName ["int4"%string] true))] cat0
  = (ERROR (AclcheckError ACLCHECK_NO_PRIV OBJECT_SCHEMA "private"), cat0, []).
Proof.
  destruct (DefineOperator_namespace_permission_first guest_env ["private"%string; "myop"%string]
              [def "foo" (T_Integer 1);
               def "rightarg" (T_TypeName (mkTypeName ["int4"%string] true))] cat0
              (2201%Z, "myop"%string) eq_refl) as [H _].
  { discriminate. }
  exact H.
Defined.

(** ** Altering an operator: every run *)

Lemma is_lookup_not_alter_effect (evs : list Event) :
  Forall is_lookup evs -> Forall (fun ev => ~ is_alter_effect ev) evs.
Proof.
  intros H. eapply List.Forall_impl; [| exact H]. intros [] Hl Hc; cbn in *; contradiction.
Qed.

(** [AlterOperator] either fails, with the catalog as it was and a log of
    the fetch and of look-ups at most, or goes through all its steps. *)
Lemma AlterOperator_cases (env : Env) (stmt : AlterOperatorStmt) (c : Catalog) :
  (exists e evs, AlterOperator env stmt c = (ERROR e, c, evs) /\
                 Forall (fun ev => ~ is_alter_effect ev) evs) \/
  (exists oprId tup st r evr j evj,
     LookupOperWithArgs env (opername stmt) = OK oprId /\
     fetch_operator c oprId = Some tup /\
     (forall c', foreach (AlterOperator_defel env) (options stmt) AlterOperator_init c'
                 = (OK st, c', [])) /\
     pg_oper_ownercheck env oprId = true /\
     (forall c', lookup_restriction_estimator env (alt_restrictionName st) c' = (OK r, c', evr)) /\
     (forall c', lookup_join_estimator env (alt_joinName st) c' = (OK j, c', evj)) /\
     Forall is_lookup evr /\ Forall is_lookup evj /\
     OidIsValid r = negb (is_NIL (alt_restrictionName st)) /\
     (OidIsValid r = true ->
      r = func_by_signature env (alt_restrictionName st) restriction_signature /\
      get_func_rettype env r = FLOAT8OID /\
      pg_proc_aclcheck env r ACL_EXECUTE = ACLCHECK_OK) /\
     OidIsValid j = negb (is_NIL (alt_joinName st)) /\
     (OidIsValid j = true ->
      (j = func_by_signature env (alt_joinName st) join_signature5 /\
       OidIsValid (func_by_signature env (alt_joinName st) join_signature4) = false \/
       j = func_by_signature env (alt_joinName st) join_signature4 /\
       OidIsValid (func_by_signature env (alt_joinName st) join_signature5) = false) /\
      get_func_rettype env j = FLOAT8OID /\
      pg_proc_aclcheck env j ACL_EXECUTE = ACLCHECK_OK) /\
     outcome (AlterOperator_checks tup r j c) = OK tt /\
     AlterOperator env stmt c
     = (OK (makeOperatorDependencies env (t_data (AlterOperator_new_tuple tup st r j)) true),
        catalog_update c (t_self tup) (t_data (AlterOperator_new_tuple tup st r j)),
        EvSearchSysCache oprId :: evr ++ evj ++
          [EvCatalogTupleUpdate (t_self tup) (t_data (AlterOperator_new_tuple tup st r j));
           EvMakeOperatorDependencies (t_data (AlterOperator_new_tuple tup st r j)) true;
           EvInvokeObjectPostAlterHook OperatorRelationId oprId])).
Proof.
  destruct (LookupOperWithArgs env (opername stmt)) as [oprId | e0] eqn:Hop.
  2: { left. exists e0, []. split; [| constructor].
       unfold AlterOperator. rewrite Hop. reflexivity. }
  destruct (fetch_operator c oprId) as [tup |] eqn:Hf.
  2: { left. eexists _, [EvSearchSysCache oprId]. split; [| repeat constructor; intros []].
       unfold AlterOperator, SearchSysCacheCopy1, SearchSysCache1.
       rewrite Hop. run. rewrite Hf. run. reflexivity. }
  destruct (foreach_AlterOperator_defel_run env (options stmt) AlterOperator_init) as [rl Hloop].
  destruct rl as [st | e0].
  2: { left. eexists _, [EvSearchSysCache oprId]. split; [| repeat constructor; intros []].
       unfold AlterOperator, SearchSysCacheCopy1, SearchSysCache1.
       rewrite Hop. run. rewrite Hf. rewrite (bind_ERROR _ _ _ _ _ _ (Hloop c)). reflexivity. }
  destruct (pg_oper_ownercheck env oprId) eqn:Hown.
  2: { left. eexists _, [EvSearchSysCache oprId]. split; [| repeat constructor; intros []].
       unfold AlterOperator, SearchSysCacheCopy1, SearchSysCache1.
       rewrite Hop. run. rewrite Hf.
       rewrite (bind_OK _ _ _ _ _ _ (Hloop c)). rewrite Hown. cbn [negb].
       unfold aclcheck_error. run. reflexivity. }
  destruct (lookup_restriction_estimator_sound env (alt_restrictionName st))
    as (rr & evr & Hr & Lr & Sr).
  destruct (lookup_join_estimator_sound env (alt_joinName st)) as (rj & evj & Hj & Lj & Sj).
  destruct rr as [r | e0].
  2: { left. eexists _, (EvSearchSysCache oprId :: evr).
       split; [| constructor; [intros [] | now apply is_lookup_not_alter_effect]].
       unfold AlterOperator, SearchSysCacheCopy1, SearchSysCache1.
       rewrite Hop. run. rewrite Hf.
       rewrite (bind_OK _ _ _ _ _ _ (Hloop c)). rewrite Hown. cbn [negb]. run.
       rewrite (bind_ERROR _ _ _ _ _ _ (Hr c)). run. reflexivity. }
  destruct rj as [j | e0].
  2: { left. eexists _, (EvSearchSysCache oprId :: evr ++ evj).
       split; [| constructor; [intros [] |];
                 apply Forall_app; split; now apply is_lookup_not_alter_effect].
       unfold AlterOperator, SearchSysCacheCopy1, SearchSysCache1.
       rewrite Hop. run. rewrite Hf.
       rewrite (bind_OK _ _ _ _ _ _ (Hloop c)). rewrite Hown. cbn [negb]. run.
       rewrite (bind_OK _ _ _ _ _ _ (Hr c)). rewrite (bind_ERROR _ _ _ _ _ _ (Hj c)).
       run. reflexivity. }
  pose proof (AlterOperator_run env stmt c oprId tup st r evr j evj Hop Hf (Hloop c) Hown
                (Hr c) (Hj c)) as Hrun.
  destruct (outcome (AlterOperator_checks tup r j c)) as [[] | e0] eqn:Hc.
  2: { left. eexists _, (EvSearchSysCache oprId :: evr ++ evj).
       split; [exact Hrun |].
       constructor; [intros [] |]. apply Forall_app; split; now apply is_lookup_not_alter_effect. }
  right. exists oprId, tup, st, r, evr, j, evj.
  destruct (Sr _ eq_refl) as [Sr1 Sr2]. destruct (Sj _ eq_refl) as [Sj1 Sj2].
  split; [first [reflexivity | assumption] |]. split; [exact Hf |]. split; [exact Hloop |].
  split; [exact Hown |]. split; [exact Hr |]. split; [exact Hj |].
  split; [exact Lr |]. split; [exact Lj |].
  split; [exact Sr1 |]. split; [exact Sr2 |]. split; [exact Sj1 |]. split; [exact Sj2 |].
  split; [exact Hc | exact Hrun].
Qed.

(** The row that a run through all the steps leaves under the operator's
    OID is the new version. *)
Lemma fetch_operator_new_row (c : Catalog) (oprId : Oid) (tup : HeapTuple)
    (st : AlterOperator_locals) (r j : Oid) :
  fetch_operator c oprId = Some tup ->
  fetch_operator (catalog_update c (t_self tup) (t_data (AlterOperator_new_tuple tup st r j))) oprId
  = Some (mkHeapTuple (next_tid c) (t_data (AlterOperator_new_tuple tup st r j))).
Proof.
  intros Hf. apply fetch_operator_catalog_update; [exact Hf |].
  apply fetch_operator_Some in Hf. destruct Hf as [_ Hoid]. rewrite <- Hoid. same_column.
Qed.

(** The two flags of the locals say which options were given. *)
Lemma foreach_AlterOperator_defel_flags (env : Env) (l : list DefElem) :
  forall st c st' c' evs,
    foreach (AlterOperator_defel env) l st c = (OK st', c', evs) ->
    alt_updateRestriction st' = alt_updateRestriction st || existsb (names_option "restrict") l /\
    alt_updateJoin st' = alt_updateJoin st || existsb (names_option "join") l.
Proof.
  induction l as [| d rest IH]; intros st c st' c' evs Hrun; cbn [foreach] in Hrun.
  - inversion Hrun; subst. cbn [existsb]. now rewrite !orb_false_r.
  - apply bind_OK_inv in Hrun. destruct Hrun as (st1 & c1 & evs1 & evs2 & H1 & H2 & _).
    destruct (IH _ _ _ _ _ H2) as [Ha Hb]. rewrite Ha, Hb. cbn [existsb].
    change (names_option "restrict" d) with (defname d =? "restrict")%string.
    change (names_option "join" d) with (defname d =? "join")%string.
    destruct (AlterOperator_defel_OK_inv env d st c st1 c1 evs1 H1)
      as (param & _ & [[Hn ->] | (Hn1 & Hn2 & ->)]); cbn [alt_updateRestriction alt_updateJoin].
    + rewrite Hn. change ("restrict" =? "join")%string with false. rewrite String.eqb_refl.
      cbn [orb]. rewrite orb_true_r. split; reflexivity.
    + rewrite Hn2. change ("join" =? "restrict")%string with false. rewrite String.eqb_refl.
      cbn [orb]. rewrite orb_true_r. split; reflexivity.
Qed.

(** X8: only the owner alters an operator.  For anyone else the statement
    fails after the one fetch of the row: no function is looked up and the
    catalog is as it was.  The options are read before the ownership is
    tested, so a statement with a bad option fails with the error of that
    option, and one whose options are all taken fails with the error that
    the caller is not the owner, naming the operator. *)
Theorem AlterOperator_requires_ownership (env : Env) (stmt : AlterOperatorStmt) (c : Catalog)
    (oprId : Oid) :
  LookupOperWithArgs env (opername stmt) = OK oprId ->
  pg_oper_ownercheck env oprId = false ->
  (exists e, AlterOperator env stmt c = (ERROR e, c, [EvSearchSysCache oprId])) /\
  (forall tup st c1 evs,
     fetch_operator c oprId = Some tup ->
     foreach (AlterOperator_defel env) (options stmt) AlterOperator_init c = (OK st, c1, evs) ->
     outcome (AlterOperator env stmt c)
     = ERROR (AclcheckError ACLCHECK_NOT_OWNER OBJECT_OPERATOR (oprname tup))) /\
  (forall tup e c1 evs,
     fetch_operator c oprId = Some tup ->
     foreach (AlterOperator_defel env) (options stmt) AlterOperator_init c = (ERROR e, c1, evs) ->
     outcome (AlterOperator env stmt c) = ERROR e).
Proof.
  intros Hop Hown.
  destruct (foreach_AlterOperator_defel_run env (options stmt) AlterOperator_init) as [rl Hloop].
  assert (Hrun : AlterOperator env stmt c
                 = (match fetch_operator c oprId with
                    | None => ERROR (CacheLookupFailed oprId)
                    | Some tup =>
                        match rl with
                        | ERROR e => ERROR e
                        | OK _ => ERROR (AclcheckError ACLCHECK_NOT_OWNER OBJECT_OPERATOR
                                           (oprname tup))
                        end
                    end, c, [EvSearchSysCache oprId])).
  { unfold AlterOperator, SearchSysCacheCopy1, SearchSysCache1. rewrite Hop. run.
    destruct (fetch_operator c oprId) as [tup |]; run; [| reflexivity].
    destruct rl as [st | e].
    - rewrite (bind_OK _ _ _ _ _ _ (Hloop c)). rewrite Hown. cbn [negb].
      unfold aclcheck_error. run. reflexivity.
    - rewrite (bind_ERROR _ _ _ _ _ _ (Hloop c)). reflexivity. }
  split; [| split].
  - rewrite Hrun. destruct (fetch_operator c oprId) as [tup |]; [destruct rl |]; eauto.
  - intros tup st c1 evs Hf Hl. rewrite Hrun, Hf. rewrite Hloop in Hl.
    inversion Hl; subst. reflexivity.
  - intros tup e c1 evs Hf Hl. rewrite Hrun, Hf. rewrite Hloop in Hl.
    inversion Hl; subst. reflexivity.
Qed.

Lemma AlterOperator_requires_ownership_witness :
  outcome (AlterOperator guest_env
             (mkAlterOperatorStmt (operator "+") [def "restrict" (type_arg "eqsel")]) cat0)
  = ERROR (AclcheckError ACLCHECK_NOT_OWNER OBJECT_OPERATOR "+") /\
  outcome (AlterOperator guest_env
             (mkAlterOperatorStmt (operator "+") [def "foo" (type_arg "eqsel")]) cat0)
  = ERROR (AttributeNotRecognized "foo").
Proof.
  destruct (AlterOperator_requires_ownership guest_env
              (mkAlterOperatorStmt (operator "+") [def "restrict" (type_arg "eqsel")]) cat0
              9004%Z eq_refl eq_refl) as (_ & H1 & _).
  destruct (AlterOperator_requires_ownership guest_env
              (mkAlterOperatorStmt (operator "+") [def "foo" (type_arg "eqsel")]) cat0
              9004%Z eq_refl eq_refl) as (_ & _ & H2).
  split.
  - exact (H1 _ _ cat0 [] eq_refl eq_refl).
  - exact (H2 _ _ cat0 [] eq_refl eq_refl).
Defined.

(** X9: what a successful [AlterOperator] stores for an estimator that the
    statement sets has been tested.  The caller owns the operator, and the
    new [oprrest], when the statement has a [restrict] option and the value
    is not [InvalidOid], is a function that returns [float8] and that the
    caller may execute, on an operator whose result is boolean; likewise the
    new [oprjoin], on a binary operator whose result is boolean. *)
Theorem AlterOperator_stores_tested_estimators (env : Env) (stmt : AlterOperatorStmt)
    (c : Catalog) (addr : ObjectAddress) :
  outcome (AlterOperator env stmt c) = OK addr ->
  exists oprId tup',
    LookupOperWithArgs env (opername stmt) = OK oprId /\
    pg_oper_ownercheck env oprId = true /\
    fetch_operator (final_catalog (AlterOperator env stmt c)) oprId = Some tup' /\
    (existsb (names_option "restrict") (options stmt) = true ->
     OidIsValid (oprrest tup') = true ->
     get_func_rettype env (oprrest tup') = FLOAT8OID /\
     pg_proc_aclcheck env (oprrest tup') ACL_EXECUTE = ACLCHECK_OK /\
     is_boolean tup' = true) /\
    (existsb (names_option "join") (options stmt) = true ->
     OidIsValid (oprjoin tup') = true ->
     get_func_rettype env (oprjoin tup') = FLOAT8OID /\
     pg_proc_aclcheck env (oprjoin tup') ACL_EXECUTE = ACLCHECK_OK /\
     is_boolean tup' = true /\ is_binary tup' = true).
Proof.
  intros Hok.
  destruct (AlterOperator_cases env stmt c)
    as [(e & evs & Hrun & _) |
        (oprId & tup & st & r & evr & j & evj & Hop & Hf & Hloop & Hown & Hr & Hj & Lr & Lj
         & Vr & Sr & Vj & Sj & Hc & Hrun)];
    [rewrite Hrun in Hok; discriminate |].
  rewrite Hrun. cbn [final_catalog fst snd].
  exists oprId, (mkHeapTuple (next_tid c) (t_data (AlterOperator_new_tuple tup st r j))).
  split; [exact Hop |]. split; [exact Hown |].
  split; [now apply fetch_operator_new_row |].
  destruct (foreach_AlterOperator_defel_flags env _ _ _ _ _ _ (Hloop c)) as [Fr Fj].
  cbn [AlterOperator_init alt_updateRestriction alt_updateJoin orb] in Fr, Fj.
  rewrite AlterOperator_checks_spec in Hc. cbn [outcome fst] in Hc.
  set (tup' := mkHeapTuple (next_tid c) (t_data (AlterOperator_new_tuple tup st r j))).
  assert (Hbool : is_boolean tup' = is_boolean tup).
  { unfold is_boolean. f_equal. subst tup'. same_column. }
  assert (Hbin : is_binary tup' = is_binary tup).
  { unfold is_binary. f_equal; f_equal; subst tup'; same_column. }
  assert (Hrest : oprrest tup' = oprrest (AlterOperator_new_tuple tup st r j)) by reflexivity.
  assert (Hjoin : oprjoin tup' = oprjoin (AlterOperator_new_tuple tup st r j)) by reflexivity.
  rewrite AlterOperator_new_tuple_oprrest in Hrest.
  rewrite AlterOperator_new_tuple_oprjoin in Hjoin.
  split.
  - intros Hopt V. rewrite Hopt in Fr. rewrite Fr in Hrest.
    destruct (t_data tup !! (Anum_pg_operator_oprrest - 1));
      [| rewrite Hrest in V; discriminate].
    rewrite Hrest in *. destruct (Sr V) as (_ & R & P).
    split; [exact R |]. split; [exact P |].
    rewrite Hbool. rewrite V in Hc.
    destruct (is_boolean tup); [reflexivity |].
    destruct (negb (is_binary tup) && OidIsValid j); discriminate.
  - intros Hopt V. rewrite Hopt in Fj. rewrite Fj in Hjoin.
    destruct (t_data tup !! (Anum_pg_operator_oprjoin - 1));
      [| rewrite Hjoin in V; discriminate].
    rewrite Hjoin in *. destruct (Sj V) as (_ & R & P).
    split; [exact R |]. split; [exact P |].
    rewrite Hbool, Hbin. rewrite V in Hc.
    destruct (is_binary tup); [| discriminate].
    destruct (is_boolean tup); [split; reflexivity |].
    cbn [negb andb] in Hc. destruct (OidIsValid r); discriminate.
Qed.

Lemma AlterOperator_stores_tested_estimators_witness :
  exists tup',
    fetch_operator
      (final_catalog (AlterOperator guest_env
                        (mkAlterOperatorStmt (operator "===")
                           [def "join" (type_arg "oldjoinsel")]) cat0))
      9001%Z = Some tup' /\
    (OidIsValid (oprjoin tup') = true ->
     get_func_rettype guest_env (oprjoin tup') = FLOAT8OID /\
     pg_proc_aclcheck guest_env (oprjoin tup') ACL_EXECUTE = ACLCHECK_OK /\
     is_boolean tup' = true /\ is_binary tup' = true).
Proof.
  destruct (AlterOperator_stores_tested_estimators guest_env
              (mkAlterOperatorStmt (operator "===") [def "join" (type_arg "oldjoinsel")]) cat0
              (mkObjectAddress OperatorRelationId 9001 0) eq_refl)
    as (oprId & tup' & Hop & _ & Hf & _ & Hj).
  inversion Hop; subst oprId.
  exists tup'. split; [exact Hf | exact (Hj eq_refl)].
Defined.

(** X10: a successful [AlterOperator] does its work in one order: the
    fetch of the row, the look-ups of the estimators, then the update of
    the row, the dependencies for the data just written (as an update), and
    the post-alter hook for the operator; its result is the address that
    [makeOperatorDependencies] gives, and the row under the operator's OID is
    the one written.  A statement that fails has done none of the last
    three. *)
Theorem AlterOperator_effects_in_order (env : Env) (stmt : AlterOperatorStmt) (c : Catalog) :
  (forall addr,
     outcome (AlterOperator env stmt c) = OK addr ->
     exists oprId tup data lookups,
       LookupOperWithArgs env (opername stmt) = OK oprId /\
       fetch_operator c oprId = Some tup /\
       events (AlterOperator env stmt c)
       = EvSearchSysCache oprId :: lookups ++
           [EvCatalogTupleUpdate (t_self tup) data; EvMakeOperatorDependencies data true;
            EvInvokeObjectPostAlterHook OperatorRelationId oprId] /\
       Forall is_lookup lookups /\
       addr = makeOperatorDependencies env data true /\
       fetch_operator (final_catalog (AlterOperator env stmt c)) oprId
       = Some (mkHeapTuple (next_tid c) data)) /\
  (forall e,
     outcome (AlterOperator env stmt c) = ERROR e ->
     Forall (fun ev => ~ is_alter_effect ev) (events (AlterOperator env stmt c))).
Proof.
  destruct (AlterOperator_cases env stmt c)
    as [(e & evs & Hrun & Hev) |
        (oprId & tup & st & r & evr & j & evj & Hop & Hf & Hloop & Hown & Hr & Hj & Lr & Lj
         & Vr & Sr & Vj & Sj & Hc & Hrun)];
    rewrite Hrun; cbn [outcome final_catalog events fst snd].
  - split; [discriminate |]. intros _ _. exact Hev.
  - split; [| discriminate]. intros addr Haddr. inversion Haddr.
    exists oprId, tup, (t_data (AlterOperator_new_tuple tup st r j)), (evr ++ evj).
    split; [exact Hop |]. split; [exact Hf |].
    split; [now rewrite <- app_assoc |].
    split; [apply Forall_app; split; assumption |].
    split; [reflexivity |]. now apply fetch_operator_new_row.
Qed.

Lemma AlterOperator_effects_in_order_witness :
  exists data,
    events (AlterOperator demo_env
              (mkAlterOperatorStmt (operator "===") [def "restrict" (type_arg "eqsel")]) cat0)
    = [EvSearchSysCache 9001%Z; EvLookupFuncName ["eqsel"%string] 4 restriction_signature false;
       EvCatalogTupleUpdate 1 data; EvMakeOperatorDependencies data true;
       EvInvokeObjectPostAlterHook OperatorRelationId 9001%Z] /\
    Forall (fun ev => ~ is_alter_effect ev)
      (events (AlterOperator demo_env
                 (mkAlterOperatorStmt (operator "@") [def "join" (type_arg "eqjoinsel")]) cat0)).
Proof.
  destruct (AlterOperator_effects_in_order demo_env
              (mkAlterOperatorStmt (operator "===") [def "restrict" (type_arg "eqsel")]) cat0)
    as [Hok _].
  destruct (AlterOperator_effects_in_order demo_env
              (mkAlterOperatorStmt (operator "@") [def "join" (type_arg "eqjoinsel")]) cat0)
    as [_ Herr].
  destruct (Hok _ eq_refl) as (oprId & tup & data & lookups & Hop & Hf & Hev & _).
  exists (t_data (AlterOperator_new_tuple
                    (mkHeapTuple 1 (operator_row 9001 "===" BOOLOID BOOLOID BOOLOID 9001 9002
                                      60 101 105))
                    (mkAlterLocals ["eqsel"%string] true [] false) 101%Z InvalidOid)).
  split; [reflexivity |].
  exact (Herr OnlyBinaryJoinSelectivity eq_refl).
Defined.

(** ** Altering an operator twice, and options given twice *)

(** Writing the same estimators into the row just written changes no
    column. *)
Lemma AlterOperator_new_tuple_again (tup : HeapTuple) (st : AlterOperator_locals) (r j : Oid)
    (n : TID) :
  t_data (AlterOperator_new_tuple
            (mkHeapTuple n (t_data (AlterOperator_new_tuple tup st r j))) st r j)
  = t_data (AlterOperator_new_tuple tup st r j).
Proof.
  apply list_eq. intros i.
  rewrite (AlterOperator_new_tuple_lookup (mkHeapTuple n _)). cbn [t_data].
  rewrite AlterOperator_new_tuple_lookup.
  destruct (Nat.eqb i (Anum_pg_operator_oprrest - 1) && alt_updateRestriction st);
    [destruct (t_data tup !! i); reflexivity |].
  destruct (Nat.eqb i (Anum_pg_operator_oprjoin - 1) && alt_updateJoin st);
    [destruct (t_data tup !! i); reflexivity | reflexivity].
Qed.

(** X11: [AlterOperator] is idempotent.  After a statement has succeeded,
    the same statement run on the catalog it left succeeds again, gives the
    same address, and writes a row with the same columns.  (The name of the
    operator resolves to the same OID both times: [LookupOperWithArgs] goes
    by name and operand types, which the statement does not change.) *)
Theorem AlterOperator_idempotent (env : Env) (stmt : AlterOperatorStmt) (c : Catalog)
    (addr : ObjectAddress) :
  outcome (AlterOperator env stmt c) = OK addr ->
  exists oprId tup1 tup2,
    LookupOperWithArgs env (opername stmt) = OK oprId /\
    fetch_operator (final_catalog (AlterOperator env stmt c)) oprId = Some tup1 /\
    outcome (AlterOperator env stmt (final_catalog (AlterOperator env stmt c))) = OK addr /\
    fetch_operator
      (final_catalog (AlterOperator env stmt (final_catalog (AlterOperator env stmt c)))) oprId
    = Some tup2 /\
    t_data tup2 = t_data tup1.
Proof.
  intros Hok.
  destruct (AlterOperator_cases env stmt c)
    as [(e & evs & Hrun & _) |
        (oprId & tup & st & r & evr & j & evj & Hop & Hf & Hloop & Hown & Hr & Hj & Lr & Lj
         & Vr & Sr & Vj & Sj & Hc & Hrun)];
    [rewrite Hrun in Hok; discriminate |].
  rewrite Hrun in Hok. cbn [outcome fst] in Hok. inversion Hok as [Haddr].
  rewrite Hrun. cbn [final_catalog fst snd].
  set (data := t_data (AlterOperator_new_tuple tup st r j)).
  set (c1 := catalog_update c (t_self tup) data).
  set (tup1 := mkHeapTuple (next_tid c) data).
  assert (Hf1 : fetch_operator c1 oprId = Some tup1) by now apply fetch_operator_new_row.
  assert (Hbool : is_boolean tup1 = is_boolean tup).
  { unfold is_boolean. f_equal. subst tup1 data. same_column. }
  assert (Hbin : is_binary tup1 = is_binary tup).
  { unfold is_binary. f_equal; f_equal; subst tup1 data; same_column. }
  assert (Hc1 : outcome (AlterOperator_checks tup1 r j c1) = OK tt).
  { rewrite AlterOperator_checks_spec in Hc |- *. cbn [outcome fst] in Hc |- *.
    now rewrite Hbool, Hbin. }
  pose proof (AlterOperator_run env stmt c1 oprId tup1 st r evr j evj Hop Hf1 (Hloop c1) Hown
                (Hr c1) (Hj c1)) as Hrun1.
  rewrite Hc1 in Hrun1. cbv zeta in Hrun1.
  assert (Hdata : t_data (AlterOperator_new_tuple tup1 st r j) = data)
    by apply AlterOperator_new_tuple_again.
  exists oprId, tup1, (mkHeapTuple (next_tid c1) (t_data (AlterOperator_new_tuple tup1 st r j))).
  split; [exact Hop |]. split; [exact Hf1 |].
  rewrite Hrun1. cbn [outcome final_catalog fst snd].
  split; [now rewrite Hdata |].
  split; [now apply fetch_operator_new_row |].
  exact Hdata.
Qed.

Lemma AlterOperator_idempotent_witness :
  outcome (AlterOperator demo_env
             (mkAlterOperatorStmt (operator "===") [def_none "restrict"; def "join" (type_arg "oldjoinsel")])
             (final_catalog
                (AlterOperator demo_env
                   (mkAlterOperatorStmt (operator "===")
                      [def_none "restrict"; def "join" (type_arg "oldjoinsel")]) cat0)))
  = OK (mkObjectAddress OperatorRelationId 9001 0).
Proof.
  destruct (AlterOperator_idempotent demo_env
              (mkAlterOperatorStmt (operator "===")
                 [def_none "restrict"; def "join" (type_arg "oldjoinsel")]) cat0
              (mkObjectAddress OperatorRelationId 9001 0) eq_refl)
    as (oprId & tup1 & tup2 & _ & _ & H & _).
  exact H.
Defined.

(** The value of an option of [AlterOperator]: no name for [NONE], and
    otherwise the name that [defGetQualifiedName] reads.  The last
    [restrict] option, and the last [join] option, is the one whose value
    the locals hold after the loop. *)
Lemma foreach_AlterOperator_defel_last_restrict (env : Env) (before after : list DefElem)
    (defel : DefElem) (name : list string) st c st' c' evs :
  foreach (AlterOperator_defel env) (before ++ defel :: after) st c = (OK st', c', evs) ->
  (arg defel = None /\ name = [] \/ arg defel <> None /\ defGetQualifiedName env defel = OK name) ->
  defname defel = "restrict"%string ->
  Forall (fun d => defname d <> "restrict"%string) after ->
  alt_updateRestriction st' = true /\ alt_restrictionName st' = name.
Proof.
  intros Hrun Hval Hname Hafter. rewrite foreach_app in Hrun.
  apply bind_OK_inv in Hrun. destruct Hrun as (st1 & c1 & evs1 & evs2 & _ & H2 & _).
  cbn [foreach] in H2. apply bind_OK_inv in H2.
  destruct H2 as (st2 & c2 & evs3 & evs4 & Hd & H3 & _).
  destruct (foreach_AlterOperator_defel_no_restrict env after Hafter _ _ _ _ _ H3) as [Ha Hb].
  destruct (AlterOperator_defel_OK_inv env defel _ _ _ _ _ Hd)
    as (param & Hparam & [[_ ->] | (Hn & _)]); [| contradiction].
  cbn in Ha, Hb. split; [exact Ha |]. rewrite Hb.
  destruct Hval as [[Hv ->] | [Hv Hq]]; destruct Hparam as [[Hp ->] | [Hp Hq']];
    try contradiction; congruence.
Qed.

Lemma foreach_AlterOperator_defel_last_join (env : Env) (before after : list DefElem)
    (defel : DefElem) (name : list string) st c st' c' evs :
  foreach (AlterOperator_defel env) (before ++ defel :: after) st c = (OK st', c', evs) ->
  (arg defel = None /\ name = [] \/ arg defel <> None /\ defGetQualifiedName env defel = OK name) ->
  defname defel = "join"%string ->
  Forall (fun d => defname d <> "join"%string) after ->
  alt_updateJoin st' = true /\ alt_joinName st' = name.
Proof.
  intros Hrun Hval Hname Hafter. rewrite foreach_app in Hrun.
  apply bind_OK_inv in Hrun. destruct Hrun as (st1 & c1 & evs1 & evs2 & _ & H2 & _).
  cbn [foreach] in H2. apply bind_OK_inv in H2.
  destruct H2 as (st2 & c2 & evs3 & evs4 & Hd & H3 & _).
  destruct (foreach_AlterOperator_defel_no_join env after Hafter _ _ _ _ _ H3) as [Ha Hb].
  destruct (AlterOperator_defel_OK_inv env defel _ _ _ _ _ Hd)
    as (param & Hparam & [[Hn _] | (_ & _ & ->)]).
  { rewrite Hname in Hn. discriminate. }
  cbn in Ha, Hb. split; [exact Ha |]. rewrite Hb.
  destruct Hval as [[Hv ->] | [Hv Hq]]; destruct Hparam as [[Hp ->] | [Hp Hq']];
    try contradiction; congruence.
Qed.

(** X12: when an option is given more than once in a statement that
    succeeds, the last one counts.  The new [oprrest] is the function found
    for the name of the last [restrict] option under the signature of a
    restriction estimator, or [InvalidOid] when that option has no name; the
    new [oprjoin] is the function found for the name of the last [join]
    option under the one of the two signatures of a join estimator that has
    a match. *)
Theorem AlterOperator_last_option_counts (env : Env) (stmt : AlterOperatorStmt) (c : Catalog)
    (addr : ObjectAddress) (before after : list DefElem) (defel : DefElem) (name : list string) :
  outcome (AlterOperator env stmt c) = OK addr ->
  options stmt = before ++ defel :: after ->
  (arg defel = None /\ name = [] \/ arg defel <> None /\ defGetQualifiedName env defel = OK name) ->
  exists oprId tup tup',
    LookupOperWithArgs env (opername stmt) = OK oprId /\
    fetch_operator c oprId = Some tup /\
    fetch_operator (final_catalog (AlterOperator env stmt c)) oprId = Some tup' /\
    (defname defel = "restrict"%string ->
     Forall (fun d => defname d <> "restrict"%string) after ->
     is_Some (t_data tup !! (Anum_pg_operator_oprrest - 1)) ->
     oprrest tup' = if is_NIL name then InvalidOid
                    else func_by_signature env name restriction_signature) /\
    (defname defel = "join"%string ->
     Forall (fun d => defname d <> "join"%string) after ->
     is_Some (t_data tup !! (Anum_pg_operator_oprjoin - 1)) ->
     if is_NIL name then oprjoin tup' = InvalidOid
     else oprjoin tup' = func_by_signature env name join_signature5 /\
          OidIsValid (func_by_signature env name join_signature4) = false \/
          oprjoin tup' = func_by_signature env name join_signature4 /\
          OidIsValid (func_by_signature env name join_signature5) = false).
Proof.
  intros Hok Hopts Hval.
  destruct (AlterOperator_cases env stmt c)
    as [(e & evs & Hrun & _) |
        (oprId & tup & st & r & evr & j & evj & Hop & Hf & Hloop & Hown & Hr & Hj & Lr & Lj
         & Vr & Sr & Vj & Sj & Hc & Hrun)];
    [rewrite Hrun in Hok; discriminate |].
  rewrite Hrun. cbn [final_catalog fst snd].
  exists oprId, tup, (mkHeapTuple (next_tid c) (t_data (AlterOperator_new_tuple tup st r j))).
  split; [exact Hop |]. split; [exact Hf |].
  split; [now apply fetch_operator_new_row |].
  pose proof (Hloop c) as Hl. rewrite Hopts in Hl.
  split.
  - intros Hname Hafter [d Hd].
    destruct (foreach_AlterOperator_defel_last_restrict env _ _ _ name _ _ _ _ _ Hl Hval Hname
                Hafter) as [Hu Hn].
    change (oprrest (mkHeapTuple (next_tid c) (t_data (AlterOperator_new_tuple tup st r j))))
      with (oprrest (AlterOperator_new_tuple tup st r j)).
    rewrite AlterOperator_new_tuple_oprrest, Hu, Hd. rewrite Hn in Vr, Sr.
    destruct name as [| n rest]; cbn [is_NIL negb] in *.
    + unfold OidIsValid in Vr. apply negb_false_iff, Z.eqb_eq in Vr. exact Vr.
    + now destruct (Sr Vr) as (? & _).
  - intros Hname Hafter [d Hd].
    destruct (foreach_AlterOperator_defel_last_join env _ _ _ name _ _ _ _ _ Hl Hval Hname
                Hafter) as [Hu Hn].
    change (oprjoin (mkHeapTuple (next_tid c) (t_data (AlterOperator_new_tuple tup st r j))))
      with (oprjoin (AlterOperator_new_tuple tup st r j)).
    rewrite AlterOperator_new_tuple_oprjoin, Hu, Hd. rewrite Hn in Vj, Sj.
    destruct name as [| n rest]; cbn [is_NIL negb] in *.
    + unfold OidIsValid in Vj. apply negb_false_iff, Z.eqb_eq in Vj. exact Vj.
    + now destruct (Sj Vj) as (? & _).
Qed.

Lemma AlterOperator_last_option_counts_witness :
  exists tup',
    fetch_operator
      (final_catalog (AlterOperator demo_env
                        (mkAlterOperatorStmt (operator "===")
                           [def_none "restrict"; def "restrict" (type_arg "eqsel");
                            def "join" (type_arg "eqjoinsel")]) cat0))
      9001%Z = Some tup' /\
    oprrest tup' = 101%Z.
Proof.
  destruct (AlterOperator_last_option_counts demo_env
              (mkAlterOperatorStmt (operator "===")
                 [def_none "restrict"; def "restrict" (type_arg "eqsel");
                  def "join" (type_arg "eqjoinsel")]) cat0
              (mkObjectAddress OperatorRelationId 9001 0)
              [def_none "restrict"] [def "join" (type_arg "eqjoinsel")]
              (def "restrict" (type_arg "eqsel")) ["eqsel"%string]
              eq_refl eq_refl)
    as (oprId & tup & tup' & Hop & Hf & Hf' & Hrest & _).
  { right. split; [discriminate | reflexivity]. }
  inversion Hop; subst oprId. inversion Hf; subst tup.
  exists tup'. split; [exact Hf' |].
  apply Hrest; [reflexivity | repeat constructor; discriminate | eexists; reflexivity].
Defined.

(** ** Altering, then dropping *)

(** Without a commutator and a negator the drop is the fetch and the
    delete of the row fetched. *)
Lemma RemoveOperatorById_unlinked (env : Env) (operOid : Oid) (c : Catalog) (op : HeapTuple) :
  fetch_operator c operOid = Some op -> has_links op = false ->
  RemoveOperatorById env operOid c
  = (OK tt, catalog_delete c (t_self op),
     [EvSearchSysCache operOid; EvCatalogTupleDelete (t_self op)]).
Proof.
  intros Hf Hl. unfold has_links in Hl.
  unfold RemoveOperatorById, SearchSysCache1, CatalogTupleDelete. run.
  rewrite Hf. run. rewrite Hl. run.
  rewrite (fetch_operator_live c operOid op Hf). run. reflexivity.
Qed.

(** X13: an operator that was altered can be dropped.  [AlterOperator]
    leaves a new version of the row at a new place; [RemoveOperatorById],
    run on the catalog it left, fetches that version by the operator's OID
    and deletes it, so the delete is not turned down as stale, and for an
    operator without commutator and negator (the alteration does not
    change that) [OperatorUpd] is not called. *)
Theorem RemoveOperatorById_after_AlterOperator (env : Env) (stmt : AlterOperatorStmt)
    (c : Catalog) (addr : ObjectAddress) (oprId : Oid) (tup : HeapTuple) :
  outcome (AlterOperator env stmt c) = OK addr ->
  LookupOperWithArgs env (opername stmt) = OK oprId ->
  fetch_operator c oprId = Some tup ->
  has_links tup = false ->
  let c1 := final_catalog (AlterOperator env stmt c) in
  RemoveOperatorById env oprId c1
  = (OK tt, catalog_delete c1 (next_tid c),
     [EvSearchSysCache oprId; EvCatalogTupleDelete (next_tid c)]) /\
  tid_live c1 (next_tid c) = true /\
  tid_live (final_catalog (RemoveOperatorById env oprId c1)) (next_tid c) = false.
Proof.
  intros Hok Hop0 Hf0 Hl. cbv zeta.
  destruct (AlterOperator_cases env stmt c)
    as [(e & evs & Hrun & _) |
        (oprId' & tup' & st & r & evr & j & evj & Hop & Hf & Hloop & Hown & Hr & Hj & Lr & Lj
         & Vr & Sr & Vj & Sj & Hc & Hrun)];
    [rewrite Hrun in Hok; discriminate |].
  rewrite Hop0 in Hop. inversion Hop; subst oprId'.
  rewrite Hf0 in Hf. inversion Hf; subst tup'.
  rewrite Hrun. cbn [final_catalog fst snd].
  set (data := t_data (AlterOperator_new_tuple tup st r j)).
  set (c1 := catalog_update c (t_self tup) data).
  set (tup1 := mkHeapTuple (next_tid c) data).
  assert (Hf1 : fetch_operator c1 oprId = Some tup1) by now apply fetch_operator_new_row.
  assert (Hl1 : has_links tup1 = false).
  { rewrite <- Hl. unfold has_links, oprcom, oprnegate.
    f_equal; f_equal; f_equal; subst tup1 data; apply heap_getattr_new_row; discriminate. }
  pose proof (RemoveOperatorById_unlinked env oprId c1 tup1 Hf1 Hl1) as Hdrop.
  cbn [t_self tup1] in Hdrop.
  split; [exact Hdrop |].
  split; [exact (fetch_operator_live c1 oprId tup1 Hf1) |].
  rewrite Hdrop. apply catalog_delete_not_live.
Qed.

Lemma RemoveOperatorById_after_AlterOperator_witness :
  RemoveOperatorById demo_env 9004%Z
    (final_catalog (AlterOperator demo_env
                      (mkAlterOperatorStmt (operator "+") [def_none "restrict"]) cat0))
  = (OK tt,
     catalog_delete
       (final_catalog (AlterOperator demo_env
                         (mkAlterOperatorStmt (operator "+") [def_none "restrict"]) cat0)) 7,
     [EvSearchSysCache 9004%Z; EvCatalogTupleDelete 7]).
Proof.
  destruct (RemoveOperatorById_after_AlterOperator demo_env
              (mkAlterOperatorStmt (operator "+") [def_none "restrict"]) cat0
              (mkObjectAddress OperatorRelationId 9004 0) 9004%Z
              (mkHeapTuple 4 (operator_row 9004 "+" INT4OID INT4OID INT4OID 0 0 177 0 0))
              eq_refl eq_refl eq_refl eq_refl) as [H _].
  exact H.
Defined.

(** X14: [DefineOperator] succeeds only through [OperatorCreate]: the
    address it returns is the one that call returned, and the call is the
    last event of the run, after the warnings and the look-ups. *)
Theorem DefineOperator_success_through_OperatorCreate (env : Env) (names : list string)
    (parameters : list DefElem) (c : Catalog) (addr : ObjectAddress) :
  outcome (DefineOperator env names parameters c) = OK addr ->
  exists a pre,
    events (DefineOperator env names parameters c) = pre ++ [EvOperatorCreate a] /\
    Forall (fun ev => ~ is_create ev) pre /\
    (OperatorCreate env a c).1 = OK addr.
Proof.
  intros Hok.
  destruct (DefineOperator_resolve_cases env names parameters c) as (res & done & Hres & _).
  destruct res as [r | e0].
  2: { destruct (DefineOperator_resolve_ERROR env names parameters c _ _ _ Hres) as [Hrun _].
       rewrite Hrun in Hok. discriminate. }
  unfold DefineOperator in *. rewrite (bind_OK _ _ _ _ _ _ Hres) in *.
  cbn [outcome events fst snd] in *.
  destruct (DefineOperator_create_cases env r c)
    as [(e & evs & Hrun & Hl) |
        (functionOid & restrictionOid & joinOid & evs & Hrun & Hl & _)];
    rewrite Hrun in *; cbn [outcome events fst snd] in *; [discriminate |].
  eexists _, (map unrecognized_warning done ++ evs).
  split; [now rewrite app_assoc |]. split; [| exact Hok].
  apply Forall_app. split; [| now apply is_lookup_not_create].
  eapply List.Forall_impl; [| apply unrecognized_warning_not_create]. intros ev [_ H]. exact H.
Qed.

Lemma DefineOperator_success_through_OperatorCreate_witness :
  exists a pre,
    events (DefineOperator demo_env ["myop"%string]
              [def "function" (type_arg "booleq"); def "leftarg" (type_arg "bool");
               def "rightarg" (type_arg "bool"); def "restrict" (type_arg "eqsel")] cat0)
    = pre ++ [EvOperatorCreate a] /\
    Forall (fun ev => ~ is_create ev) pre /\
    (OperatorCreate demo_env a cat0).1 = OK (mkObjectAddress OperatorRelationId 9100 0).
Proof.
  apply (DefineOperator_success_through_OperatorCreate demo_env ["myop"%string]
           [def "function" (type_arg "booleq"); def "leftarg" (type_arg "bool");
            def "rightarg" (type_arg "bool"); def "restrict" (type_arg "eqsel")] cat0
           (mkObjectAddress OperatorRelationId 9100 0)).
  reflexivity.
Defined.

(** ** Defining an operator: the loop, its log, and what it hands on *)

(** No branch of the loop touches the catalog. *)
Lemma DefineOperator_defel_catalog (env : Env) (defel : DefElem) st :
  exists r evs, forall c, DefineOperator_defel env defel st c = (r, c, evs).
Proof.
  destruct (DefineOperator_recognizes (defname defel)) eqn:Hrec.
  - destruct (DefineOperator_defel_recognized env defel st Hrec) as [r Hr]. eauto.
  - eexists _, _. intros c. now apply DefineOperator_defel_unrecognized.
Qed.

(** The log of the loop is the warnings about the attributes it got to
    that have no branch, in their order; it ends as the loop over the
    attributes that have a branch ends; and a loop that ends well got to
    every attribute. *)
Lemma foreach_DefineOperator_defel_log (env : Env) (parameters : list DefElem) :
  forall st c,
  exists r,
    foreach (DefineOperator_defel env) parameters st c
    = (r, c, map unrecognized_warning
               (unrecognized_only (DefineOperator_attributes_read env parameters st c))) /\
    foreach (DefineOperator_defel env) (recognized_only parameters) st c = (r, c, []) /\
    (forall st', r = OK st' -> DefineOperator_attributes_read env parameters st c = parameters).
Proof.
  induction parameters as [| d l IH]; intros st c.
  - exists (OK st). repeat split.
  - cbn [foreach DefineOperator_attributes_read]. unfold recognized_only, unrecognized_only.
    cbn [List.filter].
    destruct (DefineOperator_recognizes (defname d)) eqn:Hrec; cbn [negb].
    + destruct (DefineOperator_defel_recognized env d st Hrec) as [rd Hd].
      rewrite (Hd c). cbn [outcome fst]. destruct rd as [st1 | e].
      * destruct (IH st1 c) as (r & H1 & H2 & H3). exists r.
        cbn [foreach]. rewrite !(bind_OK _ _ _ _ _ _ (Hd c)).
        fold (unrecognized_only (DefineOperator_attributes_read env l st1 c)).
        fold (recognized_only l). rewrite H1, H2. cbn [outcome final_catalog events fst snd app].
        split; [reflexivity |]. split; [reflexivity |].
        intros st' Hr. now rewrite (H3 st' Hr).
      * exists (ERROR e). cbn [foreach]. rewrite !(bind_ERROR _ _ _ _ _ _ (Hd c)).
        cbn [List.filter map]. split; [reflexivity |]. split; [reflexivity | discriminate].
    + pose proof (DefineOperator_defel_unrecognized env d st c Hrec) as Hd.
      rewrite Hd. cbn [outcome fst]. destruct (IH st c) as (r & H1 & H2 & H3). exists r.
      rewrite (bind_OK _ _ _ _ _ _ Hd).
      fold (unrecognized_only (DefineOperator_attributes_read env l st c)).
      fold (recognized_only l). rewrite H1. cbn [outcome final_catalog events fst snd app map].
      split; [reflexivity |]. split; [exact H2 |].
      intros st' Hr. now rewrite (H3 st' Hr).
Qed.

(** The loop gets to an attribute when the attributes before it are read
    without an error, and to no attribute that is not in the list. *)
Lemma DefineOperator_attributes_read_reached (env : Env) (before after : list DefElem)
    (d : DefElem) :
  forall st c st1 c1 evs1,
    foreach (DefineOperator_defel env) before st c = (OK st1, c1, evs1) ->
    In d (DefineOperator_attributes_read env (before ++ d :: after) st c).
Proof.
  induction before as [| x before IH]; intros st c st1 c1 evs1 Hrun.
  - left. reflexivity.
  - cbn [foreach] in Hrun. apply bind_OK_inv in Hrun.
    destruct Hrun as (st2 & c2 & evs2 & evs3 & Hx & Hrest & _).
    destruct (DefineOperator_defel_catalog env x st) as (rx & evx & Hcat).
    rewrite Hcat in Hx. inversion Hx; subst rx c2 evx.
    cbn [app DefineOperator_attributes_read]. rewrite Hcat. cbn [outcome fst].
    right. exact (IH _ _ _ _ _ Hrest).
Qed.

Lemma DefineOperator_attributes_read_prefix (env : Env) (parameters : list DefElem) :
  forall st c, exists unread,
    parameters = DefineOperator_attributes_read env parameters st c ++ unread.
Proof.
  induction parameters as [| d l IH]; intros st c; [exists []; reflexivity |].
  cbn [DefineOperator_attributes_read].
  destruct (outcome (DefineOperator_defel env d st c)) as [st1 | e].
  - destruct (IH st1 c) as [unread H]. exists unread. cbn [app]. now rewrite <- H.
  - exists l. reflexivity.
Qed.

(** The command behind the loop: with the namespace found and open to the
    caller, the log of [DefineOperator] is the log of the loop followed by
    the log of the command on the attributes that have a branch, and it
    ends as that command ends. *)
Lemma DefineOperator_as_recognized_only (env : Env) (names : list string)
    (parameters : list DefElem) (c : Catalog) (nsp : Oid * string) :
  QualifiedNameGetCreationNamespace env names = OK nsp ->
  pg_namespace_aclcheck env nsp.1 ACL_CREATE = ACLCHECK_OK ->
  DefineOperator env names parameters c
  = (outcome (DefineOperator env names (recognized_only parameters) c),
     final_catalog (DefineOperator env names (recognized_only parameters) c),
     map unrecognized_warning
       (unrecognized_only (DefineOperator_attributes_read env parameters DefineOperator_init c))
     ++ events (DefineOperator env names (recognized_only parameters) c)).
Proof.
  intros Hns Hacl.
  destruct (foreach_DefineOperator_defel_log env parameters DefineOperator_init c)
    as (r & H1 & H2 & _).
  unfold DefineOperator, DefineOperator_resolve. rewrite Hns. run. rewrite Hacl.
  unfold aclcheck_error. run.
  match goal with
  | |- context [bind (foreach _ parameters _) ?k c] =>
      destruct (bind_same_but_events _ _ k c r c _ _ H1 H2) as (tail & E1 & E2 & _)
  end.
  rewrite E1. cbn [app] in E2. rewrite E2. reflexivity.
Qed.

(** What reaches [OperatorCreate] is what the loop left in the locals. *)
Lemma DefineOperator_request (env : Env) (names : list string) (parameters : list DefElem)
    (c : Catalog) (a : OperatorCreateArgs) :
  In (EvOperatorCreate a) (events (DefineOperator env names parameters c)) ->
  exists st evs,
    foreach (DefineOperator_defel env) parameters DefineOperator_init c = (OK st, c, evs) /\
    (exists lookups, events (DefineOperator env names parameters c)
                     = evs ++ lookups ++ [EvOperatorCreate a] /\
                     Forall is_lookup lookups) /\
    oc_canMerge a = canMerge st /\
    oc_canHash a = canHash st /\
    oc_commutatorName a = commutatorName st /\
    oc_negatorName a = negatorName st /\
    DefineOperator_typeId env (typeName1 st) = OK (oc_leftTypeId a) /\
    DefineOperator_typeId env (typeName2 st) = OK (oc_rightTypeId a) /\
    oc_procedureId a
    = func_by_signature env (functionName st)
        (if OidIsValid (oc_leftTypeId a) then [oc_leftTypeId a; oc_rightTypeId a]
         else [oc_rightTypeId a]) /\
    oc_restrictionId a
    = (if is_NIL (restrictionName st) then InvalidOid
       else func_by_signature env (restrictionName st) restriction_signature) /\
    (if is_NIL (joinName st) then oc_joinId a = InvalidOid
     else oc_joinId a = func_by_signature env (joinName st) join_signature5 /\
          OidIsValid (func_by_signature env (joinName st) join_signature4) = false \/
          oc_joinId a = func_by_signature env (joinName st) join_signature4 /\
          OidIsValid (func_by_signature env (joinName st) join_signature5) = false) /\
    outcome (DefineOperator env names parameters c) = (OperatorCreate env a c).1 /\
    final_catalog (DefineOperator env names parameters c) = (OperatorCreate env a c).2.
Proof.
  intros Hin.
  destruct (DefineOperator_resolve_cases env names parameters c) as (res & done & Hres & Hinv).
  pose proof (unrecognized_warning_not_create done) as Hw.
  assert (Hwc : Forall (fun ev => ~ is_create ev) (map unrecognized_warning done)).
  { eapply List.Forall_impl; [| exact Hw]. intros ev [_ H]. exact H. }
  destruct res as [r | e0].
  2: { exfalso. destruct (DefineOperator_resolve_ERROR env names parameters c _ _ _ Hres)
         as [Hrun _].
       rewrite Hrun in Hin. cbn [events snd] in Hin.
       rewrite List.Forall_forall in Hwc. exact (Hwc _ Hin I). }
  destruct (Hinv r eq_refl)
    as ([nspOid nspName] & st & Hns & Hacl & Hloop & Hfn & H1 & H2 & V2 & A1 & A2 & Hr).
  cbn [fst snd] in *.
  unfold DefineOperator in *. rewrite (bind_OK _ _ _ _ _ _ Hres) in *.
  cbn [outcome final_catalog events fst snd] in *.
  destruct (DefineOperator_create_cases env r c)
    as [(e & evs & Hrun & Hl) |
        (functionOid & restrictionOid & joinOid & evs & Hrun & Hl & Hf & Vf & Pf & Tf
         & Vr & Sr & Vj & Sj)];
    rewrite Hrun in *; cbn [outcome final_catalog events fst snd] in *.
  { exfalso. apply in_app_or in Hin. destruct Hin as [Hin | Hin].
    - rewrite List.Forall_forall in Hwc. exact (Hwc _ Hin I).
    - apply is_lookup_not_create in Hl. rewrite List.Forall_forall in Hl. exact (Hl _ Hin I). }
  assert (Ha : a = mkOperatorCreateArgs (oprName r) (oprNamespace r) (typeId1 r) (typeId2 r)
                     functionOid (commutatorName (locals r)) (negatorName (locals r))
                     restrictionOid joinOid (canMerge (locals r)) (canHash (locals r))).
  { apply in_app_or in Hin. destruct Hin as [Hin | Hin].
    - exfalso. rewrite List.Forall_forall in Hwc. exact (Hwc _ Hin I).
    - apply in_app_or in Hin. destruct Hin as [Hin | [Hin | []]].
      + exfalso. apply is_lookup_not_create in Hl. rewrite List.Forall_forall in Hl.
        exact (Hl _ Hin I).
      + now inversion Hin. }
  subst a. cbn [oc_leftTypeId oc_rightTypeId oc_procedureId oc_commutatorName oc_negatorName
                oc_restrictionId oc_joinId oc_canMerge oc_canHash].
  rewrite Hr in *. cbn [oprName oprNamespace typeId1 typeId2 locals] in *.
  exists st, (map unrecognized_warning done).
  split; [exact Hloop |].
  split; [exists evs; split; [reflexivity | exact Hl] |].
  split; [reflexivity |]. split; [reflexivity |]. split; [reflexivity |]. split; [reflexivity |].
  split; [exact H1 |]. split; [exact H2 |].
  split.
  { rewrite Hf. unfold DefineOperator_function_args.
    rewrite V2. destruct (OidIsValid (typeId1 r)); reflexivity. }
  split.
  { destruct (is_NIL (restrictionName st)); cbn [negb] in Vr.
    - unfold OidIsValid in Vr. apply negb_false_iff, Z.eqb_eq in Vr. exact Vr.
    - now destruct (Sr Vr) as (? & _). }
  split.
  { destruct (is_NIL (joinName st)); cbn [negb] in Vj.
    - unfold OidIsValid in Vj. apply negb_false_iff, Z.eqb_eq in Vj. exact Vj.
    - now destruct (Sj Vj) as (? & _). }
  split; reflexivity.
Qed.

(** ** The loop over the definition list: the last assignment counts *)



(** ** Attribute names that are not known *)

(** The loop of [DefineOperator] raises at the first attribute it turns
    down, and an attribute after that one is not looked at: a definition
    list whose right operand is a set and whose next attribute has an
    unknown name fails without any warning.  So does any list when the
    caller may not create in the namespace. *)
Lemma DefineOperator_unreached_attribute_not_warned :
  In (def "foo" (T_Integer 1))
     [def "rightarg" (T_TypeName (mkTypeName ["int4"%string] true)); def "foo" (T_Integer 1)] /\
  DefineOperator_recognizes "foo" = false /\
  DefineOperator demo_env ["myop"%string]
    [def "rightarg" (T_TypeName (mkTypeName ["int4"%string] true)); def "foo" (T_Integer 1)] cat0
  = (ERROR SetofNotAllowed, cat0, []) /\
  DefineOperator guest_env ["private"%string; "myop"%string]
    [def "foo" (T_Integer 1); def "function" (type_arg "int4um");
     def "rightarg" (type_arg "int4")] cat0
  = (ERROR (AclcheckError ACLCHECK_NO_PRIV OBJECT_SCHEMA "private"), cat0, []).
Proof. repeat split. right; left; reflexivity. Qed.

(** C5, amended: in [DefineOperator] the branch for an attribute whose
    name is not known gives a warning and leaves the locals as they were.
    With the namespace found and open to the caller, the log of the command
    is the warnings about the unknown attributes that the loop gets to, in
    their order, followed by the log of the command on the list without the
    unknown attributes, and the command ends as that one ends, with the same
    catalog: the loop gets to every attribute when no attribute is turned
    down (whether or not the command fails later), and to an unknown
    attribute whenever the attributes before it are read without an error.
    A request that reaches [OperatorCreate] comes after a warning for every
    unknown attribute of the list, and carries what the loop over the known
    attributes alone leaves in the locals.  In [AlterOperator] a statement
    with such an attribute never succeeds, writes nothing, and leaves the
    catalog as it was; the error is [AttributeNotRecognized], a syntax
    error, when the operator exists and the options before that one are
    taken. *)
Theorem unrecognized_attribute_warning_in_define_error_in_alter (env : Env) :
  (forall defel st c,
     DefineOperator_recognizes (defname defel) = false ->
     DefineOperator_defel env defel st c = (OK st, c, [unrecognized_warning defel])) /\
  (forall names parameters c nsp,
     QualifiedNameGetCreationNamespace env names = OK nsp ->
     pg_namespace_aclcheck env nsp.1 ACL_CREATE = ACLCHECK_OK ->
     let full := DefineOperator env names parameters c in
     let clean := DefineOperator env names (recognized_only parameters) c in
     let read := DefineOperator_attributes_read env parameters DefineOperator_init c in
     outcome full = outcome clean /\
     final_catalog full = final_catalog clean /\
     events full = map unrecognized_warning (unrecognized_only read) ++ events clean /\
     (exists unread, parameters = read ++ unread) /\
     (forall st c1 evs1,
        foreach (DefineOperator_defel env) parameters DefineOperator_init c = (OK st, c1, evs1) ->
        read = parameters) /\
     (forall before defel after st c1 evs1,
        parameters = before ++ defel :: after ->
        DefineOperator_recognizes (defname defel) = false ->
        foreach (DefineOperator_defel env) before DefineOperator_init c = (OK st, c1, evs1) ->
        In (unrecognized_warning defel) (events full))) /\
  (forall names parameters c a,
     In (EvOperatorCreate a) (events (DefineOperator env names parameters c)) ->
     (exists lookups,
        events (DefineOperator env names parameters c)
        = map unrecognized_warning (unrecognized_only parameters) ++ lookups
          ++ [EvOperatorCreate a] /\
        Forall is_lookup lookups) /\
     outcome (DefineOperator env names parameters c) = (OperatorCreate env a c).1 /\
     final_catalog (DefineOperator env names parameters c) = (OperatorCreate env a c).2 /\
     exists st,
       foreach (DefineOperator_defel env) (recognized_only parameters) DefineOperator_init c
       = (OK st, c, []) /\
       oc_canMerge a = canMerge st /\
       oc_canHash a = canHash st /\
       oc_commutatorName a = commutatorName st /\
       oc_negatorName a = negatorName st /\
       DefineOperator_typeId env (typeName1 st) = OK (oc_leftTypeId a) /\
       DefineOperator_typeId env (typeName2 st) = OK (oc_rightTypeId a) /\
       oc_procedureId a
       = func_by_signature env (functionName st)
           (if OidIsValid (oc_leftTypeId a) then [oc_leftTypeId a; oc_rightTypeId a]
            else [oc_rightTypeId a]) /\
       oc_restrictionId a
       = (if is_NIL (restrictionName st) then InvalidOid
          else func_by_signature env (restrictionName st) restriction_signature) /\
       (if is_NIL (joinName st) then oc_joinId a = InvalidOid
        else oc_joinId a = func_by_signature env (joinName st) join_signature5 /\
             OidIsValid (func_by_signature env (joinName st) join_signature4) = false \/
             oc_joinId a = func_by_signature env (joinName st) join_signature4 /\
             OidIsValid (func_by_signature env (joinName st) join_signature5) = false)) /\
  (forall stmt c defel,
     In defel (options stmt) ->
     DefineOperator_recognizes (defname defel) = false ->
     (exists e, outcome (AlterOperator env stmt c) = ERROR e) /\
     final_catalog (AlterOperator env stmt c) = c /\
     Forall (fun ev => ~ is_alter_effect ev) (events (AlterOperator env stmt c)) /\
     (forall oprId before after,
        LookupOperWithArgs env (opername stmt) = OK oprId ->
        fetch_operator c oprId <> None ->
        options stmt = before ++ defel :: after ->
        Forall (fun d => AlterOperator_alterable (defname d) = true /\ param_readable env d)
               before ->
        param_readable env defel ->
        outcome (AlterOperator env stmt c) = ERROR (AttributeNotRecognized (defname defel))) /\
     sqlerrcode (AttributeNotRecognized (defname defel)) = ERRCODE_SYNTAX_ERROR).
Proof.
  split; [| split; [| split]].
  - intros defel st c H. now apply DefineOperator_defel_unrecognized.
  - intros names parameters c nsp Hns Hacl full clean read. subst full clean read.
    rewrite (DefineOperator_as_recognized_only env names parameters c nsp Hns Hacl).
    cbn [outcome final_catalog events fst snd].
    destruct (foreach_DefineOperator_defel_log env parameters DefineOperator_init c)
      as (r & H1 & _ & H3).
    split; [reflexivity |]. split; [reflexivity |]. split; [reflexivity |].
    split; [apply DefineOperator_attributes_read_prefix |].
    split.
    + intros st c1 evs1 Hloop. rewrite H1 in Hloop. inversion Hloop; subst. now apply (H3 st).
    + intros before defel after st c1 evs1 Hpar Hrec Hbefore.
      apply in_or_app. left. apply in_map. unfold unrecognized_only.
      apply List.filter_In. split; [| now rewrite Hrec].
      rewrite Hpar. exact (DefineOperator_attributes_read_reached env _ _ _ _ _ _ _ _ Hbefore).
  - intros names parameters c a Hin.
    destruct (DefineOperator_request env names parameters c a Hin)
      as (st & evs & Hloop & (lookups & Hev & Hl) & Hm & Hh & Hc & Hn & Ht1 & Ht2 & Hf & Hr & Hj
          & Hout & Hcat).
    destruct (foreach_DefineOperator_defel_log env parameters DefineOperator_init c)
      as (r & H1 & H2 & H3).
    rewrite H1 in Hloop. inversion Hloop as [[Hr0 Hevs]]. subst r.
    rewrite (H3 st eq_refl) in Hevs.
    split; [exists lookups; rewrite Hev, <- Hevs; split; [reflexivity | exact Hl] |].
    split; [exact Hout |]. split; [exact Hcat |].
    exists st. split; [exact H2 |].
    repeat (split; [assumption |]). assumption.
  - intros stmt c defel Hin Hrec.
    assert (Hna : AlterOperator_alterable (defname defel) = false).
    { destruct (AlterOperator_alterable (defname defel)) eqn:E; [| reflexivity].
      apply AlterOperator_alterable_recognized in E. congruence. }
    assert (Hnc : is_creation_only_attribute (defname defel) = false).
    { unfold DefineOperator_recognizes in Hrec. unfold is_creation_only_attribute.
      repeat (apply orb_false_elim in Hrec; destruct Hrec as [Hrec ?]).
      repeat match goal with E : (_ =? _)%string = false |- _ => rewrite E; clear E end.
      reflexivity. }
    destruct (foreach_AlterOperator_defel_not_alterable env _ _ Hin Hna AlterOperator_init c)
      as [e He].
    destruct (AlterOperator_loop_error env stmt c e He) as (H1 & H2 & _).
    split; [exact H1 |]. split; [exact H2 |].
    split.
    { destruct (AlterOperator_cases env stmt c)
        as [(e' & evs & Hrun & Hev) |
            (oprId & tup & st & r & evr & j & evj & _ & _ & Hloop & _)].
      - now rewrite Hrun.
      - rewrite Hloop in He. discriminate. }
    split; [| reflexivity].
    intros oprId before after Hop Hf Hopt Hbefore Hp.
    destruct (foreach_AlterOperator_defel_alterable env before Hbefore AlterOperator_init)
      as [st1 Hst1].
    assert (Hloop : foreach (AlterOperator_defel env) (options stmt) AlterOperator_init c
                    = (ERROR (AttributeNotRecognized (defname defel)), c, [])).
    { rewrite Hopt, foreach_app, (bind_OK _ _ _ _ _ _ (Hst1 c)). cbn [foreach].
      rewrite (bind_ERROR _ _ _ _ _ _
                 (AlterOperator_defel_unknown env defel st1 c Hna Hnc Hp)).
      reflexivity. }
    destruct (AlterOperator_loop_error env stmt c _ Hloop) as (_ & _ & H4). eauto.
Qed.

Lemma unrecognized_attribute_warning_in_define_error_in_alter_witness :
  DefineOperator demo_env ["myop"%string]
    [def "function" (type_arg "int4um"); def "foo" (T_Integer 1); def "rightarg" (type_arg "int4")]
    cat0
  = (OK (mkObjectAddress OperatorRelationId 9100 0),
     mkCatalog (pg_operator cat0
                ++ [mkHeapTuple 7 (operator_row 9100 "myop" InvalidOid INT4OID INT4OID 0 0 212 0 0)])
               8,
     [EvWarning (AttributeNotRecognized "foo");
      EvLookupFuncName ["int4um"%string] 1 [INT4OID] false;
      EvOperatorCreate
        (mkOperatorCreateArgs "myop" 2200 InvalidOid INT4OID 212 [] [] 0 0 false false)]) /\
  DefineOperator demo_env ["myop"%string]
    [def "foo" (T_Integer 1); def "function" (type_arg "nosuchfn");
     def "rightarg" (type_arg "int4")] cat0
  = (ERROR (FunctionDoesNotExist ["nosuchfn"%string] 1 [INT4OID]), cat0,
     [EvWarning (AttributeNotRecognized "foo");
      EvLookupFuncName ["nosuchfn"%string] 1 [INT4OID] false]) /\
  In (EvWarning (AttributeNotRecognized "foo"))
     (events (DefineOperator demo_env ["myop"%string]
                [def "function" (type_arg "int4um"); def "foo" (T_Integer 1);
                 def "rightarg" (T_TypeName (mkTypeName ["int4"%string] true))] cat0)) /\
  outcome (AlterOperator demo_env
             (mkAlterOperatorStmt (operator "===")
                [def "restrict" (type_arg "eqsel"); def "foo" (T_String "bar")]) cat0)
  = ERROR (AttributeNotRecognized "foo").
Proof.
  destruct (unrecognized_attribute_warning_in_define_error_in_alter demo_env)
    as (_ & Hlog & Hreq & Halt).
  split; [| split; [| split]].
  - destruct (Hreq ["myop"%string]
                [def "function" (type_arg "int4um"); def "foo" (T_Integer 1);
                 def "rightarg" (type_arg "int4")] cat0
                (mkOperatorCreateArgs "myop" 2200 InvalidOid INT4OID 212 [] [] 0 0 false false))
      as ((lookups & Hev & _) & Hout & Hcat & _).
    { right. right. left. reflexivity. }
    rewrite (triple_eta (DefineOperator _ _ _ cat0)). rewrite Hout, Hcat. reflexivity.
  - destruct (Hlog ["myop"%string]
                [def "foo" (T_Integer 1); def "function" (type_arg "nosuchfn");
                 def "rightarg" (type_arg "int4")] cat0 (2200%Z, "myop"%string)
                eq_refl eq_refl) as (Hout & Hcat & Hev & _).
    rewrite (triple_eta (DefineOperator _ _ _ cat0)). rewrite Hout, Hcat, Hev. reflexivity.
  - destruct (Hlog ["myop"%string]
                [def "function" (type_arg "int4um"); def "foo" (T_Integer 1);
                 def "rightarg" (T_TypeName (mkTypeName ["int4"%string] true))] cat0
                (2200%Z, "myop"%string) eq_refl eq_refl) as (_ & _ & _ & _ & _ & Hreached).
    exact (Hreached [def "function" (type_arg "int4um")] (def "foo" (T_Integer 1))
             [def "rightarg" (T_TypeName (mkTypeName ["int4"%string] true))]
             _ cat0 [] eq_refl eq_refl eq_refl).
  - destruct (Halt (mkAlterOperatorStmt (operator "===")
                      [def "restrict" (type_arg "eqsel"); def "foo" (T_String "bar")]) cat0
                (def "foo" (T_String "bar"))) as (_ & _ & _ & Herr & _);
      [right; left; reflexivity | reflexivity |].
    apply (Herr 9001%Z [def "restrict" (type_arg "eqsel")] []);
      [reflexivity | discriminate | reflexivity | | right; eexists; reflexivity].
    constructor; [| constructor]. split; [reflexivity | right; eexists; reflexivity].
Defined.

(** X15: [DefineOperator] writes through [OperatorCreate] only.  A run that
    does not get as far as that call has failed, and has left the catalog
    as it was: every test before the call only reads. *)
Theorem DefineOperator_writes_only_through_OperatorCreate (env : Env) (names : list string)
    (parameters : list DefElem) (c : Catalog) :
  Forall (fun ev => ~ is_create ev) (events (DefineOperator env names parameters c)) ->
  final_catalog (DefineOperator env names parameters c) = c /\
  exists e, outcome (DefineOperator env names parameters c) = ERROR e.
Proof.
  intros Hno.
  destruct (DefineOperator_resolve_cases env names parameters c) as (res & done & Hres & _).
  destruct res as [r | e0].
  2: { destruct (DefineOperator_resolve_ERROR env names parameters c _ _ _ Hres) as [Hrun _].
       rewrite Hrun. split; [reflexivity | now exists e0]. }
  unfold DefineOperator in *. rewrite (bind_OK _ _ _ _ _ _ Hres) in *.
  cbn [outcome final_catalog events fst snd] in *.
  destruct (DefineOperator_create_cases env r c)
    as [(e & evs & Hrun & Hl) |
        (functionOid & restrictionOid & joinOid & evs & Hrun & _)];
    rewrite Hrun in *; cbn [outcome final_catalog events fst snd] in *.
  - split; [reflexivity | now exists e].
  - exfalso. apply Forall_app in Hno. destruct Hno as [_ Hno].
    apply Forall_app in Hno. destruct Hno as [_ Hno].
    apply Forall_cons in Hno. destruct Hno as [Hno _]. apply Hno. exact I.
Qed.

Lemma DefineOperator_writes_only_through_OperatorCreate_witness :
  final_catalog (DefineOperator guest_env ["myop"%string]
                   [def "function" (type_arg "lockedum"); def "rightarg" (type_arg "int4")] cat0)
  = cat0 /\
  exists e, outcome (DefineOperator guest_env ["myop"%string]
                       [def "function" (type_arg "lockedum"); def "rightarg" (type_arg "int4")]
                       cat0) = ERROR e.
Proof.
  apply (DefineOperator_writes_only_through_OperatorCreate guest_env ["myop"%string]
           [def "function" (type_arg "lockedum"); def "rightarg" (type_arg "int4")] cat0).
  repeat constructor; intros [].
Defined.
